(** * Stone drawing generator: fraction maths, render engine, export pipeline

    A shallow embedding of the TypeScript sources of the stone mockup
    generator, and the properties of its specification.

    - [FractionMath]  : [fraction-utils.ts]
    - [RenderEngine]  : [drawing-utils.ts] and [drawing-utils.optimized.ts]
    - [ExportPipeline]: [export-utils.ts] and the synchronous variant kept
                        next to [fraction-export-utils.ts]

    JavaScript numbers are modelled by exact rationals ([Q]); strings by
    the list of their UTF-16 code units. *)

From Stdlib Require Import ZArith Znumtheory NArith QArith Qround Qabs Qminmax.
From Stdlib Require Import List Bool Lia Lqa String Ascii DecimalN DecimalPos.
From Equations Require Import Equations.
Import ListNotations.

Local Open Scope Z_scope.

(** ** Lists *)

(** The segments of [l] between the elements that satisfy [sep]. *)
Fixpoint splitOn {A : Type} (sep : A -> bool) (l : list A) : list (list A) :=
  match l with
  | [] => [[]]
  | x :: t =>
      if sep x then [] :: splitOn sep t
      else match splitOn sep t with
           | [] => [[x]]
           | w :: ws => (x :: w) :: ws
           end
  end.

(** ** JavaScript strings *)

(** A string is the sequence of its UTF-16 code units. *)
Definition jsstring := list N.

(** An ASCII literal as a [jsstring]. *)
Definition str (s : string) : jsstring :=
  map N_of_ascii (list_ascii_of_string s).

Module JsString.

Local Open Scope N_scope.

(** The class [\s] of ECMAScript regular expressions, which is also the
    set of characters [String.prototype.trim] strips: WhiteSpace and
    LineTerminator code points. *)
Definition isWhiteSpace (c : N) : bool :=
  (c =? 9) || (c =? 10) || (c =? 11) || (c =? 12) || (c =? 13)
  || (c =? 32) || (c =? 160) || (c =? 5760)
  || ((8192 <=? c) && (c <=? 8202))
  || (c =? 8232) || (c =? 8233) || (c =? 8239) || (c =? 8287)
  || (c =? 12288) || (c =? 65279).

(** The class [\d] (no unicode flag): the ten ASCII digits. *)
Definition isDigit (c : N) : bool := (48 <=? c) && (c <=? 57).

Definition slash : N := 47.
Definition hyphen : N := 45.

Fixpoint trimStart (s : jsstring) : jsstring :=
  match s with
  | [] => []
  | c :: t => if isWhiteSpace c then trimStart t else s
  end.

(** [s.trim()] *)
Definition trim (s : jsstring) : jsstring :=
  rev (trimStart (rev (trimStart s))).

(** [s.replace(/\s+/g, '')]: every maximal run of white space is
    replaced by the empty string. *)
Definition removeWhiteSpace (s : jsstring) : jsstring :=
  filter (fun c => negb (isWhiteSpace c)) s.

(** [s.split(sep)] for a one-character separator. *)
Definition split (sep : N) (s : jsstring) : list jsstring :=
  splitOn (fun c => c =? sep) s.

(** The longest prefix of digits, and what follows it: the greedy match
    of [\d*]. *)
Fixpoint spanDigits (s : jsstring) : jsstring * jsstring :=
  match s with
  | [] => ([], [])
  | c :: t =>
      if isDigit c then let (ds, r) := spanDigits t in (c :: ds, r)
      else ([], s)
  end.

Definition isEmpty (s : jsstring) : bool :=
  match s with [] => true | _ => false end.

(** [/^\d+$/.test(s)] *)
Definition testWhole (s : jsstring) : bool :=
  negb (isEmpty s) && forallb isDigit s.

(** [/^\d+\/\d+$/.test(s)] *)
Definition testSimple (s : jsstring) : bool :=
  match spanDigits s with
  | (_ :: _, c :: den) => (c =? slash) && testWhole den
  | _ => false
  end.

(** [/^\d+-\d+\/\d+$/.test(s)] *)
Definition testMixed (s : jsstring) : bool :=
  match spanDigits s with
  | (_ :: _, c :: frac) => (c =? hyphen) && testSimple frac
  | _ => false
  end.

(** Decimal digits of a code-unit string, most significant first. *)
Fixpoint uintOfDigits (s : jsstring) : option Decimal.uint :=
  match s with
  | [] => Some Decimal.Nil
  | c :: t =>
      match uintOfDigits t with
      | None => None
      | Some u =>
          match c with
          | 48 => Some (Decimal.D0 u) | 49 => Some (Decimal.D1 u)
          | 50 => Some (Decimal.D2 u) | 51 => Some (Decimal.D3 u)
          | 52 => Some (Decimal.D4 u) | 53 => Some (Decimal.D5 u)
          | 54 => Some (Decimal.D6 u) | 55 => Some (Decimal.D7 u)
          | 56 => Some (Decimal.D8 u) | 57 => Some (Decimal.D9 u)
          | _ => None
          end
      end
  end.

Fixpoint digitsOfUint (u : Decimal.uint) : jsstring :=
  match u with
  | Decimal.Nil => []
  | Decimal.D0 u => 48 :: digitsOfUint u | Decimal.D1 u => 49 :: digitsOfUint u
  | Decimal.D2 u => 50 :: digitsOfUint u | Decimal.D3 u => 51 :: digitsOfUint u
  | Decimal.D4 u => 52 :: digitsOfUint u | Decimal.D5 u => 53 :: digitsOfUint u
  | Decimal.D6 u => 54 :: digitsOfUint u | Decimal.D7 u => 55 :: digitsOfUint u
  | Decimal.D8 u => 56 :: digitsOfUint u | Decimal.D9 u => 57 :: digitsOfUint u
  end.

(** [String(n)] (a template literal's [${n}]) for an integer [n]. *)
Definition ofInt (z : Z) : jsstring :=
  if (z <? 0)%Z then hyphen :: digitsOfUint (N.to_uint (Z.abs_N z))
  else digitsOfUint (N.to_uint (Z.to_N z)).

End JsString.

(** ** JavaScript numbers *)

(** A number is a finite value, [NaN], or an infinity.  Finite values are
    exact rationals. *)
Inductive number : Type :=
| Fin (q : Q)
| NaN
| Infinity (negative : bool).

Module JsNumber.

Local Open Scope Q_scope.

Definition isZero (q : Q) : bool := Qeq_bool q 0.

(** [a / b] *)
Definition div (a b : number) : number :=
  match a, b with
  | Fin x, Fin y =>
      if isZero y then (if isZero x then NaN else Infinity (Qle_bool x 0))
      else Fin (x / y)
  | Fin _, Infinity _ => Fin 0
  | Infinity n, Fin y => Infinity (xorb n (negb (Qle_bool 0 y)))
  | _, _ => NaN
  end.

(** [a + b] *)
Definition add (a b : number) : number :=
  match a, b with
  | Fin x, Fin y => Fin (x + y)
  | Fin _, Infinity n | Infinity n, Fin _ => Infinity n
  | Infinity n, Infinity m => if Bool.eqb n m then Infinity n else NaN
  | _, _ => NaN
  end.

(** [x === 0] *)
Definition eqZero (a : number) : bool :=
  match a with Fin x => isZero x | _ => false end.

(** [Number(s)] and [parseInt(s, 10)] on a string of decimal digits;
    [NaN] when another character occurs.  (Both functions accept more
    than digits; the callers only pass what [\d+] matched.) *)
Definition ofDigits (s : jsstring) : number :=
  match JsString.uintOfDigits s with
  | Some u => Fin (inject_Z (Z.of_N (N.of_uint u)))
  | None => NaN
  end.

(** [Math.floor] and [Math.round] on finite values; [Math.round] rounds
    halves up. *)
Definition floor (q : Q) : Z := Qfloor q.
Definition round (q : Q) : Z := Qfloor (q + (1 # 2)).

End JsNumber.

(** ** FractionMath ([fraction-utils.ts]) *)

Module FractionMath.

Import JsString.
Local Open Scope Q_scope.

(** [fractionToDecimal(fractionStr): number | null] *)
Definition fractionToDecimal (fractionStr : jsstring) : option number :=
  let cleanStr := removeWhiteSpace (trim fractionStr) in
  if isEmpty cleanStr then None
  else if testWhole cleanStr then Some (JsNumber.ofDigits cleanStr)
  else if testSimple cleanStr then
    match map JsNumber.ofDigits (split slash cleanStr) with
    | numerator :: denominator :: _ =>
        if JsNumber.eqZero denominator then None
        else Some (JsNumber.div numerator denominator)
    | _ => Some NaN
    end
  else if testMixed cleanStr then
    match split hyphen cleanStr with
    | whole :: fraction :: _ =>
        match map JsNumber.ofDigits (split slash fraction) with
        | numerator :: denominator :: _ =>
            if JsNumber.eqZero denominator then None
            else Some (JsNumber.add (JsNumber.ofDigits whole)
                                    (JsNumber.div numerator denominator))
        | _ => Some NaN
        end
    | _ => Some NaN
    end
  else None.

(** [isValidFractionString(fractionStr): boolean] *)
Definition isValidFractionString (fractionStr : jsstring) : bool :=
  let cleanStr := removeWhiteSpace (trim fractionStr) in
  if isEmpty cleanStr then false
  else if testWhole cleanStr then true
  else if testSimple cleanStr then
    match map JsNumber.ofDigits (split slash cleanStr) with
    | _ :: denominator :: _ => negb (JsNumber.eqZero denominator)
    | _ => true
    end
  else if testMixed cleanStr then
    match split hyphen cleanStr with
    | _ :: fraction :: _ =>
        match map JsNumber.ofDigits (split slash fraction) with
        | _ :: denominator :: _ => negb (JsNumber.eqZero denominator)
        | _ => true
        end
    | _ => true
    end
  else false.

(** The [while] loop of [findGCD]; [%] is the truncating remainder. *)
Equations? findGCDLoop (a b : Z) : Z by wf (Z.abs_nat b) lt :=
  findGCDLoop a b with Z.eq_dec b 0 => {
    | left _ := a;
    | right _ := findGCDLoop b (Z.rem a b) }.
Proof.
  pose proof (Z.rem_bound_abs a b n). lia.
Qed.

(** [findGCD(a, b)] *)
Definition findGCD (a b : Z) : Z := findGCDLoop (Z.abs a) (Z.abs b).

(** The three [let] variables of the search loop. *)
Record best : Type := Best {
  bestNumerator : Z;
  bestDenominator : Z;
  bestError : Q
}.

(** The exact-match threshold [0.0000001]. *)
Definition exactThreshold : Q := 1 # 10000000.

(** The [for] loop of [decimalToFraction], [steps] iterations from
    [denominator] on, with its early [break]. *)
Fixpoint search (fractionalPart : Q) (steps : nat) (denominator : Z)
                (b : best) : best :=
  match steps with
  | O => b
  | S steps' =>
      let numerator :=
        JsNumber.round (fractionalPart * inject_Z denominator) in
      let error :=
        Qabs (fractionalPart - inject_Z numerator / inject_Z denominator) in
      if Qlt_le_dec error (bestError b) then
        let b' := Best numerator denominator error in
        if Qlt_le_dec error exactThreshold then b'
        else search fractionalPart steps' (denominator + 1)%Z b'
      else search fractionalPart steps' (denominator + 1)%Z b
  end.

(** [decimalToFraction(decimal, maxDenominator)] *)
Definition decimalToFraction (decimal : number) (maxDenominator : nat)
  : jsstring :=
  match decimal with
  | NaN | Infinity _ => []
  | Fin d =>
      let sign := if Qlt_le_dec d 0 then [hyphen] else [] in
      let decimal := Qabs d in
      let wholePart := JsNumber.floor decimal in
      let fractionalPart := decimal - inject_Z wholePart in
      if JsNumber.isZero fractionalPart then sign ++ ofInt wholePart
      else
        let b := search fractionalPart maxDenominator 1
                        (Best 0 1 fractionalPart) in
        let gcd := findGCD (bestNumerator b) (bestDenominator b) in
        let bestNumerator := (bestNumerator b / gcd)%Z in
        let bestDenominator := (bestDenominator b / gcd)%Z in
        if (wholePart =? 0)%Z then
          sign ++ ofInt bestNumerator ++ [slash] ++ ofInt bestDenominator
        else
          sign ++ ofInt wholePart ++ [hyphen]
               ++ ofInt bestNumerator ++ [slash] ++ ofInt bestDenominator
  end.

(** The default [maxDenominator]. *)
Definition defaultMaxDenominator : nat := 16.

(** [formatFractionString(fractionStr)] *)
Definition formatFractionString (fractionStr : jsstring) : jsstring :=
  match fractionToDecimal fractionStr with
  | None => fractionStr
  | Some decimal => decimalToFraction decimal defaultMaxDenominator
  end.

End FractionMath.


(** ** Notions used to state the properties of [FractionMath] *)

Module FractionSpec.

Import JsString FractionMath.
Local Open Scope Q_scope.

(** The representation error of the nearest numerator over [den]. *)
Definition errorAt (frac : Q) (den : Z) : Q :=
  Qabs (frac
        - inject_Z (JsNumber.round (frac * inject_Z den)) / inject_Z den).

(** The invariant of the search loop: the best error is the error of the
    best fraction, whose parts print as plain digits. *)
Definition good (frac : Q) (b : best) : Prop :=
  (1 <= bestDenominator b)%Z /\ (0 <= bestNumerator b)%Z /\
  bestError b
  == Qabs (frac
           - inject_Z (bestNumerator b) / inject_Z (bestDenominator b)).

(** A non-empty string of digits. *)
Definition digitString (s : jsstring) : Prop :=
  isEmpty s = false /\ forallb isDigit s = true.

End FractionSpec.
(** ** ExportPipeline ([export-utils.ts]) *)

Module ExportPipeline.

Import JsString.

(** *** Data *)

(** [PDF_MARGINS], [IMAGE_SIZE], [MAX_TEXT_WIDTH] (millimetres). *)
Definition PDF_MARGINS_left : Z := 14.
Definition PDF_MARGINS_top : Z := 20.
Definition IMAGE_SIZE_width : Z := 180.
Definition IMAGE_SIZE_height : Z := 120.
Definition MAX_TEXT_WIDTH : Z := 180.

(** [PDF_CONFIG] is [{orientation: 'landscape', unit: 'mm', format: 'a4'}]:
    an ISO 216 A4 sheet turned sideways, 297 mm wide and 210 mm high. *)
Definition PAGE_width : Z := 297.
Definition PAGE_height : Z := 210.

(** An [HTMLCanvasElement] as the export sees it: [toDataURL] either
    returns the image data or throws ([None]). *)
Record canvas : Type := Canvas { toDataURL : option jsstring }.

(** The [specs: any] objects handed to the export functions: a
    [StoneSpecifications], possibly with the two display strings added
    by [fraction-export-utils.ts], possibly with fields left out. *)
Record specs : Type := Specs {
  width : Q;
  height : Q;
  displayWidth : option jsstring;
  displayHeight : option jsstring;
  materialType : jsstring;
  thickness : jsstring;
  quantity : option Z;
  polishedEdges : option (list jsstring);
  specsNotes : option jsstring
}.

(** An element of [specsArray]: either [{id, specs, notes}] or a bare
    specs object ([item.specs || item]). *)
Inductive item : Type :=
| Piece (id : jsstring) (s : specs) (notes : option jsstring)
| Bare (s : specs).

(** The value of [specs.displayWidth || specs.width]. *)
Inductive display : Type :=
| DisplayString (s : jsstring)
| DisplayNumber (q : Q).

(** The texts written into a document.  Each constructor stands for one
    string or template literal of the source and carries the values
    interpolated into it ([in] stands for the inch mark of the titles,
    a double-quote character). *)
Inductive text : Type :=
| ProjectTitle (projectName : jsstring) (* `Stone Project: ${projectName}` *)
| DateLine                          (* `Date: ${new Date().toLocaleDateString()}` *)
| TotalPieces (totalPieces : nat)   (* `Total Pieces: ${totalPieces}` *)
| MockupTitle (w h : display)       (* `Stone Mockup: ${w}in x ${h}in` *)
| PieceTitle (number : nat) (w h : display)
                                    (* `Piece ${index + 1}: ${w}in x ${h}in` *)
| Material (m : jsstring)           (* `Material: ${specs.materialType}` *)
| Thickness (t : jsstring)          (* `Thickness: ${specs.thickness}` *)
| Quantity (q : Z)                  (* `Quantity: ${specs.quantity || 1}` *)
| PolishedEdgesJoined (edges : list jsstring)
                                    (* `Polished Edges: ${edges.join(', ')}` *)
| PolishedEdgesNone                 (* 'Polished Edges: None' *)
| NotesLabel                        (* 'Notes:' *)
| Lines (textLines : list jsstring) (* the array returned by splitTextToSize *)
| Spacer                            (* '' *)
| CouldNotRender                    (* 'Error: Could not render preview image' *)
| NotAvailable.                     (* 'Error: Preview image not available' *)

(** The names under which a document is saved. *)
Inductive filename : Type :=
| MockupFile (w h : display)        (* `stone-mockup-${w}x${h}.pdf` *)
| ProjectFile (safeProjectName : jsstring).
                                    (* `${safeProjectName}-stone-project.pdf` *)

(** What an export does, in order: the calls on the [jsPDF] object, on
    the console, on the DOM, and the timers it sets.  [SetTimeout ms]
    marks the point where the running callback returns to the host
    environment; what follows it runs when the timer fires. *)
Inductive event : Type :=
| NewPDF
| SetFontSize (size : Z)
| Text (t : text) (x y : Z)
| AddImage (imgData : jsstring) (x y w h : Z)
| AddPage
| SetTextColor (r g b : Z)
| Save (f : filename)
| Output
| CreateIframe
| AppendIframe
| SetIframeSrc
| WindowOpen
| RemoveIframe
| ConsoleError
| SetTimeout (ms : Z).

(** How the promise returned by an export settles. *)
Inductive outcome : Type :=
| Resolved
| Rejected (message : string).

(** *** Small helpers for JavaScript idioms *)

(** Truthiness of an optional string. *)
Definition truthy (s : option jsstring) : bool :=
  match s with
  | Some (_ :: _) => true
  | _ => false
  end.

(** [a || b] on optional strings. *)
Definition orElse (a b : option jsstring) : option jsstring :=
  if truthy a then a else b.

(** [specs.displayWidth || specs.width] *)
Definition displayOf (d : option jsstring) (n : Q) : display :=
  match d with
  | Some (c :: s) => DisplayString (c :: s)
  | _ => DisplayNumber n
  end.

(** [specs.quantity || 1] *)
Definition quantityOf (q : option Z) : Z :=
  match q with
  | Some q => if (q =? 0)%Z then 1%Z else q
  | None => 1%Z
  end.

(** The polished-edges line. *)
Definition polishedEdgesText (s : specs) : text :=
  match polishedEdges s with
  | Some edges => PolishedEdgesJoined edges
  | None => PolishedEdgesNone
  end.

(** [notes && notes.trim() !== ''] *)
Definition hasText (notes : option jsstring) : bool :=
  match notes with
  | Some n => truthy (Some n) && negb (isEmpty (trim n))
  | None => false
  end.

(** [s.replace(/\s+/g, '-')] *)
Fixpoint hyphenate (inRun : bool) (s : jsstring) : jsstring :=
  match s with
  | [] => []
  | c :: t =>
      if isWhiteSpace c then
        (if inRun then hyphenate true t else hyphen :: hyphenate true t)
      else c :: hyphenate false t
  end.

(** [item.specs || item] *)
Definition specsOf (it : item) : specs :=
  match it with
  | Piece _ s _ => s
  | Bare s => s
  end.

(** [item.notes || specs.notes] *)
Definition notesOf (it : item) : option jsstring :=
  match it with
  | Piece _ s notes => orElse notes (specsNotes s)
  | Bare s => orElse (specsNotes s) (specsNotes s)
  end.

Definition batchSize : nat := 2.

(** The cap on the downward shift of the image. *)
Definition maxNotesShift : Z := 60.

(** [Math.min(textLines.length * 5, 60)] *)
Definition notesShift (textLines : list jsstring) : Z :=
  Z.min (Z.of_nat (List.length textLines) * 5) maxNotesShift.

(** [canvases[i]]: out of range, like a [null] entry, is falsy. *)
Definition canvasAt (canvases : list (option canvas)) (i : nat)
  : option canvas :=
  match nth_error canvases i with
  | Some c => c
  | None => None
  end.

(** [projectName || 'Stone Project'] *)
Definition finalProjectNameOf (projectName : jsstring) : jsstring :=
  match projectName with
  | [] => str "Stone Project"
  | _ => projectName
  end.

Section Library.

(** Library and host behaviour the export relies on. *)

(** [pdf.splitTextToSize(text, maxWidth)] *)
Variable splitTextToSize : jsstring -> Z -> list jsstring.
(** Whether [pdf.addImage] accepts the image data (it throws
    otherwise). *)
Variable addImageAccepts : jsstring -> bool.
(** [String.prototype.toLowerCase] *)
Variable toLowerCase : jsstring -> jsstring.
(** [/iPad|iPhone|iPod/.test(navigator.userAgent)] *)
Variable isIOS : bool.

(** [createSinglePiecePDF(imgData, specs, notes)]: the calls made, and
    whether [addImage] returned normally. *)
Definition createSinglePiecePDF (imgData : jsstring) (s : specs)
           (notes : option jsstring) : list event * bool :=
  let displayWidth := displayOf (displayWidth s) (width s) in
  let displayHeight := displayOf (displayHeight s) (height s) in
  let left := PDF_MARGINS_left in
  let top := PDF_MARGINS_top in
  let header :=
    [ NewPDF;
      SetFontSize 18;
      Text (MockupTitle displayWidth displayHeight) left top;
      SetFontSize 12;
      Text (Material (materialType s)) left (top + 10);
      Text (Thickness (thickness s)) left (top + 17);
      Text (Quantity (quantityOf (quantity s))) left (top + 24);
      Text (polishedEdgesText s) left (top + 31) ] in
  let yPosition := (top + 45)%Z in
  let '(notesEvents, yPosition) :=
    match notes with
    | Some n =>
        if hasText notes then
          let textLines := splitTextToSize n MAX_TEXT_WIDTH in
          ([ Text NotesLabel left (top + 38);
             Text (Lines textLines) left (top + 45) ],
           (yPosition + notesShift textLines)%Z)
        else ([], yPosition)
    | None => ([], yPosition)
    end in
  if addImageAccepts imgData then
    (header ++ notesEvents
       ++ [AddImage imgData left yPosition IMAGE_SIZE_width IMAGE_SIZE_height],
     true)
  else (header ++ notesEvents, false).

(** The mobile branch shared by [handlePDFDownload] and [finalizePDF];
    the promise resolves when the clean-up timer has fired. *)
Definition mobileDelivery (delay : Z) : list event :=
  [Output; CreateIframe; AppendIframe; SetIframeSrc]
    ++ (if isIOS then [WindowOpen] else [])
    ++ [SetTimeout delay; RemoveIframe].

(** [handlePDFDownload(pdf, specs, isMobile)] *)
Definition handlePDFDownload (s : specs) (isMobile : bool) : list event :=
  let displayWidth := displayOf (displayWidth s) (width s) in
  let displayHeight := displayOf (displayHeight s) (height s) in
  if isMobile then mobileDelivery 1500
  else [Save (MockupFile displayWidth displayHeight)].

(** [exportToPDF(canvas, specs, notes, isMobile)] *)
Definition exportToPDF (c : canvas) (s : specs) (notes : option jsstring)
           (isMobile : bool) : outcome * list event :=
  match toDataURL c with
  | None => (Rejected "toDataURL", [SetTimeout 10; ConsoleError])
  | Some imgData =>
      let (pdfEvents, ok) := createSinglePiecePDF imgData s notes in
      if ok then
        (Resolved, SetTimeout 10 :: pdfEvents ++ handlePDFDownload s isMobile)
      else
        (Rejected "addImage", SetTimeout 10 :: pdfEvents ++ [ConsoleError])
  end.

(** [addProjectInfoToPDF(pdf, projectName, totalPieces)] *)
Definition addProjectInfoToPDF (projectName : jsstring) (totalPieces : nat)
  : list event :=
  [ SetFontSize 20;
    Text (ProjectTitle projectName) PDF_MARGINS_left PDF_MARGINS_top;
    SetFontSize 12;
    Text DateLine PDF_MARGINS_left (PDF_MARGINS_top + 10);
    Text (TotalPieces totalPieces) PDF_MARGINS_left (PDF_MARGINS_top + 17) ].

(** The image block of [addPieceToPDF]: the image, or a placeholder. *)
Definition imageOrPlaceholder (c : option canvas) (imgYPosition : Z)
  : list event :=
  let left := PDF_MARGINS_left in
  let couldNotRender :=
    [ ConsoleError;
      SetTextColor 255 0 0;
      Text CouldNotRender left (imgYPosition + 60);
      SetTextColor 0 0 0 ] in
  match c with
  | Some c =>
      match toDataURL c with
      | Some imgData =>
          if addImageAccepts imgData then
            [AddImage imgData left imgYPosition
                      IMAGE_SIZE_width IMAGE_SIZE_height]
          else couldNotRender
      | None => couldNotRender
      end
  | None =>
      [ SetTextColor 255 0 0;
        Text NotAvailable left (imgYPosition + 60);
        SetTextColor 0 0 0 ]
  end.

(** [addPieceToPDF(pdf, canvas, item, index, isFirstPage)].  An
    [item] that is [undefined] makes [item.specs] throw; the outer
    [catch] logs it and the promise resolves all the same. *)
Definition addPieceToPDF (c : option canvas) (it : option item)
           (index : nat) (isFirstPage : bool) : list event :=
  match it with
  | None => [ConsoleError]
  | Some it =>
      let s := specsOf it in
      let displayWidth := displayOf (displayWidth s) (width s) in
      let displayHeight := displayOf (displayHeight s) (height s) in
      let left := PDF_MARGINS_left in
      let titleY :=
        if isFirstPage then (PDF_MARGINS_top + 35)%Z else PDF_MARGINS_top in
      let yStart :=
        if isFirstPage then (titleY + 10)%Z else (PDF_MARGINS_top + 10)%Z in
      let itemNotes := notesOf it in
      let '(notesEvents, imgYPosition) :=
        match itemNotes with
        | Some n =>
            if hasText itemNotes then
              let textLines := splitTextToSize n MAX_TEXT_WIDTH in
              let notesHeight := notesShift textLines in
              ([ Text NotesLabel left (yStart + 28);
                 Text (Lines textLines) left (yStart + 35) ],
               (yStart + 35 + notesHeight)%Z)
            else ([], (yStart + 35)%Z)
        | None => ([], (yStart + 35)%Z)
        end in
      [ SetFontSize 16;
        Text (PieceTitle (index + 1) displayWidth displayHeight) left titleY;
        SetFontSize 12;
        Text (Material (materialType s)) left yStart;
        Text (Thickness (thickness s)) left (yStart + 7);
        Text (Quantity (quantityOf (quantity s))) left (yStart + 14);
        Text (polishedEdgesText s) left (yStart + 21) ]
        ++ notesEvents
        ++ imageOrPlaceholder c imgYPosition
  end.

(** [finalizePDF(pdf, projectName, isMobile)] *)
Definition finalizePDF (projectName : jsstring) (isMobile : bool)
  : list event :=
  let safeProjectName := toLowerCase (hyphenate false projectName) in
  if isMobile then mobileDelivery 1500
  else [Save (ProjectFile safeProjectName)].

(** One turn of the [for] loop of [processBatch], for index [i]. *)
Definition processPiece (canvases : list (option canvas))
           (specsArray : list item) (i : nat) : list event :=
  (if (0 <? i)%nat then [AddPage] else [])
    ++ addPieceToPDF (canvasAt canvases i) (nth_error specsArray i)
                     i (i =? 0)%nat.

(** The closure [processBatch] of [processCanvasesInBatches], from the
    value [currentIndex] of its captured counter on: one batch, then a
    timer that runs it again. *)
Equations? processBatch (canvases : list (option canvas))
           (specsArray : list item) (projectName : jsstring)
           (isMobile : bool) (totalPieces currentIndex : nat)
  : list event by wf (totalPieces - currentIndex)%nat lt :=
  processBatch canvases specsArray projectName isMobile
               totalPieces currentIndex
    with le_lt_dec totalPieces currentIndex => {
    | left _ := finalizePDF projectName isMobile;
    | right _ :=
        let endIndex := Nat.min (currentIndex + batchSize) totalPieces in
        flat_map (processPiece canvases specsArray)
                 (seq currentIndex (endIndex - currentIndex))
          ++ SetTimeout 10
          :: processBatch canvases specsArray projectName isMobile
                          totalPieces endIndex }.
Proof.
  subst endIndex. unfold batchSize. lia.
Qed.

(** [processCanvasesInBatches(canvases, specsArray, projectName, isMobile)] *)
Definition processCanvasesInBatches (canvases : list (option canvas))
           (specsArray : list item) (projectName : jsstring)
           (isMobile : bool) : outcome * list event :=
  let totalPieces :=
    Nat.min (List.length canvases) (List.length specsArray) in
  (Resolved,
   NewPDF :: addProjectInfoToPDF projectName (List.length specsArray)
     ++ processBatch canvases specsArray projectName isMobile totalPieces 0).

(** [exportMultipleToPDF(canvases, specsArray, projectName, isMobile)] *)
Definition exportMultipleToPDF (canvases : list (option canvas))
           (specsArray : list item) (projectName : jsstring)
           (isMobile : bool) : outcome * list event :=
  match canvases, specsArray with
  | [], _ => (Rejected "No canvases provided for PDF export", [ConsoleError])
  | _, [] =>
      (Rejected "No specifications provided for PDF export", [ConsoleError])
  | _, _ =>
      processCanvasesInBatches canvases specsArray
                               (finalProjectNameOf projectName) isMobile
  end.

End Library.

End ExportPipeline.

(** ** The sequential export (second part of [fraction-export-utils.ts])

    The same two exports without batching: one synchronous pass over
    [specsArray]. *)

Module SequentialExport.

Import JsString ExportPipeline.

Section Library.

Variable splitTextToSize : jsstring -> Z -> list jsstring.
Variable addImageAccepts : jsstring -> bool.
Variable toLowerCase : jsstring -> jsstring.
Variable isIOS : bool.

(** The mobile branch; the clean-up timer is set and the function
    returns. *)
Definition mobileDelivery : list event :=
  [Output; CreateIframe; AppendIframe; SetIframeSrc]
    ++ (if isIOS then [WindowOpen] else [])
    ++ [SetTimeout 1000; RemoveIframe].

(** [exportToPDF(canvas, specs, notes, isMobile)] *)
Definition exportToPDF (c : canvas) (s : specs) (notes : option jsstring)
           (isMobile : bool) : outcome * list event :=
  let displayWidth := displayOf (displayWidth s) (width s) in
  let displayHeight := displayOf (displayHeight s) (height s) in
  let header :=
    [ NewPDF;
      SetFontSize 18;
      Text (MockupTitle displayWidth displayHeight) 14 20;
      SetFontSize 12;
      Text (Material (materialType s)) 14 30;
      Text (Thickness (thickness s)) 14 37;
      Text (Quantity (quantityOf (quantity s))) 14 44;
      Text (polishedEdgesText s) 14 51 ] in
  let notesEvents :=
    match notes with
    | Some n =>
        if hasText notes then
          [ Text NotesLabel 14 58;
            Text (Lines (splitTextToSize n 180)) 14 65 ]
        else []
    | None => []
    end in
  match toDataURL c with
  | None => (Rejected "toDataURL", header ++ notesEvents)
  | Some imgData =>
      let yPosition := if hasText notes then 85 else 65 in
      if addImageAccepts imgData then
        (Resolved,
         header ++ notesEvents
           ++ [AddImage imgData 14 yPosition 180 120]
           ++ (if isMobile then mobileDelivery
               else [Save (MockupFile displayWidth displayHeight)]))
      else (Rejected "addImage", header ++ notesEvents)
  end.

(** The callback of [specsArray.forEach]. *)
Definition forEachPiece (canvases : list (option canvas))
           (it : item) (index : nat) : list event :=
  let s := specsOf it in
  let displayWidth := displayOf (displayWidth s) (width s) in
  let displayHeight := displayOf (displayHeight s) (height s) in
  let first := (index =? 0)%nat in
  let yStart := if first then 65 else 30 in
  let itemNotes := notesOf it in
  let '(notesEvents, imgYPosition) :=
    match itemNotes with
    | Some n =>
        if hasText itemNotes then
          let textLines := splitTextToSize n 180 in
          ([ Text NotesLabel 14 (yStart + 28);
             Text (Lines textLines) 14 (yStart + 35) ],
           yStart + 35 + Z.of_nat (List.length textLines) * 5)
        else ([], yStart + 35)
    | None => ([], yStart + 35)
    end in
  (if (0 <? index)%nat then [AddPage] else [Text Spacer 14 45])
    ++ [ SetFontSize 16;
         Text (PieceTitle (index + 1) displayWidth displayHeight)
              14 (if first then 55 else 20);
         SetFontSize 12;
         Text (Material (materialType s)) 14 yStart;
         Text (Thickness (thickness s)) 14 (yStart + 7);
         Text (Quantity (quantityOf (quantity s))) 14 (yStart + 14);
         Text (polishedEdgesText s) 14 (yStart + 21) ]
    ++ notesEvents
    ++ imageOrPlaceholder addImageAccepts
         (canvasAt canvases index) imgYPosition.

(** [specsArray.forEach((item, index) => ...)], from [index] on. *)
Fixpoint forEach (canvases : list (option canvas))
         (specsArray : list item) (index : nat) : list event :=
  match specsArray with
  | [] => []
  | it :: rest =>
      forEachPiece canvases it index ++ forEach canvases rest (S index)
  end.

(** [exportMultipleToPDF(canvases, specsArray, projectName, isMobile)] *)
Definition exportMultipleToPDF (canvases : list (option canvas))
           (specsArray : list item) (projectName : jsstring)
           (isMobile : bool) : outcome * list event :=
  match canvases, specsArray with
  | [], _ => (Rejected "No canvases provided for PDF export", [])
  | _, [] => (Rejected "No specifications provided for PDF export", [])
  | _, _ =>
      let projectName := finalProjectNameOf projectName in
      let safeProjectName := toLowerCase (hyphenate false projectName) in
      (Resolved,
       NewPDF
         :: [ SetFontSize 20;
              Text (ProjectTitle projectName) 14 20;
              SetFontSize 12;
              Text DateLine 14 30;
              Text (TotalPieces (List.length specsArray)) 14 37 ]
         ++ forEach canvases specsArray 0
         ++ (if isMobile then mobileDelivery
             else [Save (ProjectFile safeProjectName)]))
  end.

End Library.

End SequentialExport.

(** ** The fraction-display wrappers ([fraction-export-utils.ts]) *)

(** [types/stone.ts] *)
Module Stone.

Record StoneSpecifications : Type := {
  width : Q;
  height : Q;
  polishedEdges : list jsstring;
  materialType : jsstring;
  thickness : jsstring;
  quantity : Z
}.

Record StonePiece : Type := {
  id : jsstring;
  specs : StoneSpecifications;
  notes : jsstring
}.

End Stone.

Module FractionExport.

Import FractionMath Stone.

(** [{...specs, displayWidth: decimalToFraction(specs.width),
      displayHeight: decimalToFraction(specs.height)}] *)
Definition displaySpecs (s : StoneSpecifications) : ExportPipeline.specs :=
  {| ExportPipeline.width := width s;
     ExportPipeline.height := height s;
     ExportPipeline.displayWidth :=
       Some (decimalToFraction (Fin (width s)) defaultMaxDenominator);
     ExportPipeline.displayHeight :=
       Some (decimalToFraction (Fin (height s)) defaultMaxDenominator);
     ExportPipeline.materialType := materialType s;
     ExportPipeline.thickness := thickness s;
     ExportPipeline.quantity := Some (quantity s);
     ExportPipeline.polishedEdges := Some (polishedEdges s);
     ExportPipeline.specsNotes := None |}.

Section Library.

Variable splitTextToSize : jsstring -> Z -> list jsstring.
Variable addImageAccepts : jsstring -> bool.
Variable toLowerCase : jsstring -> jsstring.
Variable isIOS : bool.

(** [exportToPDF(canvas, specs, notes)] *)
Definition exportToPDF (c : ExportPipeline.canvas)
           (s : StoneSpecifications) (notes : option jsstring)
  : ExportPipeline.outcome * list ExportPipeline.event :=
  ExportPipeline.exportToPDF splitTextToSize addImageAccepts isIOS
    c (displaySpecs s) notes false.

(** [exportMultipleToPDF(canvases, pieces, projectName, isMobile)] *)
Definition exportMultipleToPDF
           (canvases : list (option ExportPipeline.canvas))
           (pieces : list StonePiece) (projectName : jsstring)
           (isMobile : bool)
  : ExportPipeline.outcome * list ExportPipeline.event :=
  let piecesWithFractions :=
    map (fun piece =>
           ExportPipeline.Piece (id piece) (displaySpecs (specs piece))
                                (Some (notes piece)))
        pieces in
  ExportPipeline.exportMultipleToPDF
    splitTextToSize addImageAccepts toLowerCase isIOS
    canvases piecesWithFractions projectName isMobile.

End Library.

End FractionExport.

(** ** Reading an export's event log *)

Module Document.

Import ExportPipeline.

Definition isAddPage (e : event) : bool :=
  match e with AddPage => true | _ => false end.


(** The calls that build a document: its construction and everything
    that puts content or a page into it. *)
Definition isDocumentEvent (e : event) : bool :=
  match e with
  | NewPDF | SetFontSize _ | Text _ _ _ | AddImage _ _ _ _ _ | AddPage
  | SetTextColor _ _ _ => true
  | _ => false
  end.

Definition documentEvents (log : list event) : list event :=
  filter isDocumentEvent log.

(** The pages of the document an export built: what was written before
    the first [addPage()], between two of them, and after the last. *)
Definition pages (log : list event) : list (list event) :=
  splitOn isAddPage (documentEvents log).

(** The number of [addPage()] calls. *)
Definition pageBreaks (log : list event) : nat :=
  List.length (filter isAddPage log).


(** The numbers of the piece titles written, in order. *)
Definition pieceNumbers (log : list event) : list nat :=
  flat_map (fun e => match e with
                     | Text (PieceTitle n _ _) _ _ => [n]
                     | _ => []
                     end) log.

(** The images embedded, in order. *)
Definition images (log : list event) : list jsstring :=
  flat_map (fun e => match e with
                     | AddImage d _ _ _ _ => [d]
                     | _ => []
                     end) log.

(** The placeholder messages written, in order. *)
Definition placeholders (log : list event) : list text :=
  flat_map (fun e => match e with
                     | Text CouldNotRender _ _ => [CouldNotRender]
                     | Text NotAvailable _ _ => [NotAvailable]
                     | _ => []
                     end) log.

(** What the slot of a piece holds, by the state of its canvas: the
    image when the canvas is there and both [toDataURL] and [addImage]
    succeed, a placeholder message otherwise. *)
Definition slotOf (addImageAccepts : jsstring -> bool) (c : option canvas)
  : list jsstring * list text :=
  match c with
  | None => ([], [NotAvailable])
  | Some cv =>
      match toDataURL cv with
      | Some d =>
          if addImageAccepts d then ([d], []) else ([], [CouldNotRender])
      | None => ([], [CouldNotRender])
      end
  end.

(** What [addPieceToPDF] puts into the document for the piece at index
    [i]. *)
Definition documentPiece (splitTextToSize : jsstring -> Z -> list jsstring)
           (addImageAccepts : jsstring -> bool)
           (canvases : list (option canvas)) (specsArray : list item)
           (i : nat) : list event :=
  documentEvents
    (addPieceToPDF splitTextToSize addImageAccepts (canvasAt canvases i)
                   (nth_error specsArray i) i (i =? 0)%nat).

(** Every piece without a canvas has a placeholder on its page. *)
Definition missingCanvasesHavePlaceholders
           (canvases : list (option canvas)) (specsArray : list item)
           (log : list event) : Prop :=
  forall i : nat,
    (i < List.length specsArray)%nat ->
    canvasAt canvases i = None ->
    placeholders (nth i (pages log) []) = [NotAvailable].

(** The vertical extent [(top, bottom)] of each embedded image. *)
Definition imageExtents (log : list event) : list (Z * Z) :=
  flat_map (fun e => match e with
                     | AddImage _ _ y _ h => [(y, (y + h)%Z)]
                     | _ => []
                     end) log.

(** [pdf.splitTextToSize] breaks a text at its line feeds (and, which
    this splitter leaves out, where a line grows wider than the
    limit). *)
Definition splitAtLineFeeds (s : jsstring) (maxWidth : Z) : list jsstring :=
  JsString.split 10%N s.

End Document.

(** ** Sample data *)

Module Samples.

Import ExportPipeline.

(** A 24 by 4 quartz piece polished on top and bottom. *)
Definition quartz : specs :=
  {| width := 24; height := 4;
     displayWidth := Some (str "24"); displayHeight := Some (str "4");
     materialType := str "Quartz"; thickness := str "2cm";
     quantity := Some 1%Z;
     polishedEdges := Some [str "top"; str "bottom"];
     specsNotes := None |}.

Definition piece : item := Piece (str "piece") quartz None.

(** A canvas that renders to some image data. *)
Definition rendered : option canvas := Some (Canvas (Some (str "png"))).

(** Five pieces, the canvas of the third one [null]. *)
Definition fiveCanvases : list (option canvas) :=
  [rendered; rendered; None; rendered; rendered].

Definition fivePieces : list item := [piece; piece; piece; piece; piece].

(** Six short lines of notes. *)
Definition sixLines : jsstring :=
  [49; 10; 50; 10; 51; 10; 52; 10; 53; 10; 54]%N.

(** Stand-ins for the library: every image is accepted and lower-casing
    handles the ASCII capitals. *)
Definition acceptAll (imgData : jsstring) : bool := true.

Definition asciiToLowerCase (s : jsstring) : jsstring :=
  map (fun c => if ((65 <=? c) && (c <=? 90))%N then (c + 32)%N else c) s.

End Samples.

(** ** Rendering ([drawing-utils.ts], [drawing-utils.optimized.ts]) *)

Module Canvas.

Local Open Scope Q_scope.

(** A fill or stroke style: a CSS colour, or a repeating pattern made
    from a square tile. *)
Inductive paint : Type :=
| Color (css : string)
| Pattern (patternSize : Z).

(** The calls a renderer makes on a [CanvasRenderingContext2D], in
    order. *)
Inductive call : Type :=
| ClearRect (x y w h : Q)
| SetFillStyle (p : paint)
| SetStrokeStyle (p : paint)
| SetLineWidth (w : Q)
| SetFont (font : string)
| SetTextAlign (align : string)
| FillRect (x y w h : Q)
| StrokeRect (x y w h : Q)
| BeginPath
| MoveTo (x y : Q)
| LineTo (x y : Q)
| Rect (x y w h : Q)
| Fill
| Stroke
| Clip
| FillText (text : jsstring) (x y : Q)
| Save
| Restore
| Translate (x y : Q)
| RotateQuarterTurnLeft           (* rotate(-Math.PI / 2) *)
| CreatePattern (patternSize : Z).

(** The part of the drawing state that decides what [stroke()] paints:
    the stroke style, the line width, the current path (newest element
    first) and the stack of [save()]d styles. *)
Record pen : Type := Pen {
  strokeStyle : paint;
  lineWidth : Q;
  path : list call;
  saved : list (paint * Q)
}.



(** The effect of one call on the pen. *)
Definition step (p : pen) (c : call) : pen :=
  match c with
  | SetStrokeStyle s => Pen s (lineWidth p) (path p) (saved p)
  | SetLineWidth w => Pen (strokeStyle p) w (path p) (saved p)
  | BeginPath => Pen (strokeStyle p) (lineWidth p) [] (saved p)
  | MoveTo _ _ | LineTo _ _ | Rect _ _ _ _ =>
      Pen (strokeStyle p) (lineWidth p) (c :: path p) (saved p)
  | Save =>
      Pen (strokeStyle p) (lineWidth p) (path p)
          ((strokeStyle p, lineWidth p) :: saved p)
  | Restore =>
      match saved p with
      | (s, w) :: rest => Pen s w (path p) rest
      | [] => p
      end
  | _ => p
  end.







End Canvas.

Module RenderCommon.

Import JsString Canvas Stone.
Local Open Scope Q_scope.

(** The [options] argument of [drawStoneMockup]; an absent field takes
    its default. *)
Record options : Type := {
  showGrid : option bool;
  showPolishedEdges : option bool;
  useXMarks : option bool;
  scale : option Q;
  padding : option Q
}.

Definition orDefault {A : Type} (o : option A) (d : A) : A :=
  match o with Some a => a | None => d end.

(** The geometry [drawStoneMockup] computes before drawing. *)
Record layout : Type := {
  finalScale : Q;
  scaledWidth : Q;
  scaledHeight : Q;
  x : Q;
  y : Q
}.

(** "Calculate scale to fit the stone piece on the canvas" and
    "Calculate dimensions and position". *)
Definition computeLayout (canvasWidth canvasHeight : Q)
           (s : StoneSpecifications) (o : options) : layout :=
  let scale := orDefault (scale o) 1 in
  let padding := orDefault (padding o) 40 in
  let maxWidth := canvasWidth - padding * 2 in
  let maxHeight := canvasHeight - padding * 2 in
  let widthScale := maxWidth / width s in
  let heightScale := maxHeight / height s in
  let finalScale := Qmin widthScale heightScale * scale in
  let scaledWidth := width s * finalScale in
  let scaledHeight := height s * finalScale in
  {| finalScale := finalScale;
     scaledWidth := scaledWidth;
     scaledHeight := scaledHeight;
     x := (canvasWidth - scaledWidth) / 2;
     y := (canvasHeight - scaledHeight) / 2 |}.

(** [polishedEdges.includes(side)] *)
Definition includes (polishedEdges : list jsstring) (side : string) : bool :=
  existsb (fun e => if list_eq_dec N.eq_dec e (str side) then true else false)
          polishedEdges.

Definition markSize : Q := 6.
Definition spacing : Q := 20.

(** The two strokes of one X mark at offset [i] along an edge. *)
Definition xMark (horizontal : bool) (startX startY i : Q)
  : list call * list call :=
  if horizontal then
    ([ MoveTo (startX + i - markSize) (startY - markSize);
       LineTo (startX + i + markSize) (startY + markSize) ],
     [ MoveTo (startX + i - markSize) (startY + markSize);
       LineTo (startX + i + markSize) (startY - markSize) ])
  else
    ([ MoveTo (startX - markSize) (startY + i - markSize);
       LineTo (startX + markSize) (startY + i + markSize) ],
     [ MoveTo (startX - markSize) (startY + i + markSize);
       LineTo (startX + markSize) (startY + i - markSize) ]).

(** [for (let i = spacing; i < limit; i += spacing) body(i)], from the
    value [i] of the counter on. *)
Equations? forEachMark (i limit : Q) (body : Q -> list call)
  : list call by wf (Z.to_nat (Qceiling (limit - i))) lt :=
  forEachMark i limit body with Qlt_le_dec i limit => {
    | left _ := body i ++ forEachMark (i + spacing) limit body;
    | right _ := [] }.
Proof.
  pose proof (Qle_ceiling (limit - i)) as H1.
  pose proof (Qceiling_lt (limit - (i + spacing))) as H2.
  unfold spacing in *.
  assert (H3 : inject_Z 0 < inject_Z (Qceiling (limit - i)))
    by (change (inject_Z 0) with 0; lra).
  rewrite <- Zlt_Qlt in H3.
  assert (H4 : inject_Z (Qceiling (limit - (i + 20)) - 1)
               < inject_Z (Qceiling (limit - i) - 20)).
  { replace (Qceiling (limit - i) - 20)%Z
      with (Qceiling (limit - i) + -20)%Z by lia.
    rewrite inject_Z_plus. change (inject_Z (-20)) with (-20 # 1). lra. }
  rewrite <- Zlt_Qlt in H4. lia.
Qed.

(** [for (let i = start; i <= limit; i += step) body(i)].  The loop
    need not end (a step of zero); [fuel] bounds the number of tests of
    its condition and [None] means that it was used up. *)
Fixpoint forUpTo (fuel : nat) (i limit step : Q) (body : Q -> list call)
  : option (list call) :=
  match fuel with
  | O => None
  | S fuel' =>
      if Qle_bool i limit then
        match forUpTo fuel' (i + step) limit step body with
        | Some rest => Some (body i ++ rest)
        | None => None
        end
      else Some []
  end.

(** The inch mark that ends the dimension labels: the double-quote
    character. *)
Definition doubleQuote : N := 34.

(** The pattern cache [gridPatternCache]: the scales whose key
    [`grid-${scale}`] is present, with the tile size of their pattern. *)
Definition patternCache := list (Q * Z).

Definition cacheGet (cache : patternCache) (scale : Q) : option Z :=
  match find (fun e => Qeq_bool (fst e) scale) cache with
  | Some e => Some (snd e)
  | None => None
  end.

Section Host.

(** [ctx.measureText(text).width] *)
Variable measureTextWidth : jsstring -> Q.
(** [String.prototype.toUpperCase] *)
Variable toUpperCase : jsstring -> jsstring.

(** [drawDimensions], the same in both files. *)
Definition drawDimensions (x y width height actualWidth actualHeight : Q)
  : list call :=
  let widthFraction :=
    FractionMath.decimalToFraction (Fin actualWidth)
      FractionMath.defaultMaxDenominator in
  let heightFraction :=
    FractionMath.decimalToFraction (Fin actualHeight)
      FractionMath.defaultMaxDenominator in
  [ SetFillStyle (Color "black");
    SetFont "14px Arial";
    SetTextAlign "center";
    FillText (widthFraction ++ [doubleQuote])
             (x + width / 2) (y + height + 25);
    Save;
    Translate (x - 25) (y + height / 2);
    RotateQuarterTurnLeft;
    FillText (heightFraction ++ [doubleQuote]) 0 0;
    Restore ].

(** [drawMaterialInfo], the same in both files. *)
Definition drawMaterialInfo (x y width height : Q)
           (materialType thickness : jsstring) : list call :=
  let materialInfo :=
    toUpperCase (firstn 1 materialType) ++ skipn 1 materialType
      ++ str ", " ++ thickness in
  [ SetFillStyle (Color "black");
    SetFont "12px Arial";
    SetTextAlign "left";
    FillText materialInfo
             (x + width - measureTextWidth materialInfo - 5)
             (y + height - 5) ].

End Host.

End RenderCommon.

(** *** [drawing-utils.ts] *)

Module RenderEngine.

Import JsString Canvas Stone RenderCommon.
Local Open Scope Q_scope.

(** [drawGrid(ctx, x, y, width, height, scale)] *)
Definition drawGrid (fuel : nat) (x y width height scale : Q)
  : option (list call) :=
  let gridSpacing := (1 # 4) * scale in
  let majorGridSpacing := 1 * scale in
  let vertical i :=
    [BeginPath; MoveTo (x + i) y; LineTo (x + i) (y + height); Stroke] in
  let horizontal i :=
    [BeginPath; MoveTo x (y + i); LineTo (x + width) (y + i); Stroke] in
  match forUpTo fuel 0 width gridSpacing vertical,
        forUpTo fuel 0 height gridSpacing horizontal,
        forUpTo fuel 0 width majorGridSpacing vertical,
        forUpTo fuel 0 height majorGridSpacing horizontal with
  | Some minorV, Some minorH, Some majorV, Some majorH =>
      Some ([SetStrokeStyle (Color "#c0c0c0"); SetLineWidth (1 # 2)]
              ++ minorV ++ minorH
              ++ [SetStrokeStyle (Color "#808080"); SetLineWidth (4 # 5)]
              ++ majorV ++ majorH)
  | _, _, _, _ => None
  end.

(** [drawStoneRectangle(ctx, x, y, width, height)] *)
Definition drawStoneRectangle (x y width height : Q) : list call :=
  [ SetFillStyle (Color "white");
    SetStrokeStyle (Color "black");
    SetLineWidth 2;
    BeginPath;
    Rect x y width height;
    Fill;
    Stroke ].

(** [drawXMarks(ctx, startX, startY, width, height, direction)] *)
Definition drawXMarks (startX startY width height : Q) (horizontal : bool)
  : list call :=
  let mark i :=
    let (first, second) := xMark horizontal startX startY i in
    [BeginPath] ++ first ++ [Stroke] ++ [BeginPath] ++ second ++ [Stroke] in
  [SetStrokeStyle (Color "red"); SetLineWidth 2]
    ++ forEachMark spacing (if horizontal then width else height) mark.

(** One [if (polishedEdges.includes(side)) {...}] block of
    [drawPolishedEdges]. *)
Definition drawEdge (selected useXMarks : bool) (fromX fromY toX toY : Q)
           (marks : list call) : list call :=
  if selected then
    [BeginPath; MoveTo fromX fromY; LineTo toX toY; Stroke]
      ++ (if useXMarks then marks else [])
  else [].

(** [drawPolishedEdges(ctx, x, y, width, height, polishedEdges, useXMarks)] *)
Definition drawPolishedEdges (x y width height : Q)
           (polishedEdges : list jsstring) (useXMarks : bool) : list call :=
  [SetStrokeStyle (Color "red"); SetLineWidth 4]
    ++ drawEdge (includes polishedEdges "top") useXMarks
         x y (x + width) y
         (drawXMarks x y width 0 true)
    ++ drawEdge (includes polishedEdges "bottom") useXMarks
         x (y + height) (x + width) (y + height)
         (drawXMarks x (y + height) width 0 true)
    ++ drawEdge (includes polishedEdges "left") useXMarks
         x y x (y + height)
         (drawXMarks x y 0 height false)
    ++ drawEdge (includes polishedEdges "right") useXMarks
         (x + width) y (x + width) (y + height)
         (drawXMarks (x + width) y 0 height false).

Section Host.

Variable measureTextWidth : jsstring -> Q.
Variable toUpperCase : jsstring -> jsstring.

(** [drawStoneMockup(ctx, specs, options)] on a canvas of the given
    size. *)
Definition drawStoneMockup (fuel : nat) (canvasWidth canvasHeight : Q)
           (s : StoneSpecifications) (o : options) : option (list call) :=
  let showGrid := orDefault (showGrid o) true in
  let showPolishedEdges := orDefault (showPolishedEdges o) true in
  let useXMarks := orDefault (useXMarks o) true in
  let l := computeLayout canvasWidth canvasHeight s o in
  let finalScale := finalScale l in
  let scaledWidth := scaledWidth l in
  let scaledHeight := scaledHeight l in
  let x := x l in
  let y := y l in
  match (if showGrid
         then drawGrid fuel x y scaledWidth scaledHeight finalScale
         else Some []) with
  | None => None
  | Some grid =>
      Some ([ ClearRect 0 0 canvasWidth canvasHeight;
              SetFillStyle (Color "#f5f5f5");
              FillRect 0 0 canvasWidth canvasHeight ]
              ++ grid
              ++ drawStoneRectangle x y scaledWidth scaledHeight
              ++ (if showPolishedEdges
                  then drawPolishedEdges x y scaledWidth scaledHeight
                                         (polishedEdges s) useXMarks
                  else [])
              ++ drawDimensions x y scaledWidth scaledHeight
                                (width s) (height s)
              ++ drawMaterialInfo measureTextWidth toUpperCase
                   x y scaledWidth scaledHeight
                   (materialType s) (thickness s))
  end.

End Host.

End RenderEngine.

(** *** [drawing-utils.optimized.ts] *)

Module RenderEngineOptimized.

Import JsString Canvas Stone RenderCommon.
Local Open Scope Q_scope.

(** [drawStoneRectangle(ctx, x, y, width, height)] *)
Definition drawStoneRectangle (x y width height : Q) : list call :=
  [ SetFillStyle (Color "white");
    FillRect x y width height;
    SetStrokeStyle (Color "black");
    SetLineWidth 2;
    StrokeRect x y width height ].

(** [drawXMarksOptimized(ctx, startX, startY, width, height, direction)] *)
Definition drawXMarksOptimized (startX startY width height : Q)
           (horizontal : bool) : list call :=
  let mark i :=
    let (first, second) := xMark horizontal startX startY i in
    first ++ second in
  [SetStrokeStyle (Color "red"); SetLineWidth 2; BeginPath]
    ++ forEachMark spacing (if horizontal then width else height) mark
    ++ [Stroke].

(** [drawPolishedEdgesOptimized(ctx, x, y, width, height, polishedEdges,
    useXMarks)] *)
Definition drawPolishedEdgesOptimized (x y width height : Q)
           (polishedEdges : list jsstring) (useXMarks : bool) : list call :=
  match polishedEdges with
  | [] => []
  | _ =>
      let top := includes polishedEdges "top" in
      let bottom := includes polishedEdges "bottom" in
      let left := includes polishedEdges "left" in
      let right := includes polishedEdges "right" in
      [SetStrokeStyle (Color "red"); SetLineWidth 4; BeginPath]
        ++ (if top then [MoveTo x y; LineTo (x + width) y] else [])
        ++ (if bottom
            then [MoveTo x (y + height); LineTo (x + width) (y + height)]
            else [])
        ++ (if left then [MoveTo x y; LineTo x (y + height)] else [])
        ++ (if right
            then [MoveTo (x + width) y; LineTo (x + width) (y + height)]
            else [])
        ++ [Stroke]
        ++ (if useXMarks then
              [SetLineWidth 2]
                ++ (if top then drawXMarksOptimized x y width 0 true
                    else [])
                ++ (if bottom
                    then drawXMarksOptimized x (y + height) width 0 true
                    else [])
                ++ (if left then drawXMarksOptimized x y 0 height false
                    else [])
                ++ (if right
                    then drawXMarksOptimized (x + width) y 0 height false
                    else [])
            else [])
  end.

Section Host.

Variable measureTextWidth : jsstring -> Q.
Variable toUpperCase : jsstring -> jsstring.
Variable patternContext : bool.
Variable createPatternOk : Z -> bool.

(** [getGridPattern(ctx, scale)]: the pattern or [null], the calls
    made on [ctx], and the cache afterwards. *)
Definition getGridPattern (cache : patternCache) (scale : Q)
  : option paint * list call * patternCache :=
  match cacheGet cache scale with
  | Some size => (Some (Pattern size), [], cache)
  | None =>
      let patternSize := JsNumber.round scale in
      if patternContext then
        if createPatternOk patternSize then
          (Some (Pattern patternSize), [CreatePattern patternSize],
           (scale, patternSize) :: cache)
        else (None, [CreatePattern patternSize], cache)
      else (None, [], cache)
  end.

(** [drawGridOptimized(ctx, x, y, width, height, scale)].  With a
    zero [majorGridSpacing] the loop bounds are [NaN] and no major
    line is drawn. *)
Definition drawGridOptimized (fuel : nat) (cache : patternCache)
           (x y width height scale : Q)
  : option (list call) * patternCache :=
  let '(minorGridPattern, patternCalls, cache') :=
    getGridPattern cache (scale * (1 # 4)) in
  let majorGridSpacing := 1 * scale in
  let startX := inject_Z (JsNumber.floor (x / majorGridSpacing))
                * majorGridSpacing in
  let endX := inject_Z (Qceiling ((x + width) / majorGridSpacing))
              * majorGridSpacing in
  let startY := inject_Z (JsNumber.floor (y / majorGridSpacing))
                * majorGridSpacing in
  let endY := inject_Z (Qceiling ((y + height) / majorGridSpacing))
              * majorGridSpacing in
  let vertical i :=
    if Qle_bool x i && Qle_bool i (x + width)
    then [MoveTo i y; LineTo i (y + height)] else [] in
  let horizontal i :=
    if Qle_bool y i && Qle_bool i (y + height)
    then [MoveTo x i; LineTo (x + width) i] else [] in
  let lines :=
    if JsNumber.isZero majorGridSpacing then Some ([], [])
    else
      match forUpTo fuel startX endX majorGridSpacing vertical,
            forUpTo fuel startY endY majorGridSpacing horizontal with
      | Some v, Some h => Some (v, h)
      | _, _ => None
      end in
  (match lines with
   | None => None
   | Some (v, h) =>
       Some ([Save; BeginPath; Rect x y width height; Clip]
               ++ patternCalls
               ++ match minorGridPattern with
                  | Some p => [SetFillStyle p; FillRect x y width height]
                  | None => []
                  end
               ++ [SetStrokeStyle (Color "#808080"); SetLineWidth (4 # 5);
                   BeginPath]
               ++ v ++ h
               ++ [Stroke; Restore])
   end, cache').

(** [drawStoneMockup(ctx, specs, options)] on a canvas of the given
    size, with the module's pattern cache before and after. *)
Definition drawStoneMockup (fuel : nat) (cache : patternCache)
           (canvasWidth canvasHeight : Q)
           (s : StoneSpecifications) (o : options)
  : option (list call) * patternCache :=
  let showGrid := orDefault (showGrid o) true in
  let showPolishedEdges := orDefault (showPolishedEdges o) true in
  let useXMarks := orDefault (useXMarks o) true in
  let l := computeLayout canvasWidth canvasHeight s o in
  let finalScale := finalScale l in
  let scaledWidth := scaledWidth l in
  let scaledHeight := scaledHeight l in
  let x := x l in
  let y := y l in
  let (grid, cache') :=
    if showGrid
    then drawGridOptimized fuel cache x y scaledWidth scaledHeight finalScale
    else (Some [], cache) in
  (match grid with
   | None => None
   | Some grid =>
       Some ([ SetFillStyle (Color "#f5f5f5");
               FillRect 0 0 canvasWidth canvasHeight ]
               ++ grid
               ++ drawStoneRectangle x y scaledWidth scaledHeight
               ++ (if showPolishedEdges
                   then drawPolishedEdgesOptimized
                          x y scaledWidth scaledHeight
                          (polishedEdges s) useXMarks
                   else [])
               ++ drawDimensions x y scaledWidth scaledHeight
                                 (width s) (height s)
               ++ drawMaterialInfo measureTextWidth toUpperCase
                    x y scaledWidth scaledHeight
                    (materialType s) (thickness s))
   end, cache').

End Host.

End RenderEngineOptimized.

(** ** Reading a rendering *)

Module Rendering.

Import Canvas Stone RenderCommon.
Local Open Scope Q_scope.


(** The sides among the four that [polishedEdges] names, in drawing
    order. *)
Definition selectedSides (polishedEdges : list jsstring) : list string :=
  filter (includes polishedEdges) ["top"; "bottom"; "left"; "right"]%string.








End Rendering.

(** ** Sample renderings *)

Module RenderSamples.

Import Stone RenderCommon.
Local Open Scope Q_scope.

(** A 24 by 4 slab with all four edges polished. *)
Definition slab : StoneSpecifications :=
  {| width := 24; height := 4;
     polishedEdges := [str "top"; str "bottom"; str "left"; str "right"];
     materialType := str "quartz"; thickness := str "2cm";
     quantity := 1%Z |}.

(** No option set: every default applies. *)
Definition defaults : options :=
  {| showGrid := None; showPolishedEdges := None; useXMarks := None;
     scale := None; padding := None |}.


(** Stand-ins for the host: text seven units wide per character, and
    upper-casing of the ASCII letters. *)
Definition textWidth (text : jsstring) : Q :=
  inject_Z (7 * Z.of_nat (List.length text)).

Definition asciiToUpperCase (s : jsstring) : jsstring :=
  map (fun c => if ((97 <=? c) && (c <=? 122))%N then (c - 32)%N else c) s.

(** What a renderer returned, or nothing. *)
Definition returned (r : option (list Canvas.call)) : list Canvas.call :=
  match r with Some calls => calls | None => [] end.

(** The slab rendered by [drawing-utils.ts] on the 800 by 600 canvas. *)
Definition slabOriginal : option (list Canvas.call) :=
  RenderEngine.drawStoneMockup textWidth asciiToUpperCase 2000
    800 600 slab defaults.

(** The slab rendered by [drawing-utils.optimized.ts], with an empty
    pattern cache. *)
Definition slabOptimized : option (list Canvas.call) :=
  fst (RenderEngineOptimized.drawStoneMockup textWidth asciiToUpperCase
         true (fun _ => true) 2000 [] 800 600 slab defaults).

End RenderSamples.

(** ** The components that call the library *)

(** *** [DimensionsInput.tsx] *)

Module DimensionsInput.

Import FractionMath.

(** The four [useState] cells of the component. *)
Record state : Type := {
  widthStr : jsstring;
  heightStr : jsstring;
  widthIsValid : bool;
  heightIsValid : bool
}.


(** The state the component starts with: [useState(decimalToFraction(width))]
    and so on. *)
Definition initialState (width height : number) : state :=
  {| widthStr := decimalToFraction width defaultMaxDenominator;
     heightStr := decimalToFraction height defaultMaxDenominator;
     widthIsValid := true;
     heightIsValid := true |}.





End DimensionsInput.

(** *** [PolishedEdgesInput.tsx] *)

Module PolishedEdgesInput.

Import RenderCommon.

(** [e !== edge] *)
Definition differs (edge : string) (e : jsstring) : bool :=
  if list_eq_dec N.eq_dec e (str edge) then false else true.

(** [toggleEdge(edge)]: the list handed to [onPolishedEdgesChange]. *)
Definition toggleEdge (polishedEdges : list jsstring) (edge : string)
  : list jsstring :=
  if includes polishedEdges edge then filter (differs edge) polishedEdges
  else polishedEdges ++ [str edge].

End PolishedEdgesInput.

(** *** [useLocalStorage.ts] *)

Module LocalStorage.

(** [window.localStorage]: the stored keys with their values. *)
Definition storage := list (string * string).

(** [localStorage.getItem(key)] *)
Definition getItem (st : storage) (key : string) : option string :=
  match find (fun kv => String.eqb (fst kv) key) st with
  | Some kv => Some (snd kv)
  | None => None
  end.

(** [localStorage.removeItem(key)] *)
Definition removeItem (st : storage) (key : string) : storage :=
  filter (fun kv => negb (String.eqb (fst kv) key)) st.

Definition keysToRemove : list string :=
  [ "stone-mockup-generator:savedPieces";
    "stone-mockup-generator:currentSpecs";
    "stone-mockup-generator:currentNotes";
    "stone-mockup-generator:displayOptions" ]%string.

(** The key under which [MultiPieceExport] keeps the project name. *)
Definition projectNameKey : string := "stone-mockup-generator:projectName".

(** [clearAllStoredData()]: what it returns and the storage afterwards.
    Where the storage cannot be reached the first [removeItem] throws
    and the function returns [false]. *)
Definition clearAllStoredData (accessible : bool) (st : storage)
  : bool * storage :=
  if accessible then (true, fold_left removeItem keysToRemove st)
  else (false, st).

End LocalStorage.

(** *** [MultiPieceExport.tsx] *)

Module MultiPieceExport.

Import ExportPipeline Stone.

(** The messages of the toasts. *)
Inductive message : Type :=
| PleaseSave            (* 'Please save at least one piece before exporting' *)
| ExportedSuccessfully  (* 'PDF exported successfully' *)
| ErrorExporting (errorMessage : string).
                        (* 'Error exporting to PDF: ' + error.message *)

Inductive toastType : Type := success | error | warning.

(** What [handleExportPDF] does, in order: its state updates, the
    canvases it renders, and what the export it awaits does. *)
Inductive action : Type :=
| SetToast (m : message) (type : toastType)
| SetIsExporting (b : bool)
| SetExportProgress (percent : Z)
| RenderCanvas (index : nat)
| Exporting (e : event)
| LogError
| SetProgressTimer (ms : Z).

(** A saved piece as the element of [specsArray] it is passed as. *)
Definition specsOfPiece (s : StoneSpecifications) : ExportPipeline.specs :=
  {| ExportPipeline.width := Stone.width s;
     ExportPipeline.height := Stone.height s;
     ExportPipeline.displayWidth := None;
     ExportPipeline.displayHeight := None;
     ExportPipeline.materialType := Stone.materialType s;
     ExportPipeline.thickness := Stone.thickness s;
     ExportPipeline.quantity := Some (Stone.quantity s);
     ExportPipeline.polishedEdges := Some (Stone.polishedEdges s);
     ExportPipeline.specsNotes := None |}.

Definition itemOfPiece (p : StonePiece) : item :=
  Piece (id p) (specsOfPiece (Stone.specs p)) (Some (notes p)).

(** [canvasRefs.current.filter(canvas => canvas !== null)] *)
Definition validCanvases (canvasRefs : list (option canvas))
  : list (option canvas) :=
  filter (fun c => match c with Some _ => true | None => false end)
         canvasRefs.

Section Host.

Variable splitTextToSize : jsstring -> Z -> list jsstring.
Variable addImageAccepts : jsstring -> bool.
Variable toLowerCase : jsstring -> jsstring.
Variable isIOS : bool.
(** [Math.floor((renderedCount / savedPieces.length) * 50)] *)
Variable renderProgress : nat -> nat -> Z.

(** The loop that renders the canvases before the export. *)
Definition renderAll (canvasRefs : list (option canvas)) (pieces : nat)
  : list action :=
  flat_map (fun i =>
              match canvasAt canvasRefs i with
              | Some _ => [RenderCanvas i]
              | None => []
              end ++ [SetExportProgress (renderProgress (i + 1) pieces)])
           (seq 0 pieces).

(** [handleExportPDF()], with [isMobile] what [isMobileDevice()]
    returns. *)
Definition handleExportPDF (canvasRefs : list (option canvas))
           (savedPieces : list StonePiece) (projectName : jsstring)
           (isMobile : bool) : list action :=
  match savedPieces with
  | [] => [SetToast PleaseSave warning]
  | _ =>
      let (result, log) :=
        exportMultipleToPDF splitTextToSize addImageAccepts toLowerCase
          isIOS (validCanvases canvasRefs) (map itemOfPiece savedPieces)
          projectName isMobile in
      [SetIsExporting true; SetExportProgress 0]
        ++ renderAll canvasRefs (List.length savedPieces)
        ++ [SetExportProgress 50]
        ++ map Exporting log
        ++ match result with
           | Resolved =>
               [SetExportProgress 100; SetToast ExportedSuccessfully success]
           | Rejected errorMessage =>
               [LogError; SetToast (ErrorExporting errorMessage) error]
           end
        ++ [SetIsExporting false; SetProgressTimer 1000; SetExportProgress 0]
  end.

End Host.

(** The events of the export among the actions. *)
Definition exportLog (actions : list action) : list event :=
  flat_map (fun a => match a with Exporting e => [e] | _ => [] end) actions.

(** The toasts shown. *)
Definition toasts (actions : list action) : list (message * toastType) :=
  flat_map (fun a => match a with SetToast m t => [(m, t)] | _ => [] end)
           actions.

End MultiPieceExport.

(** ** More ways to read an export's event log *)

Module Delivery.

Import ExportPipeline.

(** The calls that hand the finished document to the user. *)
Definition isDelivery (e : event) : bool :=
  match e with
  | Save _ | Output | CreateIframe | AppendIframe | SetIframeSrc
  | WindowOpen | RemoveIframe => true
  | _ => false
  end.

(** The file names passed to [pdf.save]. *)
Definition saves (log : list event) : list filename :=
  flat_map (fun e => match e with Save f => [f] | _ => [] end) log.

(** The piece counts written by the project header. *)
Definition totalPiecesReported (log : list event) : list nat :=
  flat_map (fun e => match e with
                     | Text (TotalPieces n) _ _ => [n]
                     | _ => []
                     end) log.


(** The number of [console.error] calls. *)
Definition errorsLogged (log : list event) : nat :=
  List.length (filter (fun e => match e with ConsoleError => true
                                           | _ => false end) log).

End Delivery.

(** ** More ways to read a rendering *)

Module RenderReading.

Import Canvas RenderCommon.
Local Open Scope Q_scope.

(** A path-building call whose point lies in the rectangle; other
    calls pass. *)
Definition insideRect (x y width height : Q) (c : call) : Prop :=
  match c with
  | MoveTo a b | LineTo a b =>
      x <= a /\ a <= x + width /\ y <= b /\ b <= y + height
  | _ => True
  end.



(** Calls that neither push nor pop the stack of saved states. *)
Definition leavesStack (c : call) : bool :=
  match c with
  | Save | Restore => false
  | _ => true
  end.





End RenderReading.

(** ** More samples *)

Module PieceSamples.

Import JsString Stone.

(** A saved piece: the slab of the sample renderings, with a note. *)
Definition island : StonePiece :=
  {| id := str "piece-1";
     specs := RenderSamples.slab;
     notes := str "Island top" |}.

(** Stand-in for the progress shown while the canvases render: the
    floor of [rendered / pieces * 50], computed exactly. *)
Definition halfProgress (rendered pieces : nat) : Z :=
  (Z.of_nat rendered * 50 / Z.of_nat pieces)%Z.

End PieceSamples.
(** * Properties *)

(** ** Splitting lists *)

Section SplitOn.

Context {A : Type} (sep : A -> bool).

Lemma splitOn_nonempty (l : list A) : splitOn sep l <> [].
Proof.
  destruct l as [|x l]; simpl; [discriminate|].
  destruct (sep x); [discriminate|].
  destruct (splitOn sep l); discriminate.
Qed.

(** A list without separators is one segment. *)
Lemma splitOn_none (l : list A) :
  forallb (fun x => negb (sep x)) l = true -> splitOn sep l = [l].
Proof.
  induction l as [|x l IH]; simpl; intros H; [reflexivity|].
  apply andb_true_iff in H. destruct H as [Hx Hl].
  apply negb_true_iff in Hx. rewrite Hx, (IH Hl). reflexivity.
Qed.


(** Splitting distributes over a separator. *)
Lemma splitOn_sep (a b : list A) (s : A) :
  sep s = true ->
  splitOn sep (a ++ s :: b) = splitOn sep a ++ splitOn sep b.
Proof.
  intros Hs. induction a as [|x a IH]; simpl.
  - rewrite Hs. reflexivity.
  - destruct (sep x); [rewrite IH; reflexivity|].
    rewrite IH. pose proof (splitOn_nonempty a).
    destruct (splitOn sep a); [congruence | reflexivity].
Qed.

Lemma splitOn_length (l : list A) :
  List.length (splitOn sep l) = S (List.length (filter sep l)).
Proof.
  induction l as [|x l IH]; simpl; [reflexivity|].
  destruct (sep x); simpl; [rewrite IH; reflexivity|].
  pose proof (splitOn_nonempty l).
  destruct (splitOn sep l); [congruence|]. exact IH.
Qed.

End SplitOn.
(** ** Strings and digits *)

Module JsStringFacts.

Import JsString.
Local Open Scope N_scope.

Lemma uintOfDigits_digitsOfUint (u : Decimal.uint) :
  uintOfDigits (digitsOfUint u) = Some u.
Proof.
  induction u; simpl; try rewrite IHu; reflexivity.
Qed.

Lemma digitsOfUint_digits (u : Decimal.uint) :
  forallb isDigit (digitsOfUint u) = true.
Proof.
  induction u; simpl; auto.
Qed.

Lemma digitsOfUint_to_uint_nonempty (n : N) :
  isEmpty (digitsOfUint (N.to_uint n)) = false.
Proof.
  destruct n as [|p]; [reflexivity|].
  simpl. pose proof (DecimalPos.Unsigned.to_uint_nonnil p) as H.
  destruct (Pos.to_uint p); try reflexivity. congruence.
Qed.

Lemma isDigit_not_space (c : N) : isDigit c = true -> isWhiteSpace c = false.
Proof.
  unfold isDigit, isWhiteSpace. intros H.
  apply andb_true_iff in H. destruct H as [H1 H2].
  apply N.leb_le in H1. apply N.leb_le in H2.
  repeat match goal with
         | |- context [?a =? ?b] =>
             replace (a =? b) with false by (symmetry; apply N.eqb_neq; lia)
         end.
  replace (8192 <=? c) with false by (symmetry; apply N.leb_gt; lia).
  reflexivity.
Qed.

End JsStringFacts.

(** ** FractionMath *)

Module FractionFacts.

Import JsString FractionMath FractionSpec JsStringFacts.
Local Open Scope Z_scope.

Lemma findGCDLoop_gcd (a b : Z) :
  0 <= a -> 0 <= b -> findGCDLoop a b = Z.gcd a b.
Proof.
  funelim (findGCDLoop a b); intros Ha Hb.
  - subst. rewrite Z.gcd_0_r. lia.
  - rewrite H.
    + rewrite Z.rem_mod_nonneg by lia.
      rewrite Z.gcd_comm, Z.gcd_mod by lia. apply Z.gcd_comm.
    + lia.
    + apply Z.rem_nonneg; lia.
Qed.

Lemma findGCD_gcd (a b : Z) : findGCD a b = Z.gcd a b.
Proof.
  unfold findGCD. rewrite findGCDLoop_gcd by lia.
  rewrite Z.gcd_abs_l, Z.gcd_abs_r. reflexivity.
Qed.

Local Open Scope Q_scope.

Lemma round_bounds (x : Q) :
  inject_Z (JsNumber.round x) - (1#2) <= x /\ x < inject_Z (JsNumber.round x) + (1#2).
Proof.
  unfold JsNumber.round.
  pose proof (Qfloor_le (x + (1#2))) as H1.
  pose proof (Qlt_floor (x + (1#2))) as H2.
  rewrite inject_Z_plus in H2. change (inject_Z 1) with 1 in H2.
  split; lra.
Qed.

Lemma round_error (x : Q) (den : Z) :
  (0 < den)%Z ->
  Qabs (x - inject_Z (JsNumber.round (x * inject_Z den)) / inject_Z den)
    <= 1 / (2 * inject_Z den).
Proof.
  intros Hden.
  assert (Hd : 0 < inject_Z den) by (rewrite <- (Zlt_Qlt 0); exact Hden).
  destruct (round_bounds (x * inject_Z den)) as [H1 H2].
  set (r := inject_Z (JsNumber.round (x * inject_Z den))) in *.
  apply Qabs_Qle_condition. split.
  - apply Qle_minus_iff.
    setoid_replace (x - r / inject_Z den + - - (1 / (2 * inject_Z den)))
      with ((x * inject_Z den - (r - (1#2))) / inject_Z den) by (field; lra).
    apply Qle_shift_div_l; lra.
  - apply Qle_minus_iff.
    setoid_replace (1 / (2 * inject_Z den) + - (x - r / inject_Z den))
      with ((r + (1#2) - x * inject_Z den) / inject_Z den) by (field; lra).
    apply Qle_shift_div_l; lra.
Qed.

Lemma round_nonneg (x : Q) : 0 <= x -> (0 <= JsNumber.round x)%Z.
Proof.
  intros Hx. unfold JsNumber.round.
  change 0%Z with (Qfloor 0). apply Qfloor_resp_le. lra.
Qed.

Lemma search_S (frac : Q) (steps : nat) (den : Z) (b : best) :
  search frac (S steps) den b =
  if Qlt_le_dec (errorAt frac den) (bestError b) then
    let b' := Best (JsNumber.round (frac * inject_Z den)) den (errorAt frac den) in
    if Qlt_le_dec (errorAt frac den) exactThreshold then b'
    else search frac steps (den + 1)%Z b'
  else search frac steps (den + 1)%Z b.
Proof. reflexivity. Qed.

Lemma search_good (frac : Q) (steps : nat) :
  0 <= frac ->
  forall (den : Z) (b : best),
    (1 <= den)%Z -> good frac b -> good frac (search frac steps den b).
Proof.
  intros Hfrac. induction steps as [|steps IH]; intros den b Hden Hb.
  - exact Hb.
  - rewrite search_S.
    assert (Hnew : good frac (Best (JsNumber.round (frac * inject_Z den)) den
                                   (errorAt frac den))).
    { repeat split; cbn [bestNumerator bestDenominator bestError];
        try lia; try reflexivity.
      apply round_nonneg. apply Qmult_le_0_compat; [exact Hfrac|].
      rewrite <- (Zle_Qle 0). lia. }
    destruct (Qlt_le_dec _ (bestError b)).
    + cbv zeta. destruct (Qlt_le_dec _ exactThreshold).
      * exact Hnew.
      * apply IH; [lia | exact Hnew].
    + apply IH; [lia | exact Hb].
Qed.

Lemma search_error (frac : Q) (steps : nat) :
  forall (den : Z) (b : best),
    bestError (search frac (S steps) den b) <= exactThreshold \/
    bestError (search frac (S steps) den b) <= errorAt frac (den + Z.of_nat steps).
Proof.
  induction steps as [|steps IH]; intros den b; rewrite search_S; cbv zeta.
  - rewrite Z.add_0_r. cbn [search].
    destruct (Qlt_le_dec (errorAt frac den) (bestError b)).
    + destruct (Qlt_le_dec (errorAt frac den) exactThreshold);
        right; apply Qle_refl.
    + right. assumption.
  - replace (den + Z.of_nat (S steps))%Z with (den + 1 + Z.of_nat steps)%Z by lia.
    destruct (Qlt_le_dec (errorAt frac den) (bestError b)).
    + destruct (Qlt_le_dec (errorAt frac den) exactThreshold).
      * left. apply Qlt_le_weak. assumption.
      * apply IH.
    + apply IH.
Qed.

Section Digits.
Local Open Scope N_scope.

Lemma ofInt_digitString (z : Z) : (0 <= z)%Z -> digitString (ofInt z).
Proof.
  intros Hz. unfold ofInt. 
  destruct (Z.ltb_spec z 0); [lia|].
  split.
  - apply JsStringFacts.digitsOfUint_to_uint_nonempty.
  - apply JsStringFacts.digitsOfUint_digits.
Qed.

Lemma ofDigits_ofInt (z : Z) :
  (0 <= z)%Z -> JsNumber.ofDigits (ofInt z) = Fin (inject_Z z).
Proof.
  intros Hz. unfold JsNumber.ofDigits, ofInt.
  destruct (Z.ltb_spec z 0); [lia|].
  rewrite JsStringFacts.uintOfDigits_digitsOfUint.
  rewrite DecimalN.Unsigned.of_to. rewrite Z2N.id by lia. reflexivity.
Qed.

Lemma testWhole_digitString (s : jsstring) : digitString s -> testWhole s = true.
Proof.
  intros [H1 H2]. unfold testWhole. rewrite H1, H2. reflexivity.
Qed.

Lemma spanDigits_app (ds : jsstring) (c : N) (r : jsstring) :
  forallb isDigit ds = true -> isDigit c = false ->
  spanDigits (ds ++ c :: r) = (ds, c :: r).
Proof.
  intros Hds Hc. induction ds as [|x ds IH]; simpl.
  - rewrite Hc. reflexivity.
  - simpl in Hds. apply andb_true_iff in Hds. destruct Hds as [Hx Hds].
    rewrite Hx, (IH Hds). reflexivity.
Qed.

Lemma testWhole_app_nondigit (ds : jsstring) (c : N) (r : jsstring) :
  isDigit c = false -> testWhole (ds ++ c :: r) = false.
Proof.
  intros Hc. unfold testWhole. rewrite forallb_app. simpl. rewrite Hc.
  rewrite andb_false_r. apply andb_false_r.
Qed.

Lemma split_no_sep (sep : N) (s : jsstring) :
  forallb (fun c => negb (c =? sep)) s = true -> split sep s = [s].
Proof. apply splitOn_none. Qed.

Lemma split_app (sep : N) (a b : jsstring) :
  forallb (fun c => negb (c =? sep)) a = true ->
  split sep (a ++ sep :: b) = a :: split sep b.
Proof.
  intros H. unfold split.
  rewrite splitOn_sep by apply N.eqb_refl.
  rewrite splitOn_none by exact H. reflexivity.
Qed.

Lemma digits_no_sep (sep : N) (s : jsstring) :
  isDigit sep = false -> forallb isDigit s = true ->
  forallb (fun c => negb (c =? sep)) s = true.
Proof.
  intros Hsep Hs. apply forallb_forall. intros c Hc.
  rewrite forallb_forall in Hs. specialize (Hs c Hc).
  apply negb_true_iff, N.eqb_neq. intros ->. congruence.
Qed.

Lemma trimStart_id (s : jsstring) :
  forallb (fun c => negb (isWhiteSpace c)) s = true -> trimStart s = s.
Proof.
  destruct s as [|c s]; simpl; [reflexivity|].
  intros H. apply andb_true_iff in H. destruct H as [Hc _].
  apply negb_true_iff in Hc. rewrite Hc. reflexivity.
Qed.

Lemma clean_id (s : jsstring) :
  forallb (fun c => negb (isWhiteSpace c)) s = true ->
  removeWhiteSpace (trim s) = s.
Proof.
  intros H. unfold trim. rewrite (trimStart_id s H).
  rewrite trimStart_id, rev_involutive.
  - unfold removeWhiteSpace. apply forallb_filter_id. exact H.
  - apply forallb_forall. intros c Hc. apply in_rev in Hc.
    rewrite forallb_forall in H. apply H. exact Hc.
Qed.

Lemma digits_no_space (s : jsstring) :
  forallb isDigit s = true -> forallb (fun c => negb (isWhiteSpace c)) s = true.
Proof.
  intros H. apply forallb_forall. intros c Hc.
  rewrite forallb_forall in H.
  rewrite JsStringFacts.isDigit_not_space; [reflexivity | auto].
Qed.
End Digits.

Lemma parse_whole (w : Z) :
  (0 <= w)%Z -> fractionToDecimal (ofInt w) = Some (Fin (inject_Z w)).
Proof.
  intros Hw. destruct (ofInt_digitString w Hw) as [Hne Hds].
  unfold fractionToDecimal.
  rewrite clean_id by (apply digits_no_space; exact Hds).
  rewrite Hne, testWhole_digitString by (split; assumption).
  rewrite ofDigits_ofInt by exact Hw. reflexivity.
Qed.

Lemma eqZero_pos (d : Z) : (1 <= d)%Z -> JsNumber.isZero (inject_Z d) = false.
Proof.
  intros Hd. unfold JsNumber.isZero.
  destruct (Qeq_bool (inject_Z d) 0) eqn:E; [|reflexivity].
  apply Qeq_bool_eq in E. unfold Qeq in E. simpl in E. lia.
Qed.

Lemma nonempty_app (a b : jsstring) : isEmpty a = false -> isEmpty (a ++ b) = false.
Proof. destruct a; [discriminate | reflexivity]. Qed.

Lemma testSimple_shape (n d : jsstring) :
  digitString n -> digitString d -> testSimple (n ++ slash :: d) = true.
Proof.
  intros [Hn1 Hn2] Hd. unfold testSimple.
  rewrite spanDigits_app by (auto; reflexivity).
  destruct n; [discriminate|].
  rewrite N.eqb_refl, testWhole_digitString by exact Hd. reflexivity.
Qed.

Lemma parse_simple (n d : Z) :
  (0 <= n)%Z -> (1 <= d)%Z ->
  fractionToDecimal (ofInt n ++ [slash] ++ ofInt d)
  = Some (Fin (inject_Z n / inject_Z d)).
Proof.
  intros Hn Hd.
  assert (HDn := ofInt_digitString n Hn).
  assert (HDd := ofInt_digitString d ltac:(lia)).
  pose proof HDn as [Hn1 Hn2]. pose proof HDd as [Hd1 Hd2].
  unfold fractionToDecimal. cbn [app].
  rewrite clean_id.
  2:{ rewrite forallb_app. cbn [forallb].
      rewrite !digits_no_space by assumption. reflexivity. }
  rewrite nonempty_app by exact Hn1.
  rewrite testWhole_app_nondigit by reflexivity.
  rewrite testSimple_shape by assumption.
  rewrite split_app by (apply digits_no_sep; [reflexivity | assumption]).
  rewrite split_no_sep by (apply digits_no_sep; [reflexivity | assumption]).
  cbn [map]. rewrite !ofDigits_ofInt by lia.
  cbn [JsNumber.eqZero JsNumber.div]. rewrite eqZero_pos by exact Hd.
  reflexivity.
Qed.

Lemma parse_mixed (w n d : Z) :
  (0 <= w)%Z -> (0 <= n)%Z -> (1 <= d)%Z ->
  fractionToDecimal (ofInt w ++ [hyphen] ++ ofInt n ++ [slash] ++ ofInt d)
  = Some (Fin (inject_Z w + inject_Z n / inject_Z d)).
Proof.
  intros Hw Hn Hd.
  assert (HDw := ofInt_digitString w Hw).
  assert (HDn := ofInt_digitString n Hn).
  assert (HDd := ofInt_digitString d ltac:(lia)).
  pose proof HDw as [Hw1 Hw2].
  pose proof HDn as [Hn1 Hn2]. pose proof HDd as [Hd1 Hd2].
  unfold fractionToDecimal. cbn [app].
  rewrite clean_id.
  2:{ rewrite forallb_app. cbn [forallb]. rewrite forallb_app. cbn [forallb].
      rewrite !digits_no_space by assumption. reflexivity. }
  rewrite nonempty_app by exact Hw1.
  rewrite testWhole_app_nondigit by reflexivity.
  unfold testSimple at 1, testMixed.
  rewrite spanDigits_app by (auto; reflexivity).
  destruct (ofInt w) as [|c0 w0] eqn:Ew; [discriminate|].
  change (hyphen =? slash)%N with false. cbn [andb].
  rewrite N.eqb_refl, testSimple_shape by assumption. cbn [andb].
  rewrite split_app by (apply digits_no_sep; [reflexivity | assumption]).
  rewrite split_no_sep.
  2:{ rewrite forallb_app. cbn [forallb].
      rewrite !(digits_no_sep hyphen) by (auto; reflexivity). reflexivity. }
  rewrite split_app by (apply digits_no_sep; [reflexivity | assumption]).
  rewrite split_no_sep by (apply digits_no_sep; [reflexivity | assumption]).
  cbn [map]. rewrite <- Ew. rewrite !ofDigits_ofInt by lia.
  cbn [JsNumber.eqZero JsNumber.div JsNumber.add]. rewrite eqZero_pos by exact Hd.
  reflexivity.
Qed.

Lemma Qabs_nonneg_eq (d : Q) : 0 <= d -> Qabs d = d.
Proof.
  destruct d as [n p]. unfold Qle. simpl. intros H.
  rewrite Z.abs_eq by lia. reflexivity.
Qed.

Lemma reduce_fraction (num den : Z) :
  (0 <= num)%Z -> (1 <= den)%Z ->
  let g := findGCD num den in
  (0 <= num / g)%Z /\ (1 <= den / g)%Z /\
  inject_Z (num / g) / inject_Z (den / g) == inject_Z num / inject_Z den.
Proof.
  intros Hnum Hden g. subst g. rewrite findGCD_gcd.
  set (g := Z.gcd num den).
  assert (Hg : (0 < g)%Z).
  { pose proof (Z.gcd_nonneg num den).
    assert (g <> 0)%Z by (unfold g; intros E; apply Z.gcd_eq_0_r in E; lia).
    unfold g in *. lia. }
  pose proof (Zdivide_Zdiv_eq g num Hg (Z.gcd_divide_l num den)) as En.
  pose proof (Zdivide_Zdiv_eq g den Hg (Z.gcd_divide_r num den)) as Ed.
  assert (Hn' : (0 <= num / g)%Z) by (apply Z.div_pos; lia).
  assert (Hd' : (1 <= den / g)%Z) by nia.
  repeat split; try assumption.
  rewrite En at 2. rewrite Ed at 2. rewrite !inject_Z_mult.
  assert (~ inject_Z g == 0) by (rewrite (inject_Z_injective g 0); lia).
  assert (~ inject_Z (den / g) == 0)
    by (rewrite (inject_Z_injective (den / g) 0); lia).
  field. split; assumption.
Qed.

Lemma floor_fraction (d : Q) :
  0 <= d ->
  (0 <= Qfloor d)%Z /\ 0 <= d - inject_Z (Qfloor d) /\ d - inject_Z (Qfloor d) < 1.
Proof.
  intros Hd. pose proof (Qfloor_le d) as H1. pose proof (Qlt_floor d) as H2.
  rewrite inject_Z_plus in H2. change (inject_Z 1) with 1 in H2.
  repeat split; try lra.
  change 0%Z with (Qfloor 0). apply Qfloor_resp_le. exact Hd.
Qed.

Lemma search_bound (frac : Q) (maxDenominator : nat) (b : best) :
  (1 <= Z.of_nat maxDenominator <= 5000000)%Z ->
  bestError (search frac maxDenominator 1 b)
    <= 1 / (2 * inject_Z (Z.of_nat maxDenominator)).
Proof.
  intros Hmax. destruct maxDenominator as [|m]; [lia|].
  assert (Hpos : 0 < inject_Z (Z.of_nat (S m))) by (rewrite <- (Zlt_Qlt 0); lia).
  destruct (search_error frac m 1 b) as [H|H].
  - eapply Qle_trans; [exact H|]. unfold exactThreshold.
    apply Qle_shift_div_l; [lra|].
    assert (Hle : inject_Z (Z.of_nat (S m)) <= inject_Z 5000000)
      by (rewrite <- Zle_Qle; lia).
    change (inject_Z 5000000) with (5000000 # 1) in Hle.
    set (x := inject_Z (Z.of_nat (S m))) in *. clearbody x. lra.
  - eapply Qle_trans; [exact H|].
    replace (1 + Z.of_nat m)%Z with (Z.of_nat (S m)) by lia.
    apply round_error. lia.
Qed.

Lemma roundtrip_general (maxDenominator : nat) (d : Q) :
  (1 <= Z.of_nat maxDenominator <= 5000000)%Z -> 0 <= d ->
  exists r : Q,
    fractionToDecimal (decimalToFraction (Fin d) maxDenominator) = Some (Fin r) /\
    Qabs (r - d) <= 1 / (2 * inject_Z (Z.of_nat maxDenominator)).
Proof.
  intros Hmax Hd. unfold decimalToFraction.
  destruct (Qlt_le_dec d 0) as [Hneg|_]; [lra|].
  rewrite (Qabs_nonneg_eq d Hd). unfold JsNumber.floor.
  destruct (floor_fraction d Hd) as (Hw & Hf0 & Hf1).
  set (wholePart := Qfloor d) in *.
  set (fractionalPart := d - inject_Z wholePart) in *.
  assert (Hbound : 0 < 1 / (2 * inject_Z (Z.of_nat maxDenominator))).
  { apply Qlt_shift_div_l.
    - assert (0 < inject_Z (Z.of_nat maxDenominator))
        by (rewrite <- (Zlt_Qlt 0); lia). lra.
    - lra. }
  cbn [app].
  destruct (JsNumber.isZero fractionalPart) eqn:Ez.
  - exists (inject_Z wholePart). split; [apply parse_whole; exact Hw|].
    apply Qeq_bool_eq in Ez.
    setoid_replace (inject_Z wholePart - d) with (- fractionalPart)
      by (unfold fractionalPart; ring).
    rewrite Ez. apply Qlt_le_weak. exact Hbound.
  - set (b := search fractionalPart maxDenominator 1 (Best 0 1 fractionalPart)).
    assert (Hgood : good fractionalPart b).
    { apply search_good; [exact Hf0 | lia |].
      repeat split; cbn [bestNumerator bestDenominator bestError]; try lia.
      setoid_replace (fractionalPart - inject_Z 0 / inject_Z 1)
        with fractionalPart by (unfold Qdiv; change (inject_Z 0) with 0; ring).
      rewrite Qabs_pos by exact Hf0. reflexivity. }
    destruct Hgood as (Hden & Hnum & Herr).
    destruct (reduce_fraction _ _ Hnum Hden) as (Hn' & Hd' & Hred).
    pose proof (search_bound fractionalPart maxDenominator
                  (Best 0 1 fractionalPart) Hmax) as Hsb.
    fold b in Hsb. rewrite Herr in Hsb.
    destruct (wholePart =? 0)%Z eqn:Ew.
    + eexists. split; [apply (parse_simple _ _ Hn' Hd')|].
      rewrite Hred. apply Z.eqb_eq in Ew.
      rewrite <- Qabs_opp.
      setoid_replace (- (inject_Z (bestNumerator b) / inject_Z (bestDenominator b) - d))
        with (fractionalPart - inject_Z (bestNumerator b) / inject_Z (bestDenominator b))
        by (unfold fractionalPart; rewrite Ew; change (inject_Z 0) with 0; ring).
      exact Hsb.
    + eexists. split; [apply (parse_mixed _ _ _ Hw Hn' Hd')|].
      rewrite Hred. rewrite <- Qabs_opp.
      setoid_replace (- (inject_Z wholePart + inject_Z (bestNumerator b) / inject_Z (bestDenominator b) - d))
        with (fractionalPart - inject_Z (bestNumerator b) / inject_Z (bestDenominator b))
        by (unfold fractionalPart; ring).
      exact Hsb.
Qed.

(** C1.  For every decimal [d] with [0 <= d < 1000], the string
    [decimalToFraction(d, 16)] is parsed by [fractionToDecimal], and the
    number it yields is within 1/32 of [d]. *)
Theorem fraction_roundtrip_within_one_thirtysecond (d : Q) :
  0 <= d -> d < 1000 ->
  exists r : Q,
    fractionToDecimal (decimalToFraction (Fin d) 16) = Some (Fin r) /\
    Qabs (r - d) <= 1 # 32.
Proof.
  intros Hd _.
  destruct (roundtrip_general 16 d) as (r & Hparse & Herr);
    [simpl; lia | exact Hd |].
  exists r. split; [exact Hparse|].
  eapply Qle_trans; [exact Herr|]. unfold Qle. simpl. lia.
Qed.

Lemma fraction_roundtrip_witness :
  exists r : Q,
    fractionToDecimal (decimalToFraction (Fin (5 # 2)) 16) = Some (Fin r) /\
    Qabs (r - (5 # 2)) <= 1 # 32.
Proof.
  apply (fraction_roundtrip_within_one_thirtysecond (5 # 2)).
  - unfold Qle. simpl. lia.
  - reflexivity.
Defined.

(** C7.  [isValidFractionString] accepts a string exactly when
    [fractionToDecimal] returns a number for it; in particular it
    accepts 2-1/2 and 3 and rejects 1/0 and abc. *)
Theorem isValidFractionString_iff_fractionToDecimal :
  (forall s : jsstring,
      isValidFractionString s = true <-> fractionToDecimal s <> None) /\
  isValidFractionString (str "2-1/2") = true /\
  isValidFractionString (str "3") = true /\
  isValidFractionString (str "1/0") = false /\
  isValidFractionString (str "abc") = false.
Proof.
  split; [|repeat split; reflexivity].
  intros s. unfold isValidFractionString, fractionToDecimal.
  set (cleanStr := removeWhiteSpace (trim s)).
  destruct (isEmpty cleanStr); [split; [discriminate | congruence]|].
  destruct (testWhole cleanStr); [split; [discriminate | reflexivity]|].
  destruct (testSimple cleanStr).
  { destruct (map JsNumber.ofDigits (split slash cleanStr)) as [|n [|d r]];
      try (split; [discriminate | reflexivity]).
    destruct (JsNumber.eqZero d); simpl; split; congruence. }
  destruct (testMixed cleanStr); [|split; [discriminate | congruence]].
  destruct (split hyphen cleanStr) as [|w [|f r]];
    try (split; [discriminate | reflexivity]).
  destruct (map JsNumber.ofDigits (split slash f)) as [|n [|d r']];
    try (split; [discriminate | reflexivity]).
  destruct (JsNumber.eqZero d); simpl; split; congruence.
Qed.

End FractionFacts.

(** ** ExportPipeline *)

Module ExportFacts.

Import JsString ExportPipeline Document.
Local Open Scope nat_scope.

(** A measure read off a log event by event. *)
Lemma filter_as_flat_map {A : Type} (p : A -> bool) (l : list A) :
  filter p l = flat_map (fun x => if p x then [x] else []) l.
Proof.
  induction l as [|x l IH]; simpl; [reflexivity|].
  rewrite IH. destruct (p x); reflexivity.
Qed.

Lemma flat_map_flat_map {A B C : Type} (f : B -> list C) (g : A -> list B)
      (l : list A) :
  flat_map f (flat_map g l) = flat_map (fun a => flat_map f (g a)) l.
Proof.
  induction l as [|a l IH]; simpl; [reflexivity|].
  rewrite flat_map_app, IH. reflexivity.
Qed.

Section Library.

Variable splitTextToSize : jsstring -> Z -> list jsstring.
Variable addImageAccepts : jsstring -> bool.
Variable toLowerCase : jsstring -> jsstring.
Variable isIOS : bool.

Local Abbreviation addPieceToPDF :=
  (addPieceToPDF splitTextToSize addImageAccepts).
Local Abbreviation processPiece :=
  (processPiece splitTextToSize addImageAccepts).
Local Abbreviation processBatch :=
  (processBatch splitTextToSize addImageAccepts toLowerCase isIOS).
Local Abbreviation exportMultipleToPDF :=
  (exportMultipleToPDF splitTextToSize addImageAccepts toLowerCase isIOS).
Local Abbreviation finalizePDF := (finalizePDF toLowerCase isIOS).

(** Every case of [addPieceToPDF] for a piece that is there: with or
    without notes, and the four states of its canvas. *)
Ltac piece_cases it c :=
  unfold ExportPipeline.addPieceToPDF, imageOrPlaceholder, polishedEdgesText,
    slotOf;
  destruct (polishedEdges (specsOf it));
  destruct (notesOf it);
  try match goal with |- context [hasText ?n] => destruct (hasText n) end;
  destruct c as [[[?d|]]|]; cbn [toDataURL];
  try match goal with
      |- context [addImageAccepts ?d] => destruct (addImageAccepts d)
      end;
  reflexivity.

Lemma addPieceToPDF_pieceNumbers c it i first :
  pieceNumbers (addPieceToPDF c (Some it) i first) = [i + 1].
Proof. piece_cases it c. Qed.

Lemma addPieceToPDF_no_addPage c it i first :
  filter isAddPage (addPieceToPDF c it i first) = [].
Proof. destruct it as [it|]; [piece_cases it c | reflexivity]. Qed.


Lemma addPieceToPDF_slot c it i first :
  (images (addPieceToPDF c (Some it) i first),
   placeholders (addPieceToPDF c (Some it) i first))
  = slotOf addImageAccepts c.
Proof. piece_cases it c. Qed.

Lemma finalizePDF_no_document projectName isMobile :
  documentEvents (finalizePDF projectName isMobile) = [].
Proof.
  unfold ExportPipeline.finalizePDF, mobileDelivery.
  destruct isMobile, isIOS; reflexivity.
Qed.

(** A measure that only looks at document events sees, in the events
    of [processBatch], the pieces from [currentIndex] up to
    [totalPieces], one after the other. *)
Lemma processBatch_measure {B : Type} (f : event -> list B)
      canvases specsArray projectName isMobile totalPieces currentIndex :
  (forall e, isDocumentEvent e = false -> f e = []) ->
  flat_map f (processBatch canvases specsArray projectName isMobile
                           totalPieces currentIndex)
  = flat_map (fun i => flat_map f (processPiece canvases specsArray i))
             (seq currentIndex (totalPieces - currentIndex)).
Proof.
  intros Hf.
  funelim (ExportPipeline.processBatch splitTextToSize addImageAccepts
             toLowerCase isIOS canvases specsArray projectName isMobile
             totalPieces currentIndex).
  - replace (totalPieces - currentIndex) with 0 by lia. simpl.
    unfold ExportPipeline.finalizePDF, mobileDelivery.
    destruct isMobile, isIOS; simpl; rewrite ?Hf by reflexivity;
      reflexivity.
  - rewrite flat_map_app. simpl. rewrite (Hf (SetTimeout 10)) by reflexivity.
    simpl. rewrite H by exact Hf. rewrite flat_map_flat_map.
    rewrite <- flat_map_app.
    set (endIndex := Nat.min (currentIndex + batchSize) totalPieces).
    assert (currentIndex <= endIndex <= totalPieces)
      by (unfold endIndex, batchSize; lia).
    replace (totalPieces - currentIndex)
      with ((endIndex - currentIndex) + (totalPieces - endIndex)) by lia.
    rewrite seq_app.
    replace (currentIndex + (endIndex - currentIndex)) with endIndex by lia.
    reflexivity.
Qed.

(** Past validation, the export is the batched pass. *)
Lemma exportMultipleToPDF_valid canvases specsArray projectName isMobile :
  canvases <> [] -> specsArray <> [] ->
  exportMultipleToPDF canvases specsArray projectName isMobile
  = (Resolved,
     NewPDF
       :: addProjectInfoToPDF (finalProjectNameOf projectName)
                              (List.length specsArray)
       ++ processBatch canvases specsArray (finalProjectNameOf projectName)
                       isMobile
                       (Nat.min (List.length canvases)
                                (List.length specsArray)) 0).
Proof.
  intros Hc Hs. destruct canvases; [congruence|].
  destruct specsArray; [congruence|]. reflexivity.
Qed.

Lemma processPiece_pieceNumbers canvases specsArray i :
  i < List.length specsArray ->
  pieceNumbers (processPiece canvases specsArray i) = [i + 1].
Proof.
  intros Hi. unfold ExportPipeline.processPiece, pieceNumbers.
  rewrite flat_map_app.
  destruct (nth_error specsArray i) as [it|] eqn:E.
  - fold (pieceNumbers (addPieceToPDF (canvasAt canvases i) (Some it) i
                                      (i =? 0))).
    rewrite addPieceToPDF_pieceNumbers. destruct (0 <? i); reflexivity.
  - apply nth_error_None in E. lia.
Qed.

Lemma processPiece_pageBreaks canvases specsArray i :
  filter isAddPage (processPiece canvases specsArray i)
  = if 0 <? i then [AddPage] else [].
Proof.
  unfold ExportPipeline.processPiece. rewrite filter_app.
  rewrite addPieceToPDF_no_addPage. destruct (0 <? i); reflexivity.
Qed.

Lemma flat_map_singletons {A B : Type} (f : A -> list B) (g : A -> B)
      (l : list A) :
  (forall a, In a l -> f a = [g a]) -> flat_map f l = map g l.
Proof.
  induction l as [|a l IH]; simpl; intros H; [reflexivity|].
  rewrite (H a) by auto. rewrite IH by auto. reflexivity.
Qed.

(** The titles written by the batches: pieces [currentIndex + 1] to
    [totalPieces], in order. *)
Lemma processBatch_pieceNumbers canvases specsArray projectName isMobile
      totalPieces currentIndex :
  totalPieces <= List.length specsArray ->
  pieceNumbers (processBatch canvases specsArray projectName isMobile
                             totalPieces currentIndex)
  = seq (currentIndex + 1) (totalPieces - currentIndex).
Proof.
  intros Htotal. unfold pieceNumbers at 1.
  rewrite processBatch_measure
    by (intros [] He; try reflexivity; discriminate).
  rewrite (flat_map_singletons _ (fun i => i + 1)).
  - replace (currentIndex + 1) with (S currentIndex) by lia.
    rewrite <- seq_shift. apply map_ext. intros; lia.
  - intros i Hi. apply in_seq in Hi.
    apply processPiece_pieceNumbers. lia.
Qed.

(** One page break for every piece but the first. *)
Lemma processBatch_pageBreaks canvases specsArray projectName isMobile
      totalPieces :
  pageBreaks (processBatch canvases specsArray projectName isMobile
                           totalPieces 0)
  = totalPieces - 1.
Proof.
  unfold pageBreaks. rewrite filter_as_flat_map.
  rewrite processBatch_measure
    by (intros [] He; try reflexivity; discriminate).
  rewrite Nat.sub_0_r.
  rewrite (flat_map_ext _ (fun i => if 0 <? i then [AddPage] else [])).
  2:{ intros i. rewrite <- filter_as_flat_map.
      apply processPiece_pageBreaks. }
  destruct totalPieces as [|n]; [reflexivity|].
  simpl. rewrite Nat.sub_0_r.
  rewrite (flat_map_singletons _ (fun _ => AddPage)).
  - rewrite length_map, length_seq. reflexivity.
  - intros i Hi. apply in_seq in Hi.
    destruct (Nat.ltb_spec 0 i); [reflexivity | lia].
Qed.

Lemma filter_nil_forallb {A : Type} (p : A -> bool) (l : list A) :
  filter p l = [] -> forallb (fun x => negb (p x)) l = true.
Proof.
  induction l as [|x l IH]; simpl; [reflexivity|].
  destruct (p x); [discriminate|]. exact IH.
Qed.

Lemma filter_filter_nil {A : Type} (p q : A -> bool) (l : list A) :
  filter p l = [] -> filter p (filter q l) = [].
Proof.
  induction l as [|x l IH]; simpl; [reflexivity|].
  destruct (p x) eqn:Ep; [discriminate|]. intros H.
  destruct (q x); simpl; rewrite ?Ep; auto.
Qed.

(** A measure that only looks at document events reads the same from
    the document events as from the whole log. *)
Lemma measure_documentEvents {B : Type} (f : event -> list B)
      (log : list event) :
  (forall e, isDocumentEvent e = false -> f e = []) ->
  flat_map f (documentEvents log) = flat_map f log.
Proof.
  intros Hf. induction log as [|e log IH]; simpl; [reflexivity|].
  destruct (isDocumentEvent e) eqn:E; simpl; rewrite IH.
  - reflexivity.
  - rewrite (Hf e E). reflexivity.
Qed.

(** Pieces that each start a page but the first: the first shares its
    page with what precedes, the others have a page each. *)
Lemma splitOn_pieces (g : nat -> list event) (pre : list event) (n : nat) :
  (forall i, filter isAddPage (g i) = []) ->
  filter isAddPage pre = [] ->
  splitOn isAddPage
    (pre ++ flat_map (fun i => (if 0 <? i then [AddPage] else []) ++ g i)
                     (seq 0 (S n)))
  = (pre ++ g 0) :: map g (seq 1 n).
Proof.
  intros Hg Hpre. induction n as [|n IH].
  - simpl. rewrite app_nil_r. apply splitOn_none.
    apply filter_nil_forallb. rewrite filter_app, Hpre, Hg. reflexivity.
  - rewrite seq_S, flat_map_app, app_assoc. simpl flat_map at 2.
    rewrite app_nil_r. simpl (0 <? 0 + S n). cbn [app].
    rewrite splitOn_sep by reflexivity. rewrite IH.
    rewrite splitOn_none by (apply filter_nil_forallb, Hg).
    rewrite (seq_S n 1), map_app. reflexivity.
Qed.

Local Abbreviation documentPiece :=
  (documentPiece splitTextToSize addImageAccepts).

Lemma pages_exportMultipleToPDF canvases specsArray projectName isMobile :
  canvases <> [] -> specsArray <> [] ->
  pages (snd (exportMultipleToPDF canvases specsArray projectName isMobile))
  = (NewPDF :: addProjectInfoToPDF (finalProjectNameOf projectName)
                                   (List.length specsArray)
       ++ documentPiece canvases specsArray 0)
      :: map (documentPiece canvases specsArray)
             (seq 1 (Nat.min (List.length canvases)
                             (List.length specsArray) - 1)).
Proof.
  intros Hc Hs. rewrite exportMultipleToPDF_valid by assumption.
  unfold pages, documentEvents. cbn [snd]. cbn [filter isDocumentEvent].
  rewrite filter_app.
  rewrite (filter_as_flat_map isDocumentEvent (processBatch _ _ _ _ _ _)).
  rewrite processBatch_measure
    by (intros e He; rewrite He; reflexivity).
  rewrite Nat.sub_0_r.
  set (n := Nat.min (List.length canvases) (List.length specsArray)).
  assert (Hn : n = S (n - 1)).
  { destruct canvases; [congruence|]. destruct specsArray; [congruence|].
    unfold n. simpl. lia. }
  rewrite Hn at 1.
  rewrite (flat_map_ext _
             (fun i => (if 0 <? i then [AddPage] else [])
                         ++ documentPiece canvases specsArray i)).
  2:{ intros i. rewrite <- filter_as_flat_map.
      unfold ExportPipeline.processPiece, Document.documentPiece.
      rewrite filter_app. destruct (0 <? i); reflexivity. }
  change (NewPDF :: ?a ++ ?b) with ((NewPDF :: a) ++ b).
  rewrite splitOn_pieces.
  - reflexivity.
  - intros i. apply filter_filter_nil, addPieceToPDF_no_addPage.
  - reflexivity.
Qed.







(** *** The sequential export *)

Ltac sequential_cases it canvases index :=
  unfold SequentialExport.forEachPiece, imageOrPlaceholder,
    polishedEdgesText;
  destruct (polishedEdges (specsOf it));
  destruct (notesOf it);
  try match goal with |- context [hasText ?n] => destruct (hasText n) end;
  destruct (canvasAt canvases index) as [[[?d|]]|]; cbn [toDataURL];
  try match goal with
      |- context [addImageAccepts ?d] => destruct (addImageAccepts d)
      end;
  destruct index; reflexivity.

Lemma forEachPiece_pieceNumbers canvases it index :
  pieceNumbers (SequentialExport.forEachPiece splitTextToSize
                  addImageAccepts canvases it index) = [index + 1].
Proof. sequential_cases it canvases index. Qed.

Lemma forEachPiece_pageBreaks canvases it index :
  pageBreaks (SequentialExport.forEachPiece splitTextToSize
                addImageAccepts canvases it index)
  = if 0 <? index then 1 else 0.
Proof. unfold pageBreaks. sequential_cases it canvases index. Qed.

Lemma forEach_pieceNumbers canvases specsArray index :
  pieceNumbers (SequentialExport.forEach splitTextToSize addImageAccepts
                  canvases specsArray index)
  = seq (index + 1) (List.length specsArray).
Proof.
  revert index. induction specsArray as [|it rest IH]; intros index;
    [reflexivity|].
  cbn [SequentialExport.forEach]. unfold pieceNumbers.
  rewrite flat_map_app.
  fold (pieceNumbers (SequentialExport.forEachPiece splitTextToSize
                        addImageAccepts canvases it index)).
  fold (pieceNumbers (SequentialExport.forEach splitTextToSize
                        addImageAccepts canvases rest (S index))).
  rewrite forEachPiece_pieceNumbers, IH. cbn [List.length seq app].
  replace (S index + 1) with (S (index + 1)) by lia. reflexivity.
Qed.

Lemma forEach_pageBreaks canvases specsArray index :
  pageBreaks (SequentialExport.forEach splitTextToSize addImageAccepts
                canvases specsArray index)
  = List.length specsArray
    - (if 0 <? index then 0 else Nat.min 1 (List.length specsArray)).
Proof.
  revert index. induction specsArray as [|it rest IH]; intros index.
  - destruct (0 <? index); reflexivity.
  - cbn [SequentialExport.forEach]. unfold pageBreaks.
    rewrite filter_app, length_app.
    fold (pageBreaks (SequentialExport.forEachPiece splitTextToSize
                        addImageAccepts canvases it index)).
    fold (pageBreaks (SequentialExport.forEach splitTextToSize
                        addImageAccepts canvases rest (S index))).
    rewrite forEachPiece_pageBreaks, IH. cbn [List.length].
    destruct (Nat.ltb_spec 0 index); cbn; lia.
Qed.

Lemma sequential_valid canvases specsArray projectName isMobile :
  canvases <> [] -> specsArray <> [] ->
  exists header delivery,
    SequentialExport.exportMultipleToPDF splitTextToSize addImageAccepts
      toLowerCase isIOS canvases specsArray projectName isMobile
    = (Resolved,
       header
         ++ SequentialExport.forEach splitTextToSize addImageAccepts
              canvases specsArray 0
         ++ delivery)
    /\ pieceNumbers header = [] /\ pageBreaks header = 0
    /\ pieceNumbers delivery = [] /\ pageBreaks delivery = 0.
Proof.
  intros Hc Hs. destruct canvases; [congruence|].
  destruct specsArray; [congruence|].
  unfold SequentialExport.exportMultipleToPDF.
  eexists (NewPDF :: [_; _; _; _; _]), _. split; [reflexivity|].
  repeat split; unfold SequentialExport.mobileDelivery;
    destruct isMobile, isIOS; reflexivity.
Qed.

(** *** The claims about [exportMultipleToPDF] *)

(** C3.  Called with no canvases or with no pieces,
    [exportMultipleToPDF] rejects with a validation error and has
    built nothing: no document was constructed, no page and no
    content added.  The same holds of the sequential variant. *)
Theorem exportMultipleToPDF_rejects_empty_input
        canvases specsArray projectName isMobile :
  canvases = [] \/ specsArray = [] ->
  (exists message,
      fst (exportMultipleToPDF canvases specsArray projectName isMobile)
      = Rejected message) /\
  documentEvents
    (snd (exportMultipleToPDF canvases specsArray projectName isMobile))
  = [] /\
  (exists message,
      SequentialExport.exportMultipleToPDF splitTextToSize addImageAccepts
        toLowerCase isIOS canvases specsArray projectName isMobile
      = (Rejected message, [])).
Proof.
  intros [Hc | Hs]; subst.
  - repeat split; try (eexists; reflexivity); reflexivity.
  - destruct canvases; repeat split; try (eexists; reflexivity);
      reflexivity.
Qed.

(** The fraction-display wrapper maps the pieces and hands them on, so
    it rejects empty input in the same way. *)
Lemma wrapper_rejects_empty_input canvases pieces projectName isMobile :
  canvases = [] \/ pieces = [] ->
  (exists message,
      fst (FractionExport.exportMultipleToPDF splitTextToSize
             addImageAccepts toLowerCase isIOS
             canvases pieces projectName isMobile)
      = Rejected message) /\
  documentEvents
    (snd (FractionExport.exportMultipleToPDF splitTextToSize
            addImageAccepts toLowerCase isIOS
            canvases pieces projectName isMobile))
  = [].
Proof.
  intros [Hc | Hp]; subst.
  - split; [eexists|]; reflexivity.
  - destruct canvases; (split; [eexists|]; reflexivity).
Qed.

(** C6.  Given [n] canvases and [n] pieces, [n >= 1], the export
    resolves with a document that holds the [n] piece titles, numbered
    1 to [n], and [n - 1] page breaks; so does the sequential
    variant. *)
Theorem exportMultipleToPDF_titles_and_page_breaks
        (n : nat) canvases specsArray projectName isMobile :
  1 <= n -> List.length canvases = n -> List.length specsArray = n ->
  let batched :=
    exportMultipleToPDF canvases specsArray projectName isMobile in
  let sequential :=
    SequentialExport.exportMultipleToPDF splitTextToSize addImageAccepts
      toLowerCase isIOS canvases specsArray projectName isMobile in
  fst batched = Resolved /\
  pieceNumbers (snd batched) = seq 1 n /\
  pageBreaks (snd batched) = n - 1 /\
  fst sequential = Resolved /\
  pieceNumbers (snd sequential) = seq 1 n /\
  pageBreaks (snd sequential) = n - 1.
Proof.
  intros Hn Hlc Hls.
  assert (Hc : canvases <> []) by (destruct canvases; simpl in *; [lia | discriminate]).
  assert (Hs : specsArray <> []) by (destruct specsArray; simpl in *; [lia | discriminate]).
  cbv zeta. rewrite exportMultipleToPDF_valid by assumption.
  destruct (sequential_valid canvases specsArray projectName isMobile Hc Hs)
    as (header & delivery & -> & Hh1 & Hh2 & Hd1 & Hd2).
  cbn [fst snd]. rewrite Hlc, Hls, Nat.min_id.
  repeat split.
  - change (NewPDF :: ?a ++ ?b) with ((NewPDF :: a) ++ b).
    unfold pieceNumbers. rewrite flat_map_app.
    fold (pieceNumbers (processBatch canvases specsArray
                          (finalProjectNameOf projectName) isMobile n 0)).
    rewrite processBatch_pieceNumbers by lia.
    rewrite Nat.sub_0_r. reflexivity.
  - change (NewPDF :: ?a ++ ?b) with ((NewPDF :: a) ++ b).
    unfold pageBreaks. rewrite filter_app, length_app.
    fold (pageBreaks (processBatch canvases specsArray
                        (finalProjectNameOf projectName) isMobile n 0)).
    rewrite processBatch_pageBreaks. reflexivity.
  - unfold pieceNumbers in *. rewrite !flat_map_app, Hh1, Hd1, app_nil_r.
    cbn [app]. pose proof (forEach_pieceNumbers canvases specsArray 0) as E.
    rewrite Hls in E. exact E.
  - unfold pageBreaks in *. rewrite !filter_app, !length_app, Hh2, Hd2.
    fold (pageBreaks (SequentialExport.forEach splitTextToSize
                        addImageAccepts canvases specsArray 0)).
    rewrite forEach_pageBreaks. cbn [Nat.ltb Nat.leb]. lia.
Qed.

Lemma flat_map_ext_in {A B : Type} (f g : A -> list B) (l : list A) :
  (forall a, In a l -> f a = g a) -> flat_map f l = flat_map g l.
Proof.
  induction l as [|a l IH]; simpl; intros H; [reflexivity|].
  rewrite (H a) by auto. rewrite IH by auto. reflexivity.
Qed.

Lemma nth_map_seq {A : Type} (g : nat -> list A) (a len j : nat) :
  j < len -> nth j (map g (seq a len)) [] = g (a + j).
Proof.
  intros Hj. rewrite (nth_indep _ [] (g 0))
    by (rewrite length_map, length_seq; exact Hj).
  rewrite map_nth, seq_nth by exact Hj. reflexivity.
Qed.

Lemma documentPiece_content canvases specsArray i :
  i < List.length specsArray ->
  pieceNumbers (documentPiece canvases specsArray i) = [i + 1] /\
  (images (documentPiece canvases specsArray i),
   placeholders (documentPiece canvases specsArray i))
  = slotOf addImageAccepts (canvasAt canvases i).
Proof.
  intros Hi. unfold Document.documentPiece.
  destruct (nth_error specsArray i) as [it|] eqn:E;
    [|apply nth_error_None in E; lia].
  unfold pieceNumbers, images, placeholders.
  rewrite !measure_documentEvents
    by (intros [] He; try reflexivity; discriminate).
  split.
  - apply addPieceToPDF_pieceNumbers.
  - apply addPieceToPDF_slot.
Qed.


(** C10.  The batched export places as many pieces as the shorter of
    the two lists has entries: it resolves, the document has that
    many pages, titles and (less one) page breaks, the placeholders
    in it are those of the canvases below that number, and a piece
    beyond it has neither a page nor a title. *)
Theorem exportMultipleToPDF_places_min_of_lengths
        canvases specsArray projectName isMobile :
  canvases <> [] -> specsArray <> [] ->
  let result :=
    exportMultipleToPDF canvases specsArray projectName isMobile in
  let n := Nat.min (List.length canvases) (List.length specsArray) in
  fst result = Resolved /\
  pieceNumbers (snd result) = seq 1 n /\
  pageBreaks (snd result) = n - 1 /\
  List.length (pages (snd result)) = n /\
  placeholders (snd result)
  = flat_map (fun i => snd (slotOf addImageAccepts (canvasAt canvases i)))
             (seq 0 n) /\
  forall i : nat,
    n <= i ->
    nth i (pages (snd result)) [] = [] /\
    ~ In (i + 1) (pieceNumbers (snd result)).
Proof.
  intros Hc Hs. cbv zeta.
  rewrite pages_exportMultipleToPDF by assumption.
  rewrite exportMultipleToPDF_valid by assumption. cbn [fst snd].
  set (n := Nat.min (List.length canvases) (List.length specsArray)).
  assert (Hn : 1 <= n <= List.length specsArray).
  { destruct canvases; [congruence|]. destruct specsArray; [congruence|].
    unfold n. simpl. lia. }
  change (NewPDF :: ?a ++ ?b) with ((NewPDF :: a) ++ b).
  assert (Htitles :
            pieceNumbers
              ((NewPDF :: addProjectInfoToPDF
                            (finalProjectNameOf projectName)
                            (List.length specsArray))
                 ++ processBatch canvases specsArray
                      (finalProjectNameOf projectName) isMobile n 0)
            = seq 1 n).
  { unfold pieceNumbers. rewrite flat_map_app.
    fold (pieceNumbers (processBatch canvases specsArray
                          (finalProjectNameOf projectName) isMobile n 0)).
    rewrite processBatch_pieceNumbers by lia.
    rewrite Nat.sub_0_r. reflexivity. }
  split; [reflexivity|]. split; [exact Htitles|]. split.
  { unfold pageBreaks. rewrite filter_app, length_app.
    fold (pageBreaks (processBatch canvases specsArray
                        (finalProjectNameOf projectName) isMobile n 0)).
    rewrite processBatch_pageBreaks. reflexivity. }
  split.
  { cbn [List.length]. rewrite length_map, length_seq. lia. }
  split.
  { unfold placeholders at 1. rewrite flat_map_app.
    rewrite processBatch_measure
      by (intros [] He; try reflexivity; discriminate).
    rewrite Nat.sub_0_r. cbn [flat_map app].
    apply flat_map_ext_in. intros i Hi. apply in_seq in Hi.
    unfold ExportPipeline.processPiece. rewrite flat_map_app.
    destruct (nth_error specsArray i) as [it|] eqn:E;
      [|apply nth_error_None in E; lia].
    pose proof (addPieceToPDF_slot (canvasAt canvases i) it i (i =? 0))
      as Hslot.
    unfold placeholders in Hslot. rewrite <- Hslot. cbn [snd].
    destruct (0 <? i); reflexivity. }
  intros i Hi. split.
  - apply nth_overflow. cbn [List.length].
    rewrite length_map, length_seq. lia.
  - rewrite Htitles. rewrite in_seq. lia.
Qed.


End Library.

(** *** The single-piece export *)

Lemma notesShift_bounds (textLines : list jsstring) :
  (0 <= notesShift textLines <= maxNotesShift)%Z.
Proof. unfold notesShift, maxNotesShift. lia. Qed.

Section SinglePiece.

Variable splitTextToSize : jsstring -> Z -> list jsstring.
Variable addImageAccepts : jsstring -> bool.

(** Where [createSinglePiecePDF] puts the image: at 65 mm, moved down
    by 5 mm for each line of notes, by 60 mm at most. *)
Lemma createSinglePiecePDF_image imgData s notes :
  addImageAccepts imgData = true ->
  hasText (Some notes) = true ->
  let shift := notesShift (splitTextToSize notes MAX_TEXT_WIDTH) in
  imageExtents
    (fst (createSinglePiecePDF splitTextToSize addImageAccepts
            imgData s (Some notes)))
  = [((65 + shift)%Z, (185 + shift)%Z)].
Proof.
  intros Hacc Hnotes. unfold createSinglePiecePDF, polishedEdgesText.
  rewrite Hnotes, Hacc. cbn [fst].
  destruct (polishedEdges s); unfold imageExtents;
    cbn [flat_map app]; unfold PDF_MARGINS_top, IMAGE_SIZE_height;
    (replace (20 + 45 + notesShift (splitTextToSize notes MAX_TEXT_WIDTH)
              + 120)%Z
       with (185 + notesShift (splitTextToSize notes MAX_TEXT_WIDTH))%Z
       by lia);
    reflexivity.
Qed.

(** The image stays on the page exactly when the notes take five
    lines or fewer. *)
Lemma createSinglePiecePDF_image_on_page imgData s notes :
  addImageAccepts imgData = true ->
  hasText (Some notes) = true ->
  Forall (fun extent => (snd extent <= PAGE_height)%Z)
         (imageExtents
            (fst (createSinglePiecePDF splitTextToSize addImageAccepts
                    imgData s (Some notes))))
  <-> List.length (splitTextToSize notes MAX_TEXT_WIDTH) <= 5.
Proof.
  intros Hacc Hnotes.
  rewrite createSinglePiecePDF_image by assumption. cbv zeta.
  unfold notesShift, maxNotesShift, PAGE_height. split.
  - intros H. apply Forall_inv in H. cbn [snd] in H. lia.
  - intros H. constructor; [cbn [snd]; lia | constructor].
Qed.

End SinglePiece.

(** *** At sample inputs *)

Import Samples.

Lemma exportMultipleToPDF_rejects_empty_witness :
  (exists message,
      fst (exportMultipleToPDF splitAtLineFeeds acceptAll asciiToLowerCase
             false [] [piece] (str "Kitchen") false)
      = Rejected message) /\
  documentEvents
    (snd (exportMultipleToPDF splitAtLineFeeds acceptAll asciiToLowerCase
            false [] [piece] (str "Kitchen") false))
  = [] /\
  (exists message,
      SequentialExport.exportMultipleToPDF splitAtLineFeeds acceptAll
        asciiToLowerCase false [] [piece] (str "Kitchen") false
      = (Rejected message, [])).
Proof.
  apply (exportMultipleToPDF_rejects_empty_input splitAtLineFeeds acceptAll
           asciiToLowerCase false [] [piece] (str "Kitchen") false).
  left. reflexivity.
Defined.


(** The five pages of that document: the third has the placeholder and
    no image, the others their image and no placeholder. *)
Example five_pieces_third_canvas_missing :
  let result :=
    exportMultipleToPDF splitAtLineFeeds acceptAll asciiToLowerCase false
      fiveCanvases fivePieces (str "Kitchen") false in
  fst result = Resolved /\
  map (fun page => (pieceNumbers page, images page, placeholders page))
      (pages (snd result))
  = [ ([1], [str "png"], []);
      ([2], [str "png"], []);
      ([3], [], [NotAvailable]);
      ([4], [str "png"], []);
      ([5], [str "png"], []) ].
Proof. vm_compute. split; reflexivity. Qed.


Lemma exportMultipleToPDF_titles_witness :
  let batched :=
    exportMultipleToPDF splitAtLineFeeds acceptAll asciiToLowerCase false
      fiveCanvases fivePieces (str "Kitchen") false in
  let sequential :=
    SequentialExport.exportMultipleToPDF splitAtLineFeeds acceptAll
      asciiToLowerCase false fiveCanvases fivePieces (str "Kitchen") false in
  fst batched = Resolved /\
  pieceNumbers (snd batched) = seq 1 5 /\
  pageBreaks (snd batched) = 5 - 1 /\
  fst sequential = Resolved /\
  pieceNumbers (snd sequential) = seq 1 5 /\
  pageBreaks (snd sequential) = 5 - 1.
Proof.
  apply (exportMultipleToPDF_titles_and_page_breaks splitAtLineFeeds
           acceptAll asciiToLowerCase false 5 fiveCanvases fivePieces
           (str "Kitchen") false); [lia | reflexivity | reflexivity].
Defined.

Lemma exportMultipleToPDF_min_witness :
  let result :=
    exportMultipleToPDF splitAtLineFeeds acceptAll asciiToLowerCase false
      [rendered] [piece; piece] (str "Kitchen") false in
  let n := Nat.min (List.length [rendered]) (List.length [piece; piece]) in
  fst result = Resolved /\
  pieceNumbers (snd result) = seq 1 n /\
  pageBreaks (snd result) = n - 1 /\
  List.length (pages (snd result)) = n /\
  placeholders (snd result)
  = flat_map (fun i => snd (slotOf acceptAll (canvasAt [rendered] i)))
             (seq 0 n) /\
  forall i : nat,
    n <= i ->
    nth i (pages (snd result)) [] = [] /\
    ~ In (i + 1) (pieceNumbers (snd result)).
Proof.
  apply (exportMultipleToPDF_places_min_of_lengths splitAtLineFeeds
           acceptAll asciiToLowerCase false [rendered] [piece; piece]
           (str "Kitchen") false); discriminate.
Defined.

(** C8, the code at a failing input.  Notes of six lines move the
    image down by 30 mm, less than the cap of 60 mm; the image, 120 mm
    high, then reaches from 95 mm to 215 mm on a page that is 210 mm
    high. *)
Theorem createSinglePiecePDF_image_leaves_page :
  let pdf :=
    createSinglePiecePDF splitAtLineFeeds acceptAll (str "png") quartz
                         (Some sixLines) in
  snd pdf = true /\
  notesShift (splitAtLineFeeds sixLines MAX_TEXT_WIDTH) = 30%Z /\
  (30 <= maxNotesShift)%Z /\
  imageExtents (fst pdf) = [(95, 215)%Z] /\
  (PAGE_height < 215)%Z.
Proof.
  split; [vm_compute; reflexivity|].
  split; [vm_compute; reflexivity|].
  split; [unfold maxNotesShift; lia|].
  split; [vm_compute; reflexivity|].
  unfold PAGE_height. lia.
Qed.

End ExportFacts.

(** ** Rendering *)

Module RenderFacts.

Import JsString Canvas Stone RenderCommon Rendering.
Local Open Scope Q_scope.

(** *** The layout *)


Lemma Qmin_le_r (a b : Q) : Qmin a b <= b.
Proof. apply Q.le_min_r. Qed.





(** *** Strokes *)





(** *** X marks *)







(** *** Polished edges, optimized renderer *)







(** *** Polished edges, original renderer *)








(** *** The rest of a rendering *)













Lemma Some_inj {A : Type} (a b : A) : Some a = Some b -> a = b.
Proof. congruence. Qed.



Section Renderers.

Variable measureTextWidth : jsstring -> Q.
Variable toUpperCase : jsstring -> jsstring.
Variable patternContext : bool.
Variable createPatternOk : Z -> bool.



End Renderers.

(** *** The renderers return *)

Lemma forUpTo_enough (body : Q -> list call) (k : nat) :
  forall (i limit step : Q),
    0 < step ->
    limit - i < inject_Z (Z.of_nat k) * step ->
    forall fuel : nat,
      (k < fuel)%nat ->
      exists calls, forUpTo fuel i limit step body = Some calls.
Proof.
  induction k as [|k IH]; intros i limit step Hstep Hk fuel Hfuel;
    (destruct fuel as [|fuel]; [lia|]); cbn [forUpTo];
    destruct (Qle_bool i limit) eqn:E; try (eexists; reflexivity);
    apply Qle_bool_imp_le in E.
  - change (inject_Z (Z.of_nat 0)) with 0 in Hk. lra.
  - destruct (IH (i + step) limit step Hstep) with (fuel := fuel)
      as [rest ->]; [|lia|eexists; reflexivity].
    rewrite Nat2Z.inj_succ in Hk. unfold Z.succ in Hk.
    rewrite inject_Z_plus in Hk. change (inject_Z 1) with 1 in Hk.
    setoid_replace ((inject_Z (Z.of_nat k) + 1) * step)
      with (inject_Z (Z.of_nat k) * step + step) in Hk by ring.
    lra.
Qed.

(** A loop with a positive step ends, and a bound on its turns can be
    computed. *)
Lemma forUpTo_terminates (body : Q -> list call) (i limit step : Q) :
  0 < step ->
  exists n : nat,
    forall fuel : nat,
      (n <= fuel)%nat ->
      exists calls, forUpTo fuel i limit step body = Some calls.
Proof.
  intros Hstep.
  set (q := (limit - i) / step).
  set (k := Z.to_nat (Qfloor q + 1)).
  exists (S k). intros fuel Hfuel.
  apply (forUpTo_enough body k); [exact Hstep | | lia].
  pose proof (Qlt_floor q) as Hq.
  assert (Hk : inject_Z (Qfloor q + 1) <= inject_Z (Z.of_nat k))
    by (rewrite <- Zle_Qle; unfold k; lia).
  assert (Hqk : q < inject_Z (Z.of_nat k)) by lra.
  setoid_replace (limit - i) with (q * step) by (unfold q; field; lra).
  apply Qmult_lt_compat_r; assumption.
Qed.

Lemma drawGrid_terminates (x y width height scale : Q) :
  0 < scale ->
  exists n : nat,
    forall fuel : nat,
      (n <= fuel)%nat ->
      exists calls,
        RenderEngine.drawGrid fuel x y width height scale = Some calls.
Proof.
  intros Hscale. unfold RenderEngine.drawGrid. cbv zeta.
  assert (H4 : 0 < (1 # 4) * scale) by lra.
  assert (H1 : 0 < 1 * scale) by lra.
  destruct (forUpTo_terminates
              (fun i => [BeginPath; MoveTo (x + i) y;
                         LineTo (x + i) (y + height); Stroke])
              0 width _ H4) as [n1 E1].
  destruct (forUpTo_terminates
              (fun i => [BeginPath; MoveTo x (y + i);
                         LineTo (x + width) (y + i); Stroke])
              0 height _ H4) as [n2 E2].
  destruct (forUpTo_terminates
              (fun i => [BeginPath; MoveTo (x + i) y;
                         LineTo (x + i) (y + height); Stroke])
              0 width _ H1) as [n3 E3].
  destruct (forUpTo_terminates
              (fun i => [BeginPath; MoveTo x (y + i);
                         LineTo (x + width) (y + i); Stroke])
              0 height _ H1) as [n4 E4].
  exists (n1 + n2 + n3 + n4)%nat. intros fuel Hfuel.
  destruct (E1 fuel ltac:(lia)) as [c1 ->].
  destruct (E2 fuel ltac:(lia)) as [c2 ->].
  destruct (E3 fuel ltac:(lia)) as [c3 ->].
  destruct (E4 fuel ltac:(lia)) as [c4 ->].
  eexists. reflexivity.
Qed.

Lemma drawGridOptimized_terminates
      (patternContext : bool) (createPatternOk : Z -> bool)
      (cache : patternCache) (x y width height scale : Q) :
  0 < scale ->
  exists n : nat,
    forall fuel : nat,
      (n <= fuel)%nat ->
      exists calls,
        fst (RenderEngineOptimized.drawGridOptimized
               patternContext createPatternOk fuel cache
               x y width height scale) = Some calls.
Proof.
  intros Hscale. unfold RenderEngineOptimized.drawGridOptimized. cbv zeta.
  destruct (RenderEngineOptimized.getGridPattern _ _ cache _)
    as [[pattern patternCalls] cache'].
  assert (H1 : 0 < 1 * scale) by lra.
  destruct (JsNumber.isZero (1 * scale));
    [exists 0%nat; intros; eexists; reflexivity|].
  match goal with
  | |- context [forUpTo _ ?a ?b _ ?f] =>
      destruct (forUpTo_terminates f a b _ H1) as [n1 E1]
  end.
  match goal with
  | |- context [match forUpTo _ ?a ?b _ ?f with Some h => Some (_, h)
                                           | None => None end] =>
      destruct (forUpTo_terminates f a b _ H1) as [n2 E2]
  end.
  exists (n1 + n2)%nat. intros fuel Hfuel.
  destruct (E1 fuel ltac:(lia)) as [c1 ->].
  destruct (E2 fuel ltac:(lia)) as [c2 ->].
  eexists. reflexivity.
Qed.

(** With room left on the surface and a positive zoom the drawing scale
    is positive. *)
Lemma finalScale_positive (canvasWidth canvasHeight : Q)
      (s : StoneSpecifications) (o : options) :
  0 < width s -> 0 < height s ->
  orDefault (padding o) 40 * 2 < canvasWidth ->
  orDefault (padding o) 40 * 2 < canvasHeight ->
  0 < orDefault (scale o) 1 ->
  0 < finalScale (computeLayout canvasWidth canvasHeight s o).
Proof.
  intros Hw Hh Hpw Hph Hs. unfold computeLayout. cbn [finalScale].
  assert (0 < (canvasWidth - orDefault (padding o) 40 * 2) / width s)
    by (apply Qlt_shift_div_l; lra).
  assert (0 < (canvasHeight - orDefault (padding o) 40 * 2) / height s)
    by (apply Qlt_shift_div_l; lra).
  apply Qmult_lt_0_compat; [|exact Hs].
  apply Q.min_glb_lt; assumption.
Qed.

Section Claims.

Variable measureTextWidth : jsstring -> Q.
Variable toUpperCase : jsstring -> jsstring.
Variable patternContext : bool.
Variable createPatternOk : Z -> bool.

(** Both renderers return when the drawing scale is positive. *)
Lemma drawStoneMockup_terminates
      (cache : patternCache) (canvasWidth canvasHeight : Q)
      (s : StoneSpecifications) (o : options) :
  0 < finalScale (computeLayout canvasWidth canvasHeight s o) ->
  exists n : nat,
    forall fuel : nat,
      (n <= fuel)%nat ->
      (exists calls,
          RenderEngine.drawStoneMockup measureTextWidth toUpperCase fuel
            canvasWidth canvasHeight s o = Some calls) /\
      (exists calls,
          fst (RenderEngineOptimized.drawStoneMockup measureTextWidth
                 toUpperCase patternContext createPatternOk fuel cache
                 canvasWidth canvasHeight s o) = Some calls).
Proof.
  intros Hscale.
  set (l := computeLayout canvasWidth canvasHeight s o) in *.
  destruct (drawGrid_terminates (x l) (y l) (scaledWidth l)
              (scaledHeight l) (finalScale l) Hscale) as [n1 E1].
  destruct (drawGridOptimized_terminates patternContext createPatternOk
              cache (x l) (y l) (scaledWidth l) (scaledHeight l)
              (finalScale l) Hscale) as [n2 E2].
  exists (n1 + n2)%nat. intros fuel Hfuel.
  destruct (E1 fuel ltac:(lia)) as [c1 H1].
  destruct (E2 fuel ltac:(lia)) as [c2 H2].
  unfold RenderEngine.drawStoneMockup, RenderEngineOptimized.drawStoneMockup.
  cbv zeta. fold l. split.
  - destruct (orDefault (showGrid o) true); [rewrite H1|];
      eexists; reflexivity.
  - destruct (orDefault (showGrid o) true).
    + destruct (RenderEngineOptimized.drawGridOptimized _ _ _ _ _ _ _ _ _)
        as [grid cache'].
      cbn [fst] in H2. subst grid. eexists. reflexivity.
    + eexists. reflexivity.
Qed.


End Claims.

Import RenderSamples.



Lemma slab_renders :
  slabOptimized = Some (returned slabOptimized) /\
  slabOriginal = Some (returned slabOriginal).
Proof. split; vm_compute; reflexivity. Qed.



End RenderFacts.

(** * Further properties *)

(** ** More about [FractionMath] *)

Module FractionExtras.

Import JsString FractionMath FractionSpec JsStringFacts FractionFacts.
Local Open Scope Z_scope.

(** *** [findGCD] *)

(** X1.  [findGCD(a, b)] returns for all integers the greatest common
    divisor of [a] and [b]: it is not negative, divides both, and every
    common divisor divides it. *)
Theorem findGCD_greatest_common_divisor (a b : Z) :
  findGCD a b = Z.gcd a b /\
  0 <= findGCD a b /\
  (findGCD a b | a) /\ (findGCD a b | b) /\
  forall c : Z, (c | a) -> (c | b) -> (c | findGCD a b).
Proof.
  rewrite findGCD_gcd. split; [reflexivity|].
  split; [apply Z.gcd_nonneg|].
  split; [apply Z.gcd_divide_l|].
  split; [apply Z.gcd_divide_r|].
  intros c Ha Hb. apply Z.gcd_greatest; assumption.
Qed.

(** *** White space *)

Lemma removeWhiteSpace_trimStart (s : jsstring) :
  removeWhiteSpace (trimStart s) = removeWhiteSpace s.
Proof.
  induction s as [|c t IH]; [reflexivity|].
  cbn [trimStart]. destruct (isWhiteSpace c) eqn:E; [|reflexivity].
  rewrite IH. unfold removeWhiteSpace. cbn [filter]. rewrite E. reflexivity.
Qed.

Lemma removeWhiteSpace_trim (s : jsstring) :
  removeWhiteSpace (trim s) = removeWhiteSpace s.
Proof.
  unfold trim. unfold removeWhiteSpace at 1. rewrite filter_rev.
  fold (removeWhiteSpace (trimStart (rev (trimStart s)))).
  rewrite removeWhiteSpace_trimStart.
  unfold removeWhiteSpace at 1. rewrite filter_rev, rev_involutive.
  apply removeWhiteSpace_trimStart.
Qed.

Lemma removeWhiteSpace_idempotent (s : jsstring) :
  removeWhiteSpace (removeWhiteSpace s) = removeWhiteSpace s.
Proof.
  unfold removeWhiteSpace. induction s as [|c t IH]; [reflexivity|].
  cbn [filter]. destruct (isWhiteSpace c) eqn:E; cbn [negb]; [exact IH|].
  cbn [filter]. rewrite E. cbn [negb]. rewrite IH. reflexivity.
Qed.

(** X2.  White space is ignored wherever it stands: a string parses,
    and validates, like the string with all its white space taken
    out, so two strings with the same other characters parse alike. *)
Theorem fractionToDecimal_ignores_white_space (s : jsstring) :
  fractionToDecimal s = fractionToDecimal (removeWhiteSpace s) /\
  isValidFractionString s = isValidFractionString (removeWhiteSpace s) /\
  forall t : jsstring,
    removeWhiteSpace s = removeWhiteSpace t ->
    fractionToDecimal s = fractionToDecimal t /\
    isValidFractionString s = isValidFractionString t.
Proof.
  assert (H : forall u,
             fractionToDecimal u = fractionToDecimal (removeWhiteSpace u) /\
             isValidFractionString u
             = isValidFractionString (removeWhiteSpace u)).
  { intros u. unfold fractionToDecimal, isValidFractionString.
    rewrite !removeWhiteSpace_trim, removeWhiteSpace_idempotent.
    split; reflexivity. }
  split; [apply H|]. split; [apply H|].
  intros t E. destruct (H s) as [H1 H2]. destruct (H t) as [H3 H4].
  rewrite H1, H2, H3, H4, E. split; reflexivity.
Qed.

(** *** Strings that do not start with a digit *)

Lemma clean_cons (c : N) (s : jsstring) :
  isWhiteSpace c = false ->
  removeWhiteSpace (trim (c :: s)) = c :: removeWhiteSpace s.
Proof.
  intros E. rewrite removeWhiteSpace_trim. unfold removeWhiteSpace.
  cbn [filter]. rewrite E. reflexivity.
Qed.

Lemma leading_nondigit_rejected (c : N) (s : jsstring) :
  isDigit c = false -> isWhiteSpace c = false ->
  fractionToDecimal (c :: s) = None /\
  isValidFractionString (c :: s) = false.
Proof.
  intros Hd Hw. unfold fractionToDecimal, isValidFractionString.
  rewrite (clean_cons c s Hw).
  unfold testWhole, testSimple, testMixed.
  cbn [isEmpty negb forallb spanDigits]. rewrite Hd.
  cbn [andb]. split; reflexivity.
Qed.

(** *** The parts of the result of [decimalToFraction] *)

(** The search keeps its best fraction between 0 and 1 and its best
    denominator below the next one to be tried. *)
Local Open Scope Q_scope.

Lemma round_below (x : Q) (den : Z) :
  x < inject_Z den -> (JsNumber.round x <= den)%Z.
Proof.
  intros H. destruct (round_bounds x) as [H1 _].
  assert (H2 : inject_Z (JsNumber.round x) < inject_Z (den + 1)).
  { rewrite inject_Z_plus. change (inject_Z 1) with 1. lra. }
  rewrite <- Zlt_Qlt in H2. lia.
Qed.

Lemma search_range (frac : Q) (steps : nat) :
  0 <= frac -> frac < 1 ->
  forall (den : Z) (b : best),
    (1 <= den)%Z ->
    (1 <= bestDenominator b < Z.max 2 den)%Z ->
    (0 <= bestNumerator b <= bestDenominator b)%Z ->
    let r := search frac steps den b in
    (1 <= bestDenominator r < Z.max 2 (den + Z.of_nat steps))%Z /\
    (0 <= bestNumerator r <= bestDenominator r)%Z.
Proof.
  intros Hf0 Hf1. induction steps as [|steps IH]; intros den b Hden Hbd Hbn.
  - cbn [search]. cbv zeta. split; [lia | exact Hbn].
  - cbv zeta. rewrite search_S. cbv zeta.
    assert (Hnum : (0 <= JsNumber.round (frac * inject_Z den) <= den)%Z).
    { assert (Hd : 0 < inject_Z den) by (rewrite <- (Zlt_Qlt 0); lia).
      split.
      - apply round_nonneg. apply Qmult_le_0_compat; lra.
      - apply round_below.
        setoid_replace (inject_Z den) with (1 * inject_Z den) at 2 by ring.
        apply Qmult_lt_compat_r; assumption. }
    destruct (Qlt_le_dec _ (bestError b)).
    + destruct (Qlt_le_dec _ exactThreshold).
      * cbn [bestDenominator bestNumerator]. split; lia.
      * specialize (IH (den + 1)%Z
                       (Best (JsNumber.round (frac * inject_Z den)) den
                             (errorAt frac den))).
        cbv zeta in IH. cbn [bestDenominator bestNumerator] in IH.
        destruct IH as [I1 I2]; lia.
    + specialize (IH (den + 1)%Z b). cbv zeta in IH.
      destruct IH as [I1 I2]; lia.
Qed.

(** The search never makes the best error larger. *)
Lemma search_decreasing (frac : Q) (steps : nat) :
  forall (den : Z) (b : best),
    bestError (search frac steps den b) <= bestError b.
Proof.
  induction steps as [|steps IH]; intros den b.
  - apply Qle_refl.
  - rewrite search_S. cbv zeta.
    destruct (Qlt_le_dec _ (bestError b)) as [Hlt|Hge].
    + destruct (Qlt_le_dec _ exactThreshold).
      * cbn [bestError]. lra.
      * eapply Qle_trans; [apply IH|]. cbn [bestError]. lra.
    + apply IH.
Qed.

(** Unless it stops at an error below the threshold, the search ends
    with an error no larger than that of any denominator it passed. *)
Lemma search_error_all (frac : Q) (steps : nat) :
  forall (den : Z) (b : best),
    bestError (search frac steps den b) <= exactThreshold \/
    forall j : Z,
      (den <= j < den + Z.of_nat steps)%Z ->
      bestError (search frac steps den b) <= errorAt frac j.
Proof.
  induction steps as [|steps IH]; intros den b.
  - right. intros j Hj. lia.
  - rewrite search_S. cbv zeta.
    destruct (Qlt_le_dec _ (bestError b)) as [Hlt|Hge].
    + destruct (Qlt_le_dec _ exactThreshold) as [Hex|Hnex].
      * left. cbn [bestError]. lra.
      * set (b' := Best (JsNumber.round (frac * inject_Z den)) den
                        (errorAt frac den)).
        destruct (IH (den + 1)%Z b') as [Hl|Hr]; [left; exact Hl|].
        right. intros j Hj.
        destruct (Z.eq_dec j den) as [->|Hne].
        -- apply (search_decreasing frac steps (den + 1)%Z b').
        -- apply Hr. lia.
    + destruct (IH (den + 1)%Z b) as [Hl|Hr]; [left; exact Hl|].
      right. intros j Hj.
      destruct (Z.eq_dec j den) as [->|Hne].
      * eapply Qle_trans; [apply search_decreasing | exact Hge].
      * apply Hr. lia.
Qed.

(** The best fraction the search returns from its initial state. *)
Lemma search_result (frac : Q) (m : nat) :
  0 <= frac -> frac < 1 ->
  let b := search frac m 1 (Best 0 1 frac) in
  good frac b /\
  (1 <= bestDenominator b <= Z.max 1 (Z.of_nat m))%Z /\
  (0 <= bestNumerator b <= bestDenominator b)%Z.
Proof.
  intros Hf0 Hf1. cbv zeta. split.
  - apply search_good; [exact Hf0 | lia |].
    repeat split; cbn [bestNumerator bestDenominator bestError]; try lia.
    setoid_replace (frac - inject_Z 0 / inject_Z 1) with frac
      by (unfold Qdiv; change (inject_Z 0) with 0; ring).
    rewrite Qabs_pos by exact Hf0. reflexivity.
  - pose proof (search_range frac m Hf0 Hf1 1%Z (Best 0 1 frac)) as H.
    cbv zeta in H. cbn [bestNumerator bestDenominator] in H.
    destruct H as [H1 H2]; lia.
Qed.

(** Dividing by the greatest common divisor gives lowest terms. *)
Lemma reduce_lowest (n den : Z) :
  (0 <= n <= den)%Z -> (1 <= den)%Z ->
  let g := Z.gcd n den in
  (0 <= n / g <= den / g)%Z /\ (1 <= den / g <= den)%Z /\
  Z.gcd (n / g) (den / g) = 1%Z.
Proof.
  intros Hn Hden. cbv zeta.
  set (g := Z.gcd n den).
  assert (Hg0 : (0 <= g)%Z) by apply Z.gcd_nonneg.
  assert (Hgn : g <> 0%Z).
  { unfold g. intros E. apply Z.gcd_eq_0_r in E. lia. }
  assert (Hg : (0 < g)%Z) by lia.
  destruct (Z.gcd_divide_r n den) as [k Hk]. fold g in Hk.
  assert (Hdk : (den / g = k)%Z) by (rewrite Hk; apply Z.div_mul; exact Hgn).
  split; [|split].
  - split; [apply Z.div_pos; lia | apply Z.div_le_mono; lia].
  - rewrite Hdk. nia.
  - apply Z.gcd_div_gcd; [exact Hgn | reflexivity].
Qed.

(** What [decimalToFraction] prints for a value that is not an
    integer. *)
Lemma decimalToFraction_shape (d : Q) (m : nat) :
  0 <= d -> ~ d - inject_Z (Qfloor d) == 0 ->
  decimalToFraction (Fin d) m
  = (if (Qfloor d =? 0)%Z then [] else ofInt (Qfloor d) ++ [hyphen])
      ++ ofInt (bestNumerator
                  (search (d - inject_Z (Qfloor d)) m 1
                          (Best 0 1 (d - inject_Z (Qfloor d))))
                / Z.gcd (bestNumerator
                           (search (d - inject_Z (Qfloor d)) m 1
                                   (Best 0 1 (d - inject_Z (Qfloor d)))))
                        (bestDenominator
                           (search (d - inject_Z (Qfloor d)) m 1
                                   (Best 0 1 (d - inject_Z (Qfloor d))))))
      ++ [slash]
      ++ ofInt (bestDenominator
                  (search (d - inject_Z (Qfloor d)) m 1
                          (Best 0 1 (d - inject_Z (Qfloor d))))
                / Z.gcd (bestNumerator
                           (search (d - inject_Z (Qfloor d)) m 1
                                   (Best 0 1 (d - inject_Z (Qfloor d)))))
                        (bestDenominator
                           (search (d - inject_Z (Qfloor d)) m 1
                                   (Best 0 1 (d - inject_Z (Qfloor d)))))).
Proof.
  intros Hd Hfrac. unfold decimalToFraction.
  destruct (Qlt_le_dec d 0); [lra|].
  rewrite (Qabs_nonneg_eq d Hd). unfold JsNumber.floor.
  destruct (JsNumber.isZero _) eqn:Ez.
  - apply Qeq_bool_eq in Ez. contradiction.
  - rewrite !findGCD_gcd. cbn [app].
    destruct (Qfloor d =? 0)%Z; [reflexivity|].
    rewrite <- !app_assoc. reflexivity.
Qed.

Lemma decimalToFraction_lowest_parts (d : Q) (maxDenominator : nat) :
  0 <= d -> ~ d == inject_Z (Qfloor d) ->
  exists numerator denominator : Z,
    decimalToFraction (Fin d) maxDenominator
    = (if (Qfloor d =? 0)%Z then [] else ofInt (Qfloor d) ++ [hyphen])
        ++ ofInt numerator ++ [slash] ++ ofInt denominator /\
    (0 <= numerator <= denominator)%Z /\
    (1 <= denominator <= Z.max 1 (Z.of_nat maxDenominator))%Z /\
    Z.gcd numerator denominator = 1%Z.
Proof.
  intros Hd Hni.
  assert (Hfrac : ~ d - inject_Z (Qfloor d) == 0) by (intros E; apply Hni; lra).
  rewrite (decimalToFraction_shape d maxDenominator Hd Hfrac).
  destruct (floor_fraction d Hd) as (_ & Hf0 & Hf1).
  destruct (search_result _ maxDenominator Hf0 Hf1) as (_ & Hbd & Hbn).
  set (b := search _ _ _ _) in *.
  destruct (reduce_lowest _ _ Hbn ltac:(lia)) as (R1 & R2 & R3).
  eexists _, _. split; [reflexivity|].
  split; [exact R1|]. split; [lia | exact R3].
Qed.

(** X3.  For a value that is not negative and not an integer,
    [decimalToFraction] prints the whole part (unless it is 0) and a
    fraction in lowest terms whose denominator does not exceed
    [maxDenominator]; the numerator lies between 0 and the
    denominator, both included. *)
Theorem decimalToFraction_lowest_terms (d : Q) (maxDenominator : nat) :
  0 <= d -> ~ d == inject_Z (Qfloor d) ->
  exists numerator denominator : Z,
    decimalToFraction (Fin d) maxDenominator
    = (if (Qfloor d =? 0)%Z then [] else ofInt (Qfloor d) ++ [hyphen])
        ++ ofInt numerator ++ [slash] ++ ofInt denominator /\
    (0 <= numerator <= denominator)%Z /\
    (1 <= denominator <= Z.max 1 (Z.of_nat maxDenominator))%Z /\
    Z.gcd numerator denominator = 1%Z.
Proof. apply decimalToFraction_lowest_parts. Qed.

Lemma decimalToFraction_lowest_terms_witness :
  exists numerator denominator : Z,
    decimalToFraction (Fin (5 # 2)) 16
    = (if (Qfloor (5 # 2) =? 0)%Z then []
       else ofInt (Qfloor (5 # 2)) ++ [hyphen])
        ++ ofInt numerator ++ [slash] ++ ofInt denominator /\
    (0 <= numerator <= denominator)%Z /\
    (1 <= denominator <= Z.max 1 (Z.of_nat 16))%Z /\
    Z.gcd numerator denominator = 1%Z.
Proof.
  apply (decimalToFraction_lowest_terms (5 # 2) 16).
  - unfold Qle. simpl. lia.
  - intros E. vm_compute in E. discriminate.
Defined.

(** *** Negative values *)

Lemma Qabs_opp_eq (d : Q) : Qabs (- d) = Qabs d.
Proof.
  destruct d as [n p]. unfold Qopp, Qabs. cbn [Qnum Qden].
  rewrite Z.abs_opp. reflexivity.
Qed.

Lemma decimalToFraction_negative (d : Q) (maxDenominator : nat) :
  d < 0 ->
  decimalToFraction (Fin d) maxDenominator
  = hyphen :: decimalToFraction (Fin (- d)) maxDenominator /\
  fractionToDecimal (decimalToFraction (Fin d) maxDenominator) = None /\
  isValidFractionString (decimalToFraction (Fin d) maxDenominator) = false.
Proof.
  intros Hd.
  assert (E : decimalToFraction (Fin d) maxDenominator
              = hyphen :: decimalToFraction (Fin (- d)) maxDenominator).
  { unfold decimalToFraction.
    destruct (Qlt_le_dec d 0); [|lra].
    destruct (Qlt_le_dec (- d) 0); [lra|].
    rewrite Qabs_opp_eq. cbv zeta.
    destruct (JsNumber.isZero _); [reflexivity|].
    destruct (_ =? 0)%Z; reflexivity. }
  split; [exact E|]. rewrite E.
  apply leading_nondigit_rejected; reflexivity.
Qed.

(** X4.  A negative value prints as a minus sign followed by what its
    absolute value prints as; [fractionToDecimal] and
    [isValidFractionString] reject every string that starts with a
    minus sign, so no negative value survives the round trip. *)
Theorem decimalToFraction_negative_not_parsed (d : Q) (maxDenominator : nat) :
  d < 0 ->
  decimalToFraction (Fin d) maxDenominator
  = hyphen :: decimalToFraction (Fin (- d)) maxDenominator /\
  (forall s : jsstring,
      fractionToDecimal (hyphen :: s) = None /\
      isValidFractionString (hyphen :: s) = false) /\
  fractionToDecimal (decimalToFraction (Fin d) maxDenominator) = None /\
  isValidFractionString (decimalToFraction (Fin d) maxDenominator) = false.
Proof.
  intros Hd. destruct (decimalToFraction_negative d maxDenominator Hd)
    as (E & H1 & H2).
  split; [exact E|]. split; [|split; assumption].
  intros s. apply leading_nondigit_rejected; reflexivity.
Qed.

Lemma decimalToFraction_negative_witness :
  decimalToFraction (Fin (- (5 # 2))) 16
  = hyphen :: decimalToFraction (Fin (- - (5 # 2))) 16 /\
  (forall s : jsstring,
      fractionToDecimal (hyphen :: s) = None /\
      isValidFractionString (hyphen :: s) = false) /\
  fractionToDecimal (decimalToFraction (Fin (- (5 # 2))) 16) = None /\
  isValidFractionString (decimalToFraction (Fin (- (5 # 2))) 16) = false.
Proof.
  apply (decimalToFraction_negative_not_parsed (- (5 # 2)) 16). reflexivity.
Defined.

(** *** Values that a fraction represents exactly *)

Lemma Qfloor_between (d : Q) (W : Z) :
  inject_Z W <= d -> d < inject_Z (W + 1) -> Qfloor d = W.
Proof.
  intros H1 H2. pose proof (Qfloor_le d) as F1.
  pose proof (Qlt_floor d) as F2.
  assert (A : inject_Z (Qfloor d) < inject_Z (W + 1)) by lra.
  assert (B : inject_Z W < inject_Z (Qfloor d + 1)) by lra.
  rewrite <- Zlt_Qlt in A, B. lia.
Qed.

Lemma round_integer (x : Q) (a : Z) : x == inject_Z a -> JsNumber.round x = a.
Proof.
  intros E. unfold JsNumber.round. apply Qfloor_between.
  - lra.
  - rewrite inject_Z_plus. change (inject_Z 1) with 1. lra.
Qed.

Lemma inject_Z_cross (a bd n den : Z) :
  inject_Z (a * bd - n * den)
  == inject_Z a * inject_Z bd - inject_Z n * inject_Z den.
Proof.
  replace (a * bd - n * den)%Z with (a * bd + - (n * den))%Z by lia.
  rewrite inject_Z_plus, inject_Z_opp, !inject_Z_mult. ring.
Qed.

(** Two fractions with small denominators that differ by no more than
    the threshold are equal. *)
Lemma close_fractions_equal (a den n bd : Z) :
  (1 <= den)%Z -> (1 <= bd)%Z -> (den * bd < 10000000)%Z ->
  Qabs (inject_Z a / inject_Z den - inject_Z n / inject_Z bd)
    <= exactThreshold ->
  (a * bd = n * den)%Z.
Proof.
  intros Hden Hbd Hsmall Hclose.
  assert (Hd : 0 < inject_Z den) by (rewrite <- (Zlt_Qlt 0); lia).
  assert (Hb : 0 < inject_Z bd) by (rewrite <- (Zlt_Qlt 0); lia).
  set (x := inject_Z a / inject_Z den - inject_Z n / inject_Z bd) in *.
  set (D := inject_Z den * inject_Z bd).
  assert (HD : 0 < D) by (apply Qmult_lt_0_compat; assumption).
  assert (HDs : D < 10000000).
  { unfold D. rewrite <- inject_Z_mult.
    change 10000000 with (inject_Z 10000000). rewrite <- Zlt_Qlt. exact Hsmall. }
  assert (E : x * D == inject_Z (a * bd - n * den)).
  { rewrite inject_Z_cross. unfold x, D. field. split; lra. }
  apply Qabs_Qle_condition in Hclose. destruct Hclose as [Hlo Hhi].
  unfold exactThreshold in *.
  assert (Hup : x * D <= (1 # 10000000) * D)
    by (apply Qmult_le_compat_r; lra).
  assert (Hdn : - (1 # 10000000) * D <= x * D)
    by (apply Qmult_le_compat_r; lra).
  assert (Z1 : inject_Z (a * bd - n * den) < inject_Z 1)
    by (change (inject_Z 1) with 1; lra).
  assert (Z2 : inject_Z (-1) < inject_Z (a * bd - n * den))
    by (change (inject_Z (-1)) with (-1 # 1); lra).
  rewrite <- Zlt_Qlt in Z1, Z2. lia.
Qed.

(** A fraction equal to one in lowest terms reduces to it. *)
Lemma lowest_terms_unique (a den n bd : Z) :
  (a * bd = n * den)%Z -> Z.gcd a den = 1%Z ->
  (1 <= den)%Z -> (1 <= bd)%Z ->
  (n / Z.gcd n bd = a)%Z /\ (bd / Z.gcd n bd = den)%Z.
Proof.
  intros Hcross Hgcd Hden Hbd.
  assert (Hdiv : (den | bd)%Z).
  { apply (Z.gauss den a bd).
    - exists n. lia.
    - rewrite Z.gcd_comm. exact Hgcd. }
  destruct Hdiv as [k Hk].
  assert (Hkpos : (1 <= k)%Z) by nia.
  assert (Hn : (n = a * k)%Z) by nia.
  assert (Hg : Z.gcd n bd = k).
  { rewrite Hn, Hk, (Z.mul_comm k den).
    rewrite Z.gcd_mul_mono_r_nonneg by lia. rewrite Hgcd. lia. }
  rewrite Hg. split.
  - rewrite Hn. apply Z.div_mul. lia.
  - rewrite Hk, (Z.mul_comm k den). apply Z.div_mul. lia.
Qed.

Lemma fraction_between (a den : Z) :
  (0 < a < den)%Z -> 0 < inject_Z a / inject_Z den /\
                     inject_Z a / inject_Z den < 1.
Proof.
  intros H.
  assert (Hd : 0 < inject_Z den) by (rewrite <- (Zlt_Qlt 0); lia).
  assert (Ha : 0 < inject_Z a) by (rewrite <- (Zlt_Qlt 0); lia).
  assert (Had : inject_Z a < inject_Z den) by (rewrite <- Zlt_Qlt; lia).
  split.
  - apply Qlt_shift_div_l; lra.
  - apply Qlt_shift_div_r; lra.
Qed.

(** A value [W + a/den] with [a/den] in lowest terms and [den] within
    the limit prints as exactly that. *)
Lemma decimalToFraction_exact (d : Q) (W a den : Z) (m : nat) :
  (0 <= W)%Z -> (0 < a < den)%Z ->
  (den <= Z.of_nat m)%Z -> (Z.of_nat m <= 3000)%Z ->
  Z.gcd a den = 1%Z ->
  d == inject_Z W + inject_Z a / inject_Z den ->
  decimalToFraction (Fin d) m
  = (if (W =? 0)%Z then [] else ofInt W ++ [hyphen])
      ++ ofInt a ++ [slash] ++ ofInt den.
Proof.
  intros HW Ha Hden Hm Hgcd Hd.
  destruct (fraction_between a den Ha) as [Hf0 Hf1].
  assert (HWq : 0 <= inject_Z W) by (rewrite <- (Zle_Qle 0); lia).
  assert (Hd0 : 0 <= d) by lra.
  assert (Hfloor : Qfloor d = W).
  { apply Qfloor_between; [lra|].
    rewrite inject_Z_plus. change (inject_Z 1) with 1. lra. }
  assert (Hfrac : d - inject_Z (Qfloor d) == inject_Z a / inject_Z den)
    by (rewrite Hfloor; lra).
  rewrite decimalToFraction_shape; [|exact Hd0 | lra].
  set (frac := d - inject_Z (Qfloor d)) in *.
  destruct (search_result frac m ltac:(lra) ltac:(lra)) as (Hgood & Hbd & Hbn).
  set (b := search frac m 1 (Best 0 1 frac)) in *.
  assert (Hdq : 0 < inject_Z den) by (rewrite <- (Zlt_Qlt 0); lia).
  assert (Hround : JsNumber.round (frac * inject_Z den) = a).
  { apply round_integer. rewrite Hfrac. field. lra. }
  assert (Herr0 : errorAt frac den == 0).
  { unfold errorAt. rewrite Hround.
    setoid_replace (frac - inject_Z a / inject_Z den) with 0 by lra.
    reflexivity. }
  assert (Hclose : bestError b <= exactThreshold).
  { destruct (search_error_all frac m 1%Z (Best 0 1 frac)) as [H|H];
      fold b in H; [exact H|].
    specialize (H den ltac:(lia)). rewrite Herr0 in H.
    unfold exactThreshold. lra. }
  destruct Hgood as (_ & _ & Hbe). rewrite Hbe, Hfrac in Hclose.
  assert (Hcross : (a * bestDenominator b = bestNumerator b * den)%Z).
  { apply close_fractions_equal; [lia | lia | nia | exact Hclose]. }
  destruct (lowest_terms_unique _ _ _ _ Hcross Hgcd ltac:(lia) ltac:(lia))
    as [Hn' Hd'].
  rewrite Hn', Hd', Hfloor. reflexivity.
Qed.

(** An integer value prints as the integer. *)
Lemma decimalToFraction_integer (d : Q) (z : Z) (m : nat) :
  (0 <= z)%Z -> d == inject_Z z -> decimalToFraction (Fin d) m = ofInt z.
Proof.
  intros Hz Hd.
  assert (Hzq : 0 <= inject_Z z) by (rewrite <- (Zle_Qle 0); lia).
  assert (Hd0 : 0 <= d) by lra.
  unfold decimalToFraction.
  destruct (Qlt_le_dec d 0); [lra|].
  rewrite (Qabs_nonneg_eq d Hd0). unfold JsNumber.floor.
  rewrite (Qfloor_comp _ _ Hd), Qfloor_Z.
  assert (E : JsNumber.isZero (d - inject_Z z) = true)
    by (apply Qeq_bool_iff; lra).
  rewrite E. reflexivity.
Qed.

(** X5.  Every value [W + a/den] with [0 < a < den], [a/den] in
    lowest terms and [den] no larger than [maxDenominator] (itself at
    most 3000) prints as exactly [W-a/den], or [a/den] when [W] is 0,
    and parses back to the same value: the round trip is exact. *)
Theorem decimalToFraction_exact_round_trip (W a den : Z) (maxDenominator : nat) :
  (0 <= W)%Z -> (0 < a < den)%Z ->
  (den <= Z.of_nat maxDenominator)%Z -> (Z.of_nat maxDenominator <= 3000)%Z ->
  Z.gcd a den = 1%Z ->
  let d := inject_Z W + inject_Z a / inject_Z den in
  decimalToFraction (Fin d) maxDenominator
  = (if (W =? 0)%Z then [] else ofInt W ++ [hyphen])
      ++ ofInt a ++ [slash] ++ ofInt den /\
  exists r : Q,
    fractionToDecimal (decimalToFraction (Fin d) maxDenominator)
    = Some (Fin r) /\ r == d.
Proof.
  intros HW Ha Hden Hm Hgcd d.
  assert (E : decimalToFraction (Fin d) maxDenominator
              = (if (W =? 0)%Z then [] else ofInt W ++ [hyphen])
                  ++ ofInt a ++ [slash] ++ ofInt den)
    by (apply decimalToFraction_exact; try assumption; reflexivity).
  split; [exact E|]. rewrite E.
  destruct (W =? 0)%Z eqn:EW.
  - apply Z.eqb_eq in EW. eexists. split.
    + cbn [app]. apply parse_simple; lia.
    + unfold d. rewrite EW. change (inject_Z 0) with 0. ring.
  - eexists. split.
    + rewrite <- app_assoc. apply parse_mixed; lia.
    + reflexivity.
Qed.

Lemma decimalToFraction_exact_witness :
  let d := inject_Z 2 + inject_Z 3 / inject_Z 8 in
  decimalToFraction (Fin d) 16
  = (if (2 =? 0)%Z then [] else ofInt 2 ++ [hyphen])
      ++ ofInt 3 ++ [slash] ++ ofInt 8 /\
  exists r : Q,
    fractionToDecimal (decimalToFraction (Fin d) 16) = Some (Fin r) /\ r == d.
Proof.
  apply (decimalToFraction_exact_round_trip 2 3 8 16); try lia.
  reflexivity.
Defined.

(** *** What [fractionToDecimal] returns *)











(** *** [formatFractionString] *)


(** A string of [formatFractionString]'s own making that it would
    change again is of the form [W-0/1], [W-1/1], [0/1] or [1/1]: once
    more and the result stays. *)
Lemma format_fixed_after_integer (z : Z) :
  (0 <= z)%Z -> formatFractionString (ofInt z) = ofInt z.
Proof.
  intros Hz. unfold formatFractionString. rewrite (parse_whole z Hz).
  apply decimalToFraction_integer; [exact Hz | reflexivity].
Qed.

(** X7.  Formatting is not idempotent (99/100 becomes 1/1, which
    becomes 1), but it settles after two steps: what
    [formatFractionString] returns for a string it returned stays the
    same when formatted again. *)
Theorem formatFractionString_settles (s : jsstring) :
  formatFractionString (formatFractionString (formatFractionString s))
  = formatFractionString (formatFractionString s) /\
  formatFractionString (str "99/100") = str "1/1" /\
  formatFractionString (str "1/1") = str "1".
Proof.
  split; [|split].
  2:{ unfold formatFractionString.
      replace (fractionToDecimal (str "99/100"))
        with (Some (Fin ((99 # 1) / (100 # 1)))) by (vm_compute; reflexivity).
      unfold defaultMaxDenominator. rewrite decimalToFraction_shape.
      - vm_compute. reflexivity.
      - vm_compute. discriminate.
      - intros E. vm_compute in E. discriminate. }
  2:{ unfold formatFractionString.
      replace (fractionToDecimal (str "1/1"))
        with (Some (Fin ((1 # 1) / (1 # 1)))) by (vm_compute; reflexivity).
      apply (decimalToFraction_integer _ 1); [lia | reflexivity]. }
  assert (Hfix : forall c, formatFractionString c = c ->
                           formatFractionString (formatFractionString c)
                           = formatFractionString c)
    by (intros c E; rewrite !E; reflexivity).
  assert (Hint : forall z, (0 <= z)%Z ->
                   forall c, formatFractionString c = ofInt z ->
                     formatFractionString (formatFractionString c)
                     = formatFractionString c).
  { intros z Hz c E. rewrite E. apply format_fixed_after_integer. exact Hz. }
  assert (Hnil : formatFractionString [] = []) by (vm_compute; reflexivity).
  assert (E0 : formatFractionString s
               = match fractionToDecimal s with
                 | None => s
                 | Some decimal => decimalToFraction decimal 16
                 end) by reflexivity.
  destruct (fractionToDecimal s) as [v|] eqn:Es.
  2:{ apply Hfix. rewrite E0. unfold formatFractionString. rewrite Es.
      reflexivity. }
  rewrite E0. clear E0.
  destruct v as [q| |neg].
  2:{ cbn [decimalToFraction]. rewrite !Hnil. reflexivity. }
  2:{ cbn [decimalToFraction]. rewrite !Hnil. reflexivity. }
  destruct (Qlt_le_dec q 0) as [Hneg|Hq0].
  { apply Hfix.
    destruct (decimalToFraction_negative q 16 Hneg) as (_ & E & _).
    unfold formatFractionString. rewrite E. reflexivity. }
  destruct (floor_fraction q Hq0) as (Hw & Hf0 & Hf1).
  destruct (Qeq_dec q (inject_Z (Qfloor q))) as [Hi|Hni].
  { apply (Hint (Qfloor q) Hw).
    rewrite (decimalToFraction_integer q (Qfloor q) 16 Hw Hi).
    apply format_fixed_after_integer. exact Hw. }
  destruct (decimalToFraction_lowest_parts q 16 Hq0 Hni)
    as (n & d & E & Hn & Hd & Hg).
  rewrite E.
  set (W := Qfloor q) in *.
  assert (Hparse : exists r,
             fractionToDecimal
               ((if (W =? 0)%Z then [] else ofInt W ++ [hyphen])
                  ++ ofInt n ++ [slash] ++ ofInt d) = Some (Fin r) /\
             r == inject_Z W + inject_Z n / inject_Z d).
  { destruct (W =? 0)%Z eqn:EW.
    - apply Z.eqb_eq in EW. eexists. split.
      + cbn [app]. apply parse_simple; lia.
      + rewrite EW. change (inject_Z 0) with 0. ring.
    - eexists. split.
      + rewrite <- app_assoc. apply parse_mixed; lia.
      + reflexivity. }
  destruct Hparse as (r & Hr & Hrv).
  assert (Hdq : 0 < inject_Z d) by (rewrite <- (Zlt_Qlt 0); lia).
  destruct (Z.eq_dec n 0) as [Hn0|Hn0].
  { (* W-0/1 *)
    apply (Hint W Hw). unfold formatFractionString. rewrite Hr.
    apply decimalToFraction_integer; [exact Hw|].
    rewrite Hrv, Hn0. change (inject_Z 0) with 0. field. lra. }
  destruct (Z.eq_dec n d) as [Hnd|Hnd].
  { (* W-1/1 *)
    apply (Hint (W + 1)%Z ltac:(lia)). unfold formatFractionString.
    rewrite Hr. apply decimalToFraction_integer; [lia|].
    rewrite Hrv, Hnd, inject_Z_plus. change (inject_Z 1) with 1.
    field. lra. }
  apply Hfix. unfold formatFractionString. rewrite Hr.
  change (Z.of_nat 16) with 16%Z in Hd.
  apply decimalToFraction_exact; try assumption;
    change (Z.of_nat defaultMaxDenominator) with 16%Z; lia.
Qed.

(** *** The result is never empty *)



End FractionExtras.

(** ** The input components *)

Module InputFacts.

Import JsString FractionMath FractionExtras RenderCommon Rendering.

(** *** [DimensionsInput] *)

Section Dimensions.

Import DimensionsInput.




End Dimensions.

(** *** [PolishedEdgesInput] *)

Section PolishedEdges.

Import PolishedEdgesInput.

Lemma includes_filter_same (polishedEdges : list jsstring) (edge : string) :
  includes (filter (differs edge) polishedEdges) edge = false.
Proof.
  unfold includes, differs. induction polishedEdges as [|e l IH];
    [reflexivity|].
  cbn [filter]. destruct (list_eq_dec N.eq_dec e (str edge)) as [E|E] eqn:D.
  - exact IH.
  - cbn [existsb]. rewrite D. exact IH.
Qed.

Lemma includes_filter_other (polishedEdges : list jsstring)
      (edge other : string) :
  str other <> str edge ->
  includes (filter (differs edge) polishedEdges) other
  = includes polishedEdges other.
Proof.
  intros Hne. unfold includes, differs.
  induction polishedEdges as [|e l IH]; [reflexivity|].
  cbn [filter existsb].
  destruct (list_eq_dec N.eq_dec e (str edge)) as [E|E].
  - destruct (list_eq_dec N.eq_dec e (str other)) as [E'|E'];
      [congruence | exact IH].
  - cbn [existsb]. rewrite IH. reflexivity.
Qed.

Lemma includes_app (a b : list jsstring) (side : string) :
  includes (a ++ b) side = includes a side || includes b side.
Proof. unfold includes. apply existsb_app. Qed.

Lemma includes_single (edge other : string) :
  includes [str edge] other
  = if list_eq_dec N.eq_dec (str edge) (str other) then true else false.
Proof.
  unfold includes. cbn [existsb].
  destruct (list_eq_dec N.eq_dec (str edge) (str other)); reflexivity.
Qed.

Lemma toggleEdge_same (polishedEdges : list jsstring) (edge : string) :
  includes (toggleEdge polishedEdges edge) edge
  = negb (includes polishedEdges edge).
Proof.
  unfold toggleEdge. destruct (includes polishedEdges edge) eqn:E.
  - apply includes_filter_same.
  - rewrite includes_app, E, includes_single.
    destruct (list_eq_dec N.eq_dec (str edge) (str edge)); [reflexivity|].
    congruence.
Qed.

Lemma toggleEdge_other (polishedEdges : list jsstring) (edge other : string) :
  str other <> str edge ->
  includes (toggleEdge polishedEdges edge) other
  = includes polishedEdges other.
Proof.
  intros Hne. unfold toggleEdge. destruct (includes polishedEdges edge).
  - apply includes_filter_other. exact Hne.
  - rewrite includes_app, includes_single.
    destruct (list_eq_dec N.eq_dec (str edge) (str other)); [congruence|].
    apply orb_false_r.
Qed.

(** X9.  Clicking the check box of an edge flips whether the list of
    polished edges includes that edge and changes this for no other
    edge; clicking twice gives a list that includes the same edges as
    before, and the sides a renderer selects are the same again. *)
Theorem toggleEdge_flips_one_edge (polishedEdges : list jsstring)
        (edge : string) :
  includes (toggleEdge polishedEdges edge) edge
  = negb (includes polishedEdges edge) /\
  (forall other : string,
      str other <> str edge ->
      includes (toggleEdge polishedEdges edge) other
      = includes polishedEdges other) /\
  (forall other : string,
      includes (toggleEdge (toggleEdge polishedEdges edge) edge) other
      = includes polishedEdges other) /\
  selectedSides (toggleEdge (toggleEdge polishedEdges edge) edge)
  = selectedSides polishedEdges.
Proof.
  assert (Htwice : forall other : string,
             includes (toggleEdge (toggleEdge polishedEdges edge) edge) other
             = includes polishedEdges other).
  { intros other.
    destruct (list_eq_dec N.eq_dec (str other) (str edge)) as [E|E].
    - assert (Hsame : forall l, includes l other = includes l edge)
        by (intros l; unfold includes; rewrite E; reflexivity).
      rewrite !Hsame, !toggleEdge_same. apply negb_involutive.
    - rewrite !toggleEdge_other by exact E. reflexivity. }
  split; [apply toggleEdge_same|].
  split; [intros other; apply toggleEdge_other|].
  split; [exact Htwice|].
  unfold selectedSides. cbn [filter]. rewrite !Htwice. reflexivity.
Qed.

End PolishedEdges.

(** *** [clearAllStoredData] *)

Section Storage.

Import LocalStorage.

Lemma getItem_removeItem (st : storage) (removed key : string) :
  getItem (removeItem st removed) key
  = if String.eqb removed key then None else getItem st key.
Proof.
  unfold getItem, removeItem. induction st as [|[k v] st IH].
  - cbn. destruct (String.eqb removed key); reflexivity.
  - cbn [filter find fst snd].
    destruct (String.eqb k removed) eqn:Ekr; cbn [negb].
    + apply String.eqb_eq in Ekr. subst k.
      destruct (String.eqb removed key) eqn:Erk; [exact IH|].
      rewrite IH. reflexivity.
    + cbn [find fst snd]. destruct (String.eqb k key) eqn:Ekk.
      * apply String.eqb_eq in Ekk. subst k.
        rewrite String.eqb_sym, Ekr. reflexivity.
      * exact IH.
Qed.

(** X10.  [clearAllStoredData] removes the four keys of its list and
    no other: every other key reads as before, among them the key
    under which the project name is stored.  It returns [true]; when
    the storage cannot be reached it returns [false] and nothing is
    removed. *)
Theorem clearAllStoredData_removes_its_keys (st : storage) (key : string) :
  fst (clearAllStoredData true st) = true /\
  getItem (snd (clearAllStoredData true st)) key
  = (if existsb (fun removed => String.eqb removed key) keysToRemove
     then None else getItem st key) /\
  getItem (snd (clearAllStoredData true st)) projectNameKey
  = getItem st projectNameKey /\
  clearAllStoredData false st = (false, st).
Proof.
  assert (H : forall k,
             getItem (snd (clearAllStoredData true st)) k
             = (if existsb (fun removed => String.eqb removed k) keysToRemove
                then None else getItem st k)).
  { intros k. unfold clearAllStoredData, keysToRemove.
    cbn [snd fold_left existsb]. rewrite !getItem_removeItem.
    repeat match goal with
           | |- context [String.eqb ?a k] => destruct (String.eqb a k)
           end; reflexivity. }
  split; [reflexivity|]. split; [apply H|]. split; [|reflexivity].
  rewrite H. reflexivity.
Qed.

End Storage.

End InputFacts.

(** ** More about the exports *)

Module ExportExtras.

Import JsString ExportPipeline Document Delivery ExportFacts.
Local Open Scope nat_scope.

(** *** Safe file names *)





Section Library.

Variable splitTextToSize : jsstring -> Z -> list jsstring.
Variable addImageAccepts : jsstring -> bool.
Variable toLowerCase : jsstring -> jsstring.
Variable isIOS : bool.

Local Abbreviation addPieceToPDF :=
  (addPieceToPDF splitTextToSize addImageAccepts).
Local Abbreviation processPiece :=
  (processPiece splitTextToSize addImageAccepts).
Local Abbreviation processBatch :=
  (processBatch splitTextToSize addImageAccepts toLowerCase isIOS).
Local Abbreviation exportMultipleToPDF :=
  (exportMultipleToPDF splitTextToSize addImageAccepts toLowerCase isIOS).
Local Abbreviation finalizePDF := (finalizePDF toLowerCase isIOS).
Local Abbreviation exportToPDF :=
  (exportToPDF splitTextToSize addImageAccepts isIOS).
Local Abbreviation documentPiece :=
  (documentPiece splitTextToSize addImageAccepts).

(** Every case of [addPieceToPDF]: the piece there or not, with or
    without notes, first page or not, and the four states of the
    canvas. *)
Ltac every_piece it c :=
  unfold ExportPipeline.addPieceToPDF, imageOrPlaceholder, polishedEdgesText;
  destruct it as [it|]; [|reflexivity];
  destruct (polishedEdges (specsOf it));
  destruct (notesOf it);
  try match goal with |- context [hasText ?n] => destruct (hasText n) end;
  destruct c as [[[?d|]]|]; cbn [toDataURL];
  try match goal with
      |- context [addImageAccepts ?d] => destruct (addImageAccepts d)
      end;
  reflexivity.

(** *** The header and the pieces placed *)

Lemma addPieceToPDF_no_total c it i first :
  totalPiecesReported (addPieceToPDF c it i first) = [].
Proof. every_piece it c. Qed.

Lemma addPieceToPDF_no_delivery c it i first :
  filter isDelivery (addPieceToPDF c it i first) = [].
Proof. every_piece it c. Qed.

Lemma processPiece_no_total canvases specsArray i :
  totalPiecesReported (processPiece canvases specsArray i) = [].
Proof.
  unfold ExportPipeline.processPiece, totalPiecesReported.
  rewrite flat_map_app. fold (totalPiecesReported
    (addPieceToPDF (canvasAt canvases i) (nth_error specsArray i) i (i =? 0))).
  rewrite addPieceToPDF_no_total. destruct (0 <? i); reflexivity.
Qed.

Lemma flat_map_nil {A B : Type} (f : A -> list B) (l : list A) :
  (forall a, f a = []) -> flat_map f l = [].
Proof.
  intros H. induction l as [|a l IH]; [reflexivity|].
  cbn [flat_map]. rewrite H, IH. reflexivity.
Qed.

Lemma flat_map_nil_in {A B : Type} (f : A -> list B) (l : list A) :
  (forall a, In a l -> f a = []) -> flat_map f l = [].
Proof.
  intros H. induction l as [|a l IH]; [reflexivity|].
  cbn [flat_map]. rewrite H by (left; reflexivity).
  apply IH. intros b Hb. apply H. right. exact Hb.
Qed.

(** X12.  The project header of a multi-piece document reports the
    length of the list of pieces, whatever number of pieces the
    document goes on to hold: with fewer canvases than pieces the
    header announces more pieces than there are pages. *)
Theorem header_reports_the_length_of_the_piece_list
        canvases specsArray projectName isMobile :
  canvases <> [] -> specsArray <> [] ->
  let log :=
    snd (exportMultipleToPDF canvases specsArray projectName isMobile) in
  totalPiecesReported log = [List.length specsArray] /\
  List.length (pieceNumbers log)
  = Nat.min (List.length canvases) (List.length specsArray) /\
  (List.length canvases < List.length specsArray ->
   List.length (pieceNumbers log) < List.length specsArray).
Proof.
  intros Hc Hs. cbv zeta.
  rewrite (exportMultipleToPDF_valid splitTextToSize addImageAccepts
             toLowerCase isIOS canvases specsArray projectName isMobile
             Hc Hs).
  cbn [snd].
  assert (Hn : List.length
                 (pieceNumbers
                    (NewPDF
                       :: addProjectInfoToPDF (finalProjectNameOf projectName)
                            (List.length specsArray)
                       ++ processBatch canvases specsArray
                            (finalProjectNameOf projectName) isMobile
                            (Nat.min (List.length canvases)
                                     (List.length specsArray)) 0))
               = Nat.min (List.length canvases) (List.length specsArray)).
  { unfold pieceNumbers. cbn [addProjectInfoToPDF flat_map app].
    fold (pieceNumbers
            (processBatch canvases specsArray (finalProjectNameOf projectName)
               isMobile
               (Nat.min (List.length canvases) (List.length specsArray)) 0)).
    rewrite processBatch_pieceNumbers by lia.
    rewrite length_seq. lia. }
  split; [|split; [exact Hn | rewrite Hn; lia]].
  unfold totalPiecesReported. cbn [addProjectInfoToPDF flat_map app].
  f_equal.
  rewrite processBatch_measure
    by (intros [] He; try reflexivity; discriminate).
  apply flat_map_nil. intros i. apply processPiece_no_total.
Qed.

(** *** How the document is handed over *)

Lemma processPiece_no_delivery canvases specsArray i :
  filter isDelivery (processPiece canvases specsArray i) = [].
Proof.
  unfold ExportPipeline.processPiece. rewrite filter_app.
  rewrite addPieceToPDF_no_delivery. destruct (0 <? i); reflexivity.
Qed.

(** The batches end with [finalizePDF], and nothing before it hands
    the document over. *)
Lemma processBatch_ends canvases specsArray projectName isMobile
      totalPieces currentIndex :
  exists body : list event,
    processBatch canvases specsArray projectName isMobile
                 totalPieces currentIndex
    = body ++ finalizePDF projectName isMobile /\
    filter isDelivery body = [].
Proof.
  funelim (ExportPipeline.processBatch splitTextToSize addImageAccepts
             toLowerCase isIOS canvases specsArray projectName isMobile
             totalPieces currentIndex).
  - exists []. split; reflexivity.
  - destruct H as (body & Hbody & Hnone).
    eexists (flat_map _ _ ++ SetTimeout 10 :: body). split.
    + rewrite Hbody. rewrite <- app_assoc. reflexivity.
    + rewrite filter_app. cbn [filter isDelivery]. rewrite Hnone.
      rewrite app_nil_r. rewrite filter_as_flat_map, flat_map_flat_map.
      apply flat_map_nil. intros i. rewrite <- filter_as_flat_map.
      apply processPiece_no_delivery.
Qed.

(** X13.  A multi-piece export that passes validation hands the
    document over once, after everything else: on the desktop by one
    [save] under the safe project name, with no frame or window
    opened; on a mobile device through a hidden frame that is removed
    1500 ms later (and a new window on iOS), with no [save]. *)
Theorem exportMultipleToPDF_delivers_once_at_the_end
        canvases specsArray projectName isMobile :
  canvases <> [] -> specsArray <> [] ->
  let log :=
    snd (exportMultipleToPDF canvases specsArray projectName isMobile) in
  let name := finalProjectNameOf projectName in
  let handover :=
    if isMobile then
      [Output; CreateIframe; AppendIframe; SetIframeSrc]
        ++ (if isIOS then [WindowOpen] else [])
        ++ [SetTimeout 1500; RemoveIframe]
    else [Save (ProjectFile (toLowerCase (hyphenate false name)))] in
  (exists body : list event,
      log = body ++ handover /\ filter isDelivery body = []) /\
  saves log
  = (if isMobile then []
     else [ProjectFile (toLowerCase (hyphenate false name))]).
Proof.
  intros Hc Hs. cbv zeta.
  rewrite (exportMultipleToPDF_valid splitTextToSize addImageAccepts
             toLowerCase isIOS canvases specsArray projectName isMobile
             Hc Hs).
  cbn [snd].
  destruct (processBatch_ends canvases specsArray
              (finalProjectNameOf projectName) isMobile
              (Nat.min (List.length canvases) (List.length specsArray)) 0)
    as (body & Hbody & Hnone).
  rewrite Hbody.
  assert (Hsaves : forall l, filter isDelivery l = [] -> saves l = []).
  { intros l. unfold saves. induction l as [|e l IH]; [reflexivity|].
    cbn [filter flat_map]. destruct e; cbn [isDelivery]; try discriminate;
      intros H; rewrite (IH H); reflexivity. }
  split.
  - exists (NewPDF :: addProjectInfoToPDF (finalProjectNameOf projectName)
                        (List.length specsArray) ++ body).
    split.
    + cbn [app]. rewrite <- app_assoc. reflexivity.
    + cbn [addProjectInfoToPDF app filter isDelivery]. exact Hnone.
  - unfold saves. cbn [addProjectInfoToPDF app flat_map].
    rewrite flat_map_app. fold (saves body). rewrite (Hsaves body Hnone).
    unfold ExportPipeline.finalizePDF, mobileDelivery.
    destruct isMobile, isIOS; reflexivity.
Qed.

(** *** The single-piece export *)

(** X14.  [exportToPDF] starts by yielding for 10 ms.  It resolves
    exactly when the canvas converts to image data and [addImage]
    accepts it; the document then holds that one image on its one
    page, no error is logged, and the document is handed over.  When
    it rejects, one error is logged and nothing is handed over. *)
Theorem exportToPDF_resolves_when_the_image_is_embedded
        (c : canvas) (s : specs) (notes : option jsstring)
        (isMobile : bool) :
  let result := exportToPDF c s notes isMobile in
  let log := snd result in
  hd_error log = Some (SetTimeout 10) /\
  (fst result = Resolved <->
   exists imgData, toDataURL c = Some imgData /\
                   addImageAccepts imgData = true) /\
  (fst result = Resolved ->
   images log = match toDataURL c with Some d => [d] | None => [] end /\
   pageBreaks log = 0 /\ errorsLogged log = 0 /\
   filter isDelivery log = filter isDelivery (handlePDFDownload isIOS s isMobile) /\
   saves log
   = (if isMobile then []
      else [MockupFile (displayOf (displayWidth s) (width s))
                       (displayOf (displayHeight s) (height s))])) /\
  (fst result <> Resolved ->
   images log = [] /\ errorsLogged log = 1 /\
   filter isDelivery log = [] /\ saves log = []).
Proof.
  cbv zeta. unfold ExportPipeline.exportToPDF.
  destruct (toDataURL c) as [d|] eqn:Ed.
  2:{ cbn [fst snd hd_error].
      repeat split; try discriminate; try reflexivity.
      intros (x & Hx & _). discriminate. }
  unfold createSinglePiecePDF, handlePDFDownload, mobileDelivery,
    polishedEdgesText.
  destruct (polishedEdges s);
    destruct notes as [n|];
    try destruct (hasText (Some n));
    destruct (addImageAccepts d) eqn:Ea; cbn [fst snd hd_error];
    (split; [reflexivity|]);
    (split; [split; [intros H; try discriminate; eauto
                    | intros (x & Hx & Hy); try reflexivity;
                      apply RenderFacts.Some_inj in Hx; subst x; congruence]|]);
    (split; [intros H; try discriminate;
             destruct isMobile, isIOS; repeat split; reflexivity|]);
    intros H; try congruence; repeat split; reflexivity.
Qed.

(** *** Where the images go *)

(** The page of piece [i] in the document of a multi-piece export. *)
Lemma page_of_piece canvases specsArray projectName isMobile (i : nat) :
  canvases <> [] -> specsArray <> [] ->
  i < Nat.min (List.length canvases) (List.length specsArray) ->
  nth i (pages (snd (exportMultipleToPDF canvases specsArray projectName
                                         isMobile))) []
  = (if i =? 0
     then NewPDF :: addProjectInfoToPDF (finalProjectNameOf projectName)
                                        (List.length specsArray)
     else [])
      ++ documentPiece canvases specsArray i.
Proof.
  intros Hc Hs Hi.
  rewrite (pages_exportMultipleToPDF splitTextToSize addImageAccepts
             toLowerCase isIOS canvases specsArray projectName isMobile
             Hc Hs).
  destruct i as [|j]; [reflexivity|].
  cbn [nth Nat.eqb app]. rewrite nth_map_seq by lia. reflexivity.
Qed.

Lemma addPieceToPDF_imageExtents c it i (first : bool) :
  let top := if first then 100%Z else 65%Z in
  Forall (fun extent =>
            (top <= fst extent <= top + 60)%Z /\
            snd extent = (fst extent + 120)%Z)
         (imageExtents (addPieceToPDF c it i first)) /\
  List.length (imageExtents (addPieceToPDF c it i first))
  = List.length (images (addPieceToPDF c it i first)).
Proof.
  cbv zeta. unfold ExportPipeline.addPieceToPDF, imageOrPlaceholder,
    polishedEdgesText.
  destruct it as [it|]; [|split; [constructor | reflexivity]].
  destruct (polishedEdges (specsOf it));
    destruct (notesOf it) as [n|];
    try (pose proof (notesShift_bounds (splitTextToSize n MAX_TEXT_WIDTH));
         destruct (hasText (Some n)));
    destruct c as [[[d|]]|]; cbn [toDataURL];
    try destruct (addImageAccepts d);
    destruct first;
    cbn [app imageExtents images flat_map List.length];
    (split; [|reflexivity]);
    repeat constructor; cbn [fst snd];
    unfold PDF_MARGINS_top, IMAGE_SIZE_height, maxNotesShift in *; lia.
Qed.

(** X15.  In the document of a multi-piece export the image of a
    piece is 120 mm high and starts 100 mm from the top of the first
    page, 65 mm on the other pages, plus the shift for its notes of at
    most 60 mm.  On the first page it therefore always ends below the
    lower edge of the 210 mm page. *)
Theorem multi_piece_image_positions
        canvases specsArray projectName isMobile (i : nat) :
  canvases <> [] -> specsArray <> [] ->
  i < Nat.min (List.length canvases) (List.length specsArray) ->
  let log :=
    snd (exportMultipleToPDF canvases specsArray projectName isMobile) in
  let page := nth i (pages log) [] in
  let top := if i =? 0 then 100%Z else 65%Z in
  List.length (imageExtents page) = List.length (images page) /\
  Forall (fun extent =>
            (top <= fst extent <= top + 60)%Z /\
            snd extent = (fst extent + 120)%Z)
         (imageExtents page) /\
  (i = 0 ->
   Forall (fun extent => (PAGE_height < snd extent)%Z) (imageExtents page)).
Proof.
  intros Hc Hs Hi. cbv zeta.
  rewrite (page_of_piece canvases specsArray projectName isMobile i Hc Hs Hi).
  destruct (addPieceToPDF_imageExtents (canvasAt canvases i)
              (nth_error specsArray i) i (i =? 0)) as [HF HL].
  cbv zeta in HF.
  assert (Eext : imageExtents
                   ((if i =? 0
                     then NewPDF
                            :: addProjectInfoToPDF
                                 (finalProjectNameOf projectName)
                                 (List.length specsArray)
                     else [])
                      ++ documentPiece canvases specsArray i)
                 = imageExtents (addPieceToPDF (canvasAt canvases i)
                                   (nth_error specsArray i) i (i =? 0))).
  { unfold imageExtents. rewrite flat_map_app.
    unfold Document.documentPiece.
    rewrite measure_documentEvents
      by (intros [] He; try reflexivity; discriminate).
    destruct (i =? 0); reflexivity. }
  assert (Eimg : images
                   ((if i =? 0
                     then NewPDF
                            :: addProjectInfoToPDF
                                 (finalProjectNameOf projectName)
                                 (List.length specsArray)
                     else [])
                      ++ documentPiece canvases specsArray i)
                 = images (addPieceToPDF (canvasAt canvases i)
                             (nth_error specsArray i) i (i =? 0))).
  { unfold images. rewrite flat_map_app.
    unfold Document.documentPiece.
    rewrite measure_documentEvents
      by (intros [] He; try reflexivity; discriminate).
    destruct (i =? 0); reflexivity. }
  rewrite Eext, Eimg. split; [exact HL|]. split; [exact HF|].
  intros ->. cbn [Nat.eqb] in HF. revert HF. apply Forall_impl.
  intros extent [H1 H2]. unfold PAGE_height. lia.
Qed.

(** *** The sequential export *)

Local Abbreviation forEachPiece :=
  (SequentialExport.forEachPiece splitTextToSize addImageAccepts).
Local Abbreviation forEach :=
  (SequentialExport.forEach splitTextToSize addImageAccepts).

(** What is read off a page: the numbers of the titles on it, its
    images and its placeholders. *)
Local Abbreviation contentOf :=
  (fun page : list event =>
     (pieceNumbers page, (images page, placeholders page))).

Ltac every_sequential_piece it canvases index :=
  unfold SequentialExport.forEachPiece, imageOrPlaceholder,
    polishedEdgesText, slotOf;
  destruct (polishedEdges (specsOf it));
  destruct (notesOf it);
  try match goal with |- context [hasText ?n] => destruct (hasText n) end;
  destruct (canvasAt canvases index) as [[[?d|]]|]; cbn [toDataURL];
  try match goal with
      |- context [addImageAccepts ?d] => destruct (addImageAccepts d)
      end.

(** The first piece goes on the page of the header. *)
Lemma forEachPiece_first canvases it :
  filter isAddPage (documentEvents (forEachPiece canvases it 0)) = [] /\
  contentOf (documentEvents (forEachPiece canvases it 0))
  = ([1], slotOf addImageAccepts (canvasAt canvases 0)).
Proof.
  every_sequential_piece it canvases 0; split; reflexivity.
Qed.

(** Every later piece starts a page of its own. *)
Lemma forEachPiece_later canvases it index :
  exists body : list event,
    documentEvents (forEachPiece canvases it (S index)) = AddPage :: body /\
    filter isAddPage body = [] /\
    contentOf body
    = ([S index + 1], slotOf addImageAccepts (canvasAt canvases (S index))).
Proof.
  every_sequential_piece it canvases (S index);
    (eexists; split; [reflexivity|]; split; reflexivity).
Qed.

Lemma pages_forEach canvases (rest : list item) :
  forall (index : nat) (pre : list event),
    filter isAddPage pre = [] ->
    map contentOf
        (splitOn isAddPage
                 (pre ++ documentEvents (forEach canvases rest (S index))))
    = contentOf pre
        :: map (fun i => ([i + 1], slotOf addImageAccepts (canvasAt canvases i)))
               (seq (S index) (List.length rest)).
Proof.
  induction rest as [|it rest IH]; intros index pre Hpre.
  - cbn [SequentialExport.forEach documentEvents filter List.length seq map].
    rewrite app_nil_r.
    rewrite splitOn_none by (apply filter_nil_forallb; exact Hpre).
    reflexivity.
  - cbn [SequentialExport.forEach List.length seq map].
    unfold documentEvents. rewrite filter_app.
    fold (documentEvents (forEachPiece canvases it (S index))).
    fold (documentEvents (forEach canvases rest (S (S index)))).
    destruct (forEachPiece_later canvases it index)
      as (body & Hbody & Hnone & Hcontent).
    rewrite Hbody. cbn [app].
    rewrite splitOn_sep by reflexivity.
    rewrite splitOn_none by (apply filter_nil_forallb; exact Hpre).
    cbn [app map]. rewrite (IH (S index) body Hnone), Hcontent.
    reflexivity.
Qed.

(** X16.  The sequential export gives every piece of the list a page,
    however many canvases there are: page [i] holds the title of piece
    [i + 1] and its image, or a placeholder when its canvas is missing
    or fails.  So here every piece without a canvas has a
    placeholder. *)
Theorem sequential_export_gives_every_piece_a_page
        canvases specsArray projectName isMobile :
  canvases <> [] -> specsArray <> [] ->
  let result :=
    SequentialExport.exportMultipleToPDF splitTextToSize addImageAccepts
      toLowerCase isIOS canvases specsArray projectName isMobile in
  fst result = Resolved /\
  List.length (pages (snd result)) = List.length specsArray /\
  map (fun page => (pieceNumbers page, (images page, placeholders page)))
      (pages (snd result))
  = map (fun i => ([i + 1], slotOf addImageAccepts (canvasAt canvases i)))
        (seq 0 (List.length specsArray)) /\
  missingCanvasesHavePlaceholders canvases specsArray (snd result).
Proof.
  intros Hc Hs. cbv zeta.
  destruct canvases as [|c0 cs]; [congruence|].
  destruct specsArray as [|it rest]; [congruence|].
  unfold SequentialExport.exportMultipleToPDF. cbn [fst snd].
  remember (c0 :: cs) as canvases eqn:Ec. clear Ec Hc Hs.
  assert (Hpages :
            map contentOf
              (pages
                 (NewPDF
                    :: [SetFontSize 20;
                        Text (ProjectTitle (finalProjectNameOf projectName))
                             14 20;
                        SetFontSize 12; Text DateLine 14 30;
                        Text (TotalPieces (List.length (it :: rest))) 14 37]
                    ++ forEach canvases (it :: rest) 0
                    ++ (if isMobile
                        then SequentialExport.mobileDelivery isIOS
                        else [Save (ProjectFile
                                      (toLowerCase
                                         (hyphenate false
                                            (finalProjectNameOf
                                               projectName))))])))
            = map (fun i => ([i + 1],
                             slotOf addImageAccepts (canvasAt canvases i)))
                  (seq 0 (List.length (it :: rest)))).
  { unfold pages.
    change (NewPDF :: ?a ++ ?b) with ((NewPDF :: a) ++ b).
    unfold documentEvents. rewrite !filter_app.
    fold (documentEvents (forEach canvases (it :: rest) 0)).
    replace (filter isDocumentEvent
               (if isMobile then SequentialExport.mobileDelivery isIOS
                else [Save (ProjectFile
                              (toLowerCase
                                 (hyphenate false
                                    (finalProjectNameOf projectName))))]))
      with (@nil event)
      by (unfold SequentialExport.mobileDelivery;
          destruct isMobile, isIOS; reflexivity).
    rewrite app_nil_r.
    cbn [SequentialExport.forEach]. unfold documentEvents at 1.
    rewrite filter_app.
    fold (documentEvents (forEachPiece canvases it 0)).
    fold (documentEvents (forEach canvases rest 1)).
    rewrite app_assoc.
    destruct (forEachPiece_first canvases it) as [Hnone Hcontent].
    rewrite pages_forEach.
    - cbn [List.length seq map]. f_equal.
      change (0 + 1) with 1.
      rewrite <- Hcontent. unfold pieceNumbers, images, placeholders.
      rewrite !flat_map_app. reflexivity.
    - rewrite filter_app, Hnone. reflexivity. }
  split; [reflexivity|].
  assert (Hlen : List.length
                   (pages
                      (NewPDF
                         :: [SetFontSize 20;
                             Text (ProjectTitle
                                     (finalProjectNameOf projectName)) 14 20;
                             SetFontSize 12; Text DateLine 14 30;
                             Text (TotalPieces (List.length (it :: rest)))
                                  14 37]
                         ++ forEach canvases (it :: rest) 0
                         ++ (if isMobile
                             then SequentialExport.mobileDelivery isIOS
                             else [Save (ProjectFile
                                           (toLowerCase
                                              (hyphenate false
                                                 (finalProjectNameOf
                                                    projectName))))])))
                 = List.length (it :: rest)).
  { rewrite <- (length_map contentOf), Hpages, length_map, length_seq.
    reflexivity. }
  split; [exact Hlen|]. split; [exact Hpages|].
  intros i Hi Hnone.
  set (log := _ :: _ ++ _ ++ _) in *.
  assert (E : contentOf (nth i (pages log) [])
              = ([i + 1], slotOf addImageAccepts (canvasAt canvases i))).
  { change (contentOf (nth i (pages log) []))
      with ((fun page : list event => contentOf page) (nth i (pages log) [])).
    rewrite <- (map_nth (fun page : list event => contentOf page)).
    rewrite Hpages.
    rewrite (nth_indep _ _ ([0 + 1], slotOf addImageAccepts (canvasAt canvases 0)))
      by (rewrite length_map, length_seq; exact Hi).
    rewrite (map_nth (fun i => ([i + 1],
                                slotOf addImageAccepts (canvasAt canvases i)))).
    rewrite seq_nth by exact Hi. reflexivity. }
  rewrite Hnone in E. cbn [slotOf] in E. congruence.
Qed.

(** X17.  The sequential single-piece export places the image 85 mm
    from the top when there are notes and 65 mm when there are none,
    whatever their length: the image always ends on the page. *)
Theorem sequential_single_image_stays_on_page
        (c : canvas) (s : specs) (notes : option jsstring)
        (isMobile : bool) :
  let result :=
    SequentialExport.exportToPDF splitTextToSize addImageAccepts isIOS
      c s notes isMobile in
  Forall (fun extent => (snd extent <= PAGE_height)%Z)
         (imageExtents (snd result)) /\
  (fst result = Resolved ->
   imageExtents (snd result)
   = [((if hasText notes then 85 else 65)%Z,
       (if hasText notes then 205 else 185)%Z)]).
Proof.
  cbv zeta. unfold SequentialExport.exportToPDF, polishedEdgesText,
    SequentialExport.mobileDelivery.
  destruct (polishedEdges s);
    destruct notes as [n|];
    try destruct (hasText (Some n)) eqn:En;
    destruct (toDataURL c) as [d|];
    try destruct (addImageAccepts d);
    destruct isMobile, isIOS; cbn [fst snd];
    (split; [|intros H; try discriminate; try reflexivity]);
    cbn; repeat constructor; cbn; unfold PAGE_height; try lia.
Qed.

(** *** The fraction-display wrappers *)






End Library.

(** *** [MultiPieceExport]: exporting the saved pieces *)

Section SavedPieces.

Import MultiPieceExport.

Variable splitTextToSize : jsstring -> Z -> list jsstring.
Variable addImageAccepts : jsstring -> bool.
Variable toLowerCase : jsstring -> jsstring.
Variable isIOS : bool.
Variable renderProgress : nat -> nat -> Z.

Local Abbreviation handleExportPDF :=
  (handleExportPDF splitTextToSize addImageAccepts toLowerCase isIOS
                   renderProgress).
Local Abbreviation exportMultipleToPDF :=
  (exportMultipleToPDF splitTextToSize addImageAccepts toLowerCase isIOS).

Lemma exportLog_app (a b : list action) :
  exportLog (a ++ b) = exportLog a ++ exportLog b.
Proof. apply flat_map_app. Qed.

Lemma exportLog_exporting (log : list event) :
  exportLog (map Exporting log) = log.
Proof.
  unfold exportLog. induction log as [|e log IH]; [reflexivity|].
  cbn [map flat_map app]. rewrite IH. reflexivity.
Qed.

Lemma exportLog_renderAll canvasRefs pieces :
  exportLog (renderAll renderProgress canvasRefs pieces) = [].
Proof.
  unfold renderAll, exportLog. rewrite flat_map_flat_map.
  apply flat_map_nil. intros i.
  destruct (canvasAt canvasRefs i); reflexivity.
Qed.

Lemma toasts_app (a b : list action) :
  toasts (a ++ b) = toasts a ++ toasts b.
Proof. apply flat_map_app. Qed.

Lemma toasts_exporting (log : list event) : toasts (map Exporting log) = [].
Proof.
  unfold toasts. induction log as [|e log IH]; [reflexivity|].
  cbn [map flat_map app]. exact IH.
Qed.

Lemma toasts_renderAll canvasRefs pieces :
  toasts (renderAll renderProgress canvasRefs pieces) = [].
Proof.
  unfold renderAll, toasts. rewrite flat_map_flat_map.
  apply flat_map_nil. intros i.
  destruct (canvasAt canvasRefs i); reflexivity.
Qed.

(** What the handler exports and which toast it shows. *)
Lemma handleExportPDF_export canvasRefs savedPieces projectName isMobile :
  savedPieces <> [] ->
  let result :=
    exportMultipleToPDF (validCanvases canvasRefs)
                        (map itemOfPiece savedPieces) projectName isMobile in
  exportLog (handleExportPDF canvasRefs savedPieces projectName isMobile)
  = snd result /\
  toasts (handleExportPDF canvasRefs savedPieces projectName isMobile)
  = match fst result with
    | Resolved => [(ExportedSuccessfully, success)]
    | Rejected errorMessage => [(ErrorExporting errorMessage, error)]
    end.
Proof.
  intros Hp. cbv zeta. unfold MultiPieceExport.handleExportPDF.
  destruct savedPieces as [|p ps]; [congruence|].
  remember (p :: ps) as savedPieces eqn:E. clear E Hp.
  destruct (exportMultipleToPDF _ _ _ _) as [result log]. cbn [fst snd].
  split.
  - rewrite !exportLog_app, exportLog_renderAll, exportLog_exporting.
    destruct result; cbn; rewrite app_nil_r; reflexivity.
  - rewrite !toasts_app, toasts_renderAll, toasts_exporting.
    destruct result; reflexivity.
Qed.

(** A canvas that passed the filter is there. *)
Lemma canvasAt_validCanvases canvasRefs (i : nat) :
  i < List.length (validCanvases canvasRefs) ->
  exists c : canvas, canvasAt (validCanvases canvasRefs) i = Some c.
Proof.
  intros Hi. unfold canvasAt.
  destruct (nth_error (validCanvases canvasRefs) i) as [c|] eqn:E;
    [|apply nth_error_None in E; lia].
  apply nth_error_In in E. unfold validCanvases in E.
  apply filter_In in E. destruct E as [_ E].
  destruct c as [c|]; [eauto | discriminate].
Qed.

Lemma slotOf_there (c : canvas) :
  ~ In NotAvailable (snd (slotOf addImageAccepts (Some c))).
Proof.
  unfold slotOf. destruct (toDataURL c) as [d|];
    [destruct (addImageAccepts d)|]; cbn; intuition discriminate.
Qed.

(** X20.  Exporting the saved pieces from the list view: the handler
    drops the missing canvases before it calls the export, so the
    document pairs piece [i] with the [i]-th canvas that is there, has
    as many pages as the shorter of the two lists, and never shows the
    message for a missing preview image.  With no canvas at all the
    export is rejected, nothing is built, and the error toast is
    shown; with no saved piece only a warning is shown. *)
Theorem handleExportPDF_pairs_pieces_with_present_canvases
        canvasRefs savedPieces projectName isMobile :
  savedPieces <> [] ->
  let actions := handleExportPDF canvasRefs savedPieces projectName isMobile in
  let log := exportLog actions in
  let valid := validCanvases canvasRefs in
  let n := Nat.min (List.length valid) (List.length savedPieces) in
  handleExportPDF canvasRefs [] projectName isMobile
  = [SetToast PleaseSave warning] /\
  (valid = [] ->
   documentEvents log = [] /\
   toasts actions
   = [(ErrorExporting "No canvases provided for PDF export", error)]) /\
  (valid <> [] ->
   toasts actions = [(ExportedSuccessfully, success)] /\
   List.length (pages log) = n /\
   ~ In NotAvailable (placeholders log) /\
   forall i : nat,
     i < n ->
     pieceNumbers (nth i (pages log) []) = [i + 1] /\
     (images (nth i (pages log) []), placeholders (nth i (pages log) []))
     = slotOf addImageAccepts (canvasAt valid i)).
Proof.
  intros Hp. cbv zeta. split; [reflexivity|].
  destruct (handleExportPDF_export canvasRefs savedPieces projectName
              isMobile Hp) as [Hlog Htoast].
  cbv zeta in Hlog, Htoast. rewrite Hlog, Htoast.
  set (valid := validCanvases canvasRefs) in *.
  set (items := map itemOfPiece savedPieces) in *.
  assert (Hitems : items <> [])
    by (unfold items; destruct savedPieces; [congruence | discriminate]).
  assert (Hlen : List.length items = List.length savedPieces)
    by (unfold items; apply length_map).
  split.
  - intros Hv. rewrite Hv. split; reflexivity.
  - intros Hv.
    rewrite (exportMultipleToPDF_valid splitTextToSize addImageAccepts
               toLowerCase isIOS valid items projectName isMobile Hv Hitems)
      at 1.
    cbn [fst]. split; [reflexivity|].
    assert (Hn : 1 <= Nat.min (List.length valid) (List.length items)).
    { destruct valid; [congruence|]. destruct items; [congruence|].
      cbn [List.length]. lia. }
    split; [|split].
    + rewrite (pages_exportMultipleToPDF splitTextToSize addImageAccepts
                 toLowerCase isIOS valid items projectName isMobile
                 Hv Hitems).
      cbn [List.length]. rewrite length_map, length_seq, <- Hlen. lia.
    + rewrite (exportMultipleToPDF_valid splitTextToSize addImageAccepts
                 toLowerCase isIOS valid items projectName isMobile
                 Hv Hitems).
      cbn [snd]. unfold placeholders.
      cbn [addProjectInfoToPDF app flat_map].
      rewrite processBatch_measure
        by (intros [] He; try reflexivity; discriminate).
      rewrite Nat.sub_0_r. intros Hin. apply in_flat_map in Hin.
      destruct Hin as (i & Hi & Hin). apply in_seq in Hi.
      unfold ExportPipeline.processPiece in Hin.
      rewrite flat_map_app in Hin. apply in_app_or in Hin.
      destruct Hin as [Hin|Hin]; [destruct (0 <? i); cbn in Hin; intuition|].
      destruct (nth_error items i) as [it|] eqn:Eit;
        [|cbn in Hin; intuition].
      fold (placeholders
              (addPieceToPDF splitTextToSize addImageAccepts
                 (canvasAt valid i) (Some it) i (i =? 0))) in Hin.
      pose proof (addPieceToPDF_slot splitTextToSize addImageAccepts
                    (canvasAt valid i) it i (i =? 0)) as Hslot.
      apply (f_equal snd) in Hslot. cbn [snd] in Hslot.
      rewrite Hslot in Hin.
      destruct (canvasAt_validCanvases canvasRefs i ltac:(fold valid; lia))
        as [c Hc].
      fold valid in Hc. rewrite Hc in Hin.
      exact (slotOf_there c Hin).
    + intros i Hi.
      rewrite (page_of_piece splitTextToSize addImageAccepts toLowerCase
                 isIOS valid items projectName isMobile i Hv Hitems)
        by lia.
      destruct (documentPiece_content splitTextToSize addImageAccepts
                  valid items i ltac:(lia)) as [Ht Hslot].
      unfold pieceNumbers, images, placeholders in *.
      rewrite !flat_map_app.
      destruct (i =? 0); cbn [addProjectInfoToPDF flat_map app];
        split; assumption.
Qed.

End SavedPieces.

(** *** The theorems at sample documents *)

Import Samples PieceSamples.

Lemma header_reports_the_length_witness :
  let log :=
    snd (exportMultipleToPDF splitAtLineFeeds acceptAll asciiToLowerCase
           false [rendered] [piece; piece] (str "Kitchen") false) in
  totalPiecesReported log = [List.length [piece; piece]] /\
  List.length (pieceNumbers log)
  = Nat.min (List.length [rendered]) (List.length [piece; piece]) /\
  (List.length [rendered] < List.length [piece; piece] ->
   List.length (pieceNumbers log) < List.length [piece; piece]).
Proof.
  apply (header_reports_the_length_of_the_piece_list splitAtLineFeeds
           acceptAll asciiToLowerCase false [rendered] [piece; piece]
           (str "Kitchen") false); discriminate.
Defined.

Lemma delivers_once_witness :
  let log :=
    snd (exportMultipleToPDF splitAtLineFeeds acceptAll asciiToLowerCase
           false fiveCanvases fivePieces (str "Kitchen") true) in
  let name := finalProjectNameOf (str "Kitchen") in
  let handover :=
    if true then
      [Output; CreateIframe; AppendIframe; SetIframeSrc]
        ++ (if false then [WindowOpen] else [])
        ++ [SetTimeout 1500; RemoveIframe]
    else [Save (ProjectFile (asciiToLowerCase (hyphenate false name)))] in
  (exists body : list event,
      log = body ++ handover /\ filter isDelivery body = []) /\
  saves log
  = (if true then []
     else [ProjectFile (asciiToLowerCase (hyphenate false name))]).
Proof.
  apply (exportMultipleToPDF_delivers_once_at_the_end splitAtLineFeeds
           acceptAll asciiToLowerCase false fiveCanvases fivePieces
           (str "Kitchen") true); discriminate.
Defined.

Lemma image_positions_witness :
  let log :=
    snd (exportMultipleToPDF splitAtLineFeeds acceptAll asciiToLowerCase
           false fiveCanvases fivePieces (str "Kitchen") false) in
  let page := nth 0 (pages log) [] in
  let top := if 0 =? 0 then 100%Z else 65%Z in
  List.length (imageExtents page) = List.length (images page) /\
  Forall (fun extent =>
            (top <= fst extent <= top + 60)%Z /\
            snd extent = (fst extent + 120)%Z)
         (imageExtents page) /\
  (0 = 0 ->
   Forall (fun extent => (PAGE_height < snd extent)%Z) (imageExtents page)).
Proof.
  apply (multi_piece_image_positions splitAtLineFeeds acceptAll
           asciiToLowerCase false fiveCanvases fivePieces (str "Kitchen")
           false 0); [discriminate | discriminate | cbn; lia].
Defined.

Lemma sequential_pages_witness :
  let result :=
    SequentialExport.exportMultipleToPDF splitAtLineFeeds acceptAll
      asciiToLowerCase false fiveCanvases fivePieces (str "Kitchen") false in
  fst result = Resolved /\
  List.length (pages (snd result)) = List.length fivePieces /\
  map (fun page => (pieceNumbers page, (images page, placeholders page)))
      (pages (snd result))
  = map (fun i => ([i + 1], slotOf acceptAll (canvasAt fiveCanvases i)))
        (seq 0 (List.length fivePieces)) /\
  missingCanvasesHavePlaceholders fiveCanvases fivePieces (snd result).
Proof.
  apply (sequential_export_gives_every_piece_a_page splitAtLineFeeds
           acceptAll asciiToLowerCase false fiveCanvases fivePieces
           (str "Kitchen") false); discriminate.
Defined.


Lemma saved_pieces_witness :
  let actions :=
    MultiPieceExport.handleExportPDF splitAtLineFeeds acceptAll
      asciiToLowerCase false halfProgress [None; rendered] [island; island]
      (str "Kitchen") false in
  let log := MultiPieceExport.exportLog actions in
  let valid := MultiPieceExport.validCanvases [None; rendered] in
  let n := Nat.min (List.length valid) (List.length [island; island]) in
  MultiPieceExport.handleExportPDF splitAtLineFeeds acceptAll
    asciiToLowerCase false halfProgress [None; rendered] [] (str "Kitchen")
    false
  = [MultiPieceExport.SetToast MultiPieceExport.PleaseSave
       MultiPieceExport.warning] /\
  (valid = [] ->
   documentEvents log = [] /\
   MultiPieceExport.toasts actions
   = [(MultiPieceExport.ErrorExporting "No canvases provided for PDF export",
       MultiPieceExport.error)]) /\
  (valid <> [] ->
   MultiPieceExport.toasts actions
   = [(MultiPieceExport.ExportedSuccessfully, MultiPieceExport.success)] /\
   List.length (pages log) = n /\
   ~ In NotAvailable (placeholders log) /\
   forall i : nat,
     i < n ->
     pieceNumbers (nth i (pages log) []) = [i + 1] /\
     (images (nth i (pages log) []), placeholders (nth i (pages log) []))
     = slotOf acceptAll (canvasAt valid i)).
Proof.
  apply (handleExportPDF_pairs_pieces_with_present_canvases splitAtLineFeeds
           acceptAll asciiToLowerCase false halfProgress [None; rendered]
           [island; island] (str "Kitchen") false); discriminate.
Defined.

End ExportExtras.

(** ** More about the renderers *)

Module RenderExtras.

Import JsString Canvas Stone RenderCommon Rendering RenderReading RenderFacts.
Local Open Scope Q_scope.

(** *** The layout *)


(** *** Loops *)

(** What holds of every turn of a loop holds of the loop; the turns
    may rely on an invariant of the counter and on the loop
    condition. *)
Lemma forUpTo_Forall (P : call -> Prop) (inv : Q -> Prop)
      (body : Q -> list call) (limit step : Q) :
  (forall i, inv i -> inv (i + step)) ->
  (forall i, inv i -> i <= limit -> Forall P (body i)) ->
  forall (fuel : nat) (i : Q) (calls : list call),
    inv i ->
    forUpTo fuel i limit step body = Some calls -> Forall P calls.
Proof.
  intros Hstep Hbody. induction fuel as [|fuel IH]; intros i calls Hi H;
    [discriminate|].
  cbn [forUpTo] in H. destruct (Qle_bool i limit) eqn:E.
  - destruct (forUpTo fuel (i + step) limit step body) as [rest|] eqn:Er;
      [|discriminate].
    apply Some_inj in H. subst calls. apply Forall_app. split.
    + apply Hbody; [exact Hi | apply Qle_bool_iff; exact E].
    + apply (IH (i + step) rest); [apply Hstep; exact Hi | exact Er].
  - apply Some_inj in H. subst calls. constructor.
Qed.

Lemma forEachMark_Forall (P : call -> Prop) (body : Q -> list call)
      (i limit : Q) :
  (forall j, Forall P (body j)) -> Forall P (forEachMark i limit body).
Proof.
  funelim (forEachMark i limit body); intros Hbody; [|constructor].
  apply Forall_app. split; [apply Hbody | apply H; exact Hbody].
Qed.

Lemma Forall_forallb {A : Type} (p : A -> bool) (l : list A) :
  Forall (fun a => p a = true) l <-> forallb p l = true.
Proof.
  rewrite forallb_forall, Forall_forall. reflexivity.
Qed.

(** *** Where the X marks go *)







(** *** The grid and the piece *)

Lemma drawGrid_inside (fuel : nat) (x y width height scale : Q)
      (calls : list call) :
  0 <= width -> 0 <= height -> 0 <= scale ->
  RenderEngine.drawGrid fuel x y width height scale = Some calls ->
  Forall (insideRect x y width height) calls.
Proof.
  intros Hw Hh Hs. unfold RenderEngine.drawGrid. cbv zeta.
  destruct (forUpTo fuel 0 width ((1 # 4) * scale) _) as [minorV|] eqn:E1;
    [|discriminate].
  destruct (forUpTo fuel 0 height ((1 # 4) * scale) _) as [minorH|] eqn:E2;
    [|discriminate].
  destruct (forUpTo fuel 0 width (1 * scale) _) as [majorV|] eqn:E3;
    [|discriminate].
  destruct (forUpTo fuel 0 height (1 * scale) _) as [majorH|] eqn:E4;
    [|discriminate].
  intros H. apply Some_inj in H. subst calls.
  assert (Hv : forall i, 0 <= i -> i <= width ->
                         Forall (insideRect x y width height)
                                [BeginPath; MoveTo (x + i) y;
                                 LineTo (x + i) (y + height); Stroke]).
  { intros i H0 H1. apply Forall_cons; [exact I|].
    apply Forall_cons; [cbn [insideRect]; lra|].
    apply Forall_cons; [cbn [insideRect]; lra|].
    apply Forall_cons; [exact I | constructor]. }
  assert (Hh' : forall i, 0 <= i -> i <= height ->
                          Forall (insideRect x y width height)
                                 [BeginPath; MoveTo x (y + i);
                                  LineTo (x + width) (y + i); Stroke]).
  { intros i H0 H1. apply Forall_cons; [exact I|].
    apply Forall_cons; [cbn [insideRect]; lra|].
    apply Forall_cons; [cbn [insideRect]; lra|].
    apply Forall_cons; [exact I | constructor]. }
  assert (Hstep4 : forall i, 0 <= i -> 0 <= i + (1 # 4) * scale)
    by (intros; lra).
  assert (Hstep1 : forall i, 0 <= i -> 0 <= i + 1 * scale)
    by (intros; lra).
  assert (H0 : 0 <= 0) by lra.
  pose proof (forUpTo_Forall _ (fun i => 0 <= i) _ _ _ Hstep4 Hv
                _ _ _ H0 E1) as F1.
  pose proof (forUpTo_Forall _ (fun i => 0 <= i) _ _ _ Hstep4 Hh'
                _ _ _ H0 E2) as F2.
  pose proof (forUpTo_Forall _ (fun i => 0 <= i) _ _ _ Hstep1 Hv
                _ _ _ H0 E3) as F3.
  pose proof (forUpTo_Forall _ (fun i => 0 <= i) _ _ _ Hstep1 Hh'
                _ _ _ H0 E4) as F4.
  repeat (apply Forall_app; split); try assumption;
    repeat (apply Forall_cons; [exact I|]); constructor.
Qed.

Lemma drawGridOptimized_inside
      (patternContext : bool) (createPatternOk : Z -> bool)
      (fuel : nat) (cache : patternCache) (x y width height scale : Q)
      (calls : list call) :
  0 <= width -> 0 <= height ->
  fst (RenderEngineOptimized.drawGridOptimized patternContext createPatternOk
         fuel cache x y width height scale) = Some calls ->
  Forall (insideRect x y width height) calls.
Proof.
  intros Hw Hh. unfold RenderEngineOptimized.drawGridOptimized. cbv zeta.
  assert (Hpattern :
            forall c,
              Forall (insideRect x y width height)
                     (snd (fst (RenderEngineOptimized.getGridPattern
                                  patternContext createPatternOk cache c)))).
  { intros c. unfold RenderEngineOptimized.getGridPattern.
    destruct (cacheGet cache c); [constructor|].
    destruct patternContext; [|constructor].
    destruct (createPatternOk _); cbn [fst snd];
      (apply Forall_cons; [exact I | constructor]). }
  specialize (Hpattern (scale * (1 # 4))).
  destruct (RenderEngineOptimized.getGridPattern _ _ cache (scale * (1 # 4)))
    as [[pattern patternCalls] cache'].
  cbn [fst snd] in *.
  match goal with
  | |- match ?lines with _ => _ end = _ -> _ =>
      destruct lines as [[v h]|] eqn:E; [|discriminate]
  end.
  intros Hcalls. apply Some_inj in Hcalls. subst calls.
  assert (Hlines : Forall (insideRect x y width height) v
                   /\ Forall (insideRect x y width height) h).
  { revert E. destruct (JsNumber.isZero (1 * scale)).
    - intros E. apply Some_inj in E. inversion E. split; constructor.
    - destruct (forUpTo fuel (inject_Z (JsNumber.floor (x / _)) * _) _ _ _)
        as [v'|] eqn:Ev; [|discriminate].
      destruct (forUpTo fuel (inject_Z (JsNumber.floor (y / _)) * _) _ _ _)
        as [h'|] eqn:Eh; [|discriminate].
      intros E. apply Some_inj in E. inversion E. subst v' h'.
      split.
      + refine (forUpTo_Forall _ (fun _ => True) _ _ _ (fun _ _ => I) _
                  _ _ _ I Ev).
        intros i _ _.
        destruct (Qle_bool x i) eqn:A; [|constructor].
        destruct (Qle_bool i (x + width)) eqn:B; [|constructor].
        apply Qle_bool_iff in A, B. cbn [andb].
        apply Forall_cons; [cbn [insideRect]; lra|].
        apply Forall_cons; [cbn [insideRect]; lra | constructor].
      + refine (forUpTo_Forall _ (fun _ => True) _ _ _ (fun _ _ => I) _
                  _ _ _ I Eh).
        intros i _ _.
        destruct (Qle_bool y i) eqn:A; [|constructor].
        destruct (Qle_bool i (y + height)) eqn:B; [|constructor].
        apply Qle_bool_iff in A, B. cbn [andb].
        apply Forall_cons; [cbn [insideRect]; lra|].
        apply Forall_cons; [cbn [insideRect]; lra | constructor]. }
  destruct Hlines as [Fv Fh].
  repeat (apply Forall_app; split); try assumption;
    try (destruct pattern);
    repeat (apply Forall_cons; [exact I|]); constructor.
Qed.

(** *** Counting strokes and saved states *)










Lemma leavesStack_drawXMarks (startX startY width height : Q)
      (horizontal : bool) :
  Forall (fun c => leavesStack c = true)
         (RenderEngine.drawXMarks startX startY width height horizontal)
  /\ Forall (fun c => leavesStack c = true)
            (RenderEngineOptimized.drawXMarksOptimized
               startX startY width height horizontal).
Proof.
  unfold RenderEngine.drawXMarks, RenderEngineOptimized.drawXMarksOptimized.
  cbv zeta. split.
  - apply Forall_app. split; [apply Forall_forallb; reflexivity|].
    apply forEachMark_Forall. intros j. apply Forall_forallb.
    destruct horizontal; reflexivity.
  - apply Forall_app. split; [apply Forall_forallb; reflexivity|].
    apply Forall_app. split; [|apply Forall_forallb; reflexivity].
    apply forEachMark_Forall. intros j. apply Forall_forallb.
    destruct horizontal; reflexivity.
Qed.





Section Renderers.

Variable measureTextWidth : jsstring -> Q.
Variable toUpperCase : jsstring -> jsstring.
Variable patternContext : bool.
Variable createPatternOk : Z -> bool.

Lemma scaled_sides_nonnegative (canvasWidth canvasHeight : Q)
      (s : StoneSpecifications) (o : options) :
  0 < width s -> 0 < height s ->
  0 < finalScale (computeLayout canvasWidth canvasHeight s o) ->
  0 <= scaledWidth (computeLayout canvasWidth canvasHeight s o) /\
  0 <= scaledHeight (computeLayout canvasWidth canvasHeight s o).
Proof.
  unfold computeLayout. cbn [finalScale scaledWidth scaledHeight].
  intros Hw Hh Hscale.
  split; apply Qmult_le_0_compat; lra.
Qed.

(** X23.  With the grid shown, every line of the grid of
    [drawing-utils.ts] lies within the rectangle of the piece, and the
    white fill of that rectangle is issued after the grid. *)
Theorem original_grid_lies_inside_the_piece_and_under_its_fill
        (canvasWidth canvasHeight : Q)
        (s : StoneSpecifications) (o : options) :
  0 < width s -> 0 < height s ->
  orDefault (padding o) 40 * 2 < canvasWidth ->
  orDefault (padding o) 40 * 2 < canvasHeight ->
  0 < orDefault (scale o) 1 ->
  orDefault (showGrid o) true = true ->
  let l := computeLayout canvasWidth canvasHeight s o in
  exists n : nat,
    forall fuel : nat,
      (n <= fuel)%nat ->
      exists grid rest,
        RenderEngine.drawGrid fuel (x l) (y l) (scaledWidth l)
          (scaledHeight l) (finalScale l) = Some grid /\
        Forall (insideRect (x l) (y l) (scaledWidth l) (scaledHeight l))
               grid /\
        RenderEngine.drawStoneMockup measureTextWidth toUpperCase fuel
          canvasWidth canvasHeight s o
        = Some ([ ClearRect 0 0 canvasWidth canvasHeight;
                  SetFillStyle (Color "#f5f5f5");
                  FillRect 0 0 canvasWidth canvasHeight ]
                  ++ grid
                  ++ [ SetFillStyle (Color "white");
                       SetStrokeStyle (Color "black");
                       SetLineWidth 2;
                       BeginPath;
                       Rect (x l) (y l) (scaledWidth l) (scaledHeight l);
                       Fill ]
                  ++ rest).
Proof.
  intros Hw Hh Hpw Hph Hs Hgrid. cbv zeta.
  pose proof (finalScale_positive canvasWidth canvasHeight s o
                Hw Hh Hpw Hph Hs) as Hscale.
  destruct (scaled_sides_nonnegative canvasWidth canvasHeight s o
              Hw Hh Hscale) as [Hsw Hsh].
  set (l := computeLayout canvasWidth canvasHeight s o) in *.
  destruct (drawGrid_terminates (x l) (y l) (scaledWidth l)
              (scaledHeight l) (finalScale l) Hscale) as [n E].
  exists n. intros fuel Hfuel.
  destruct (E fuel Hfuel) as [grid H].
  exists grid. eexists. split; [exact H|]. split.
  - apply (drawGrid_inside fuel _ _ _ _ (finalScale l));
      [exact Hsw | exact Hsh | lra | exact H].
  - unfold RenderEngine.drawStoneMockup. cbv zeta. fold l.
    rewrite Hgrid, H. unfold RenderEngine.drawStoneRectangle.
    f_equal. f_equal. f_equal.
    change [?a; ?b; ?c; ?d; ?e; ?f; Stroke]
      with ([a; b; c; d; e; f] ++ [Stroke]).
    rewrite <- !app_assoc. reflexivity.
Qed.

(** X24.  The same in [drawing-utils.optimized.ts]: every line of the
    grid lies within the rectangle of the piece, and the white
    [fillRect] of that rectangle is issued after the grid. *)
Theorem optimized_grid_lies_inside_the_piece_and_under_its_fill
        (cache : patternCache) (canvasWidth canvasHeight : Q)
        (s : StoneSpecifications) (o : options) :
  0 < width s -> 0 < height s ->
  orDefault (padding o) 40 * 2 < canvasWidth ->
  orDefault (padding o) 40 * 2 < canvasHeight ->
  0 < orDefault (scale o) 1 ->
  orDefault (showGrid o) true = true ->
  let l := computeLayout canvasWidth canvasHeight s o in
  exists n : nat,
    forall fuel : nat,
      (n <= fuel)%nat ->
      exists grid rest,
        fst (RenderEngineOptimized.drawGridOptimized patternContext
               createPatternOk fuel cache (x l) (y l) (scaledWidth l)
               (scaledHeight l) (finalScale l)) = Some grid /\
        Forall (insideRect (x l) (y l) (scaledWidth l) (scaledHeight l))
               grid /\
        fst (RenderEngineOptimized.drawStoneMockup measureTextWidth
               toUpperCase patternContext createPatternOk fuel cache
               canvasWidth canvasHeight s o)
        = Some ([ SetFillStyle (Color "#f5f5f5");
                  FillRect 0 0 canvasWidth canvasHeight ]
                  ++ grid
                  ++ [ SetFillStyle (Color "white");
                       FillRect (x l) (y l) (scaledWidth l)
                                (scaledHeight l) ]
                  ++ rest).
Proof.
  intros Hw Hh Hpw Hph Hs Hgrid. cbv zeta.
  pose proof (finalScale_positive canvasWidth canvasHeight s o
                Hw Hh Hpw Hph Hs) as Hscale.
  destruct (scaled_sides_nonnegative canvasWidth canvasHeight s o
              Hw Hh Hscale) as [Hsw Hsh].
  set (l := computeLayout canvasWidth canvasHeight s o) in *.
  destruct (drawGridOptimized_terminates patternContext createPatternOk
              cache (x l) (y l) (scaledWidth l) (scaledHeight l)
              (finalScale l) Hscale) as [n E].
  exists n. intros fuel Hfuel.
  destruct (E fuel Hfuel) as [grid H].
  exists grid. eexists. split; [exact H|]. split.
  - apply (drawGridOptimized_inside patternContext createPatternOk fuel
             cache _ _ _ _ (finalScale l));
      [exact Hsw | exact Hsh | exact H].
  - unfold RenderEngineOptimized.drawStoneMockup. cbv zeta. fold l.
    rewrite Hgrid.
    destruct (RenderEngineOptimized.drawGridOptimized _ _ _ _ _ _ _ _ _)
      as [grid' cache'].
    cbn [fst] in H |- *. subst grid'.
    unfold RenderEngineOptimized.drawStoneRectangle.
    f_equal. f_equal. f_equal.
    change [?a; ?b; ?c; ?d; ?e]
      with ([a; b] ++ [c; d; e]).
    rewrite <- !app_assoc. reflexivity.
Qed.



(** *** The pattern cache *)

Lemma cacheGet_Qeq (cache : patternCache) (a b : Q) :
  a == b -> cacheGet cache a = cacheGet cache b.
Proof.
  intros E. unfold cacheGet.
  induction cache as [|e cache IH]; [reflexivity|].
  cbn [find].
  assert (Hab : Qeq_bool (fst e) a = Qeq_bool (fst e) b).
  { destruct (Qeq_bool (fst e) b) eqn:B.
    - apply Qeq_bool_iff in B. apply Qeq_bool_iff. rewrite B, E.
      reflexivity.
    - destruct (Qeq_bool (fst e) a) eqn:A; [|reflexivity].
      apply Qeq_bool_iff in A. rewrite <- B. symmetry.
      apply Qeq_bool_iff. rewrite A. exact E. }
  rewrite Hab. destruct (Qeq_bool (fst e) b); [reflexivity | exact IH].
Qed.

(** X27.  A grid pattern is created once for a scale: after a
    creation that succeeded, asking for the same scale again returns
    the same pattern from the cache and makes no call.  A creation
    that failed is not remembered, a pattern is created only for a
    scale that is not in the cache, and no entry of the cache is ever
    lost or changed. *)
Theorem grid_pattern_is_created_once_per_scale
        (cache : patternCache) (scale : Q) :
  let '(pattern, calls, cache') :=
    RenderEngineOptimized.getGridPattern patternContext createPatternOk
      cache scale in
  (pattern <> None ->
   RenderEngineOptimized.getGridPattern patternContext createPatternOk
     cache' scale = (pattern, [], cache')) /\
  (pattern = None -> cache' = cache) /\
  (calls <> [] -> cacheGet cache scale = None) /\
  (forall (other : Q) (size : Z),
      cacheGet cache other = Some size ->
      cacheGet cache' other = Some size).
Proof.
  unfold RenderEngineOptimized.getGridPattern.
  destruct (cacheGet cache scale) as [size|] eqn:E.
  - rewrite E. repeat split; try congruence; auto.
  - destruct patternContext.
    + destruct (createPatternOk (JsNumber.round scale)).
      * repeat split; try congruence.
        -- intros _. unfold cacheGet. cbn [find fst snd].
           rewrite (proj2 (Qeq_bool_iff scale scale)) by reflexivity.
           reflexivity.
        -- intros other size H. unfold cacheGet. cbn [find fst].
           destruct (Qeq_bool scale other) eqn:B; [|exact H].
           apply Qeq_bool_iff in B.
           rewrite (cacheGet_Qeq cache scale other B) in E. congruence.
      * rewrite E. repeat split; try congruence; auto.
    + rewrite E. repeat split; try congruence; auto.
Qed.

End Renderers.

(** *** Where the grid lines go *)









(** *** The theorems at the sample slab *)

Import RenderSamples.

Lemma grid_inside_witness :
  let l := computeLayout 800 600 slab defaults in
  exists n : nat,
    forall fuel : nat,
      (n <= fuel)%nat ->
      exists grid rest,
        RenderEngine.drawGrid fuel (x l) (y l) (scaledWidth l)
          (scaledHeight l) (finalScale l) = Some grid /\
        Forall (insideRect (x l) (y l) (scaledWidth l) (scaledHeight l))
               grid /\
        RenderEngine.drawStoneMockup textWidth asciiToUpperCase fuel
          800 600 slab defaults
        = Some ([ ClearRect 0 0 800 600;
                  SetFillStyle (Color "#f5f5f5");
                  FillRect 0 0 800 600 ]
                  ++ grid
                  ++ [ SetFillStyle (Color "white");
                       SetStrokeStyle (Color "black");
                       SetLineWidth 2;
                       BeginPath;
                       Rect (x l) (y l) (scaledWidth l) (scaledHeight l);
                       Fill ]
                  ++ rest).
Proof.
  apply (original_grid_lies_inside_the_piece_and_under_its_fill textWidth
           asciiToUpperCase 800 600 slab defaults); reflexivity.
Defined.

Lemma optimized_grid_inside_witness :
  let l := computeLayout 800 600 slab defaults in
  exists n : nat,
    forall fuel : nat,
      (n <= fuel)%nat ->
      exists grid rest,
        fst (RenderEngineOptimized.drawGridOptimized true (fun _ => true)
               fuel [] (x l) (y l) (scaledWidth l)
               (scaledHeight l) (finalScale l)) = Some grid /\
        Forall (insideRect (x l) (y l) (scaledWidth l) (scaledHeight l))
               grid /\
        fst (RenderEngineOptimized.drawStoneMockup textWidth
               asciiToUpperCase true (fun _ => true) fuel []
               800 600 slab defaults)
        = Some ([ SetFillStyle (Color "#f5f5f5");
                  FillRect 0 0 800 600 ]
                  ++ grid
                  ++ [ SetFillStyle (Color "white");
                       FillRect (x l) (y l) (scaledWidth l)
                                (scaledHeight l) ]
                  ++ rest).
Proof.
  apply (optimized_grid_lies_inside_the_piece_and_under_its_fill textWidth
           asciiToUpperCase true (fun _ => true) [] 800 600 slab defaults);
    reflexivity.
Defined.


End RenderExtras.
